(** * House-prices notebook: a shallow embedding of its dataframe pipeline

    The notebook [feature-engineering-for-house-prices.ipynb] is a sequence of
    pandas transformations.  This file embeds the dataframe operations the
    notebook calls and the notebook's own functions ([clean], [encode],
    [impute], [load_data], [score_dataset], [label_encode], [counts],
    [CrossFoldEncoder] and the export cell), and proves properties of them.

    Conventions.
    - A cell is a missing value, a number or a string.  Numbers are rationals:
      the int64 and float64 values of the tables, without rounding.
    - A column ([Series]) is a dtype and its cells; a [DataFrame] is a row index
      and an ordered list of named columns, reached by name.
    - A Python exception is the [Raise] branch of [result].
    - [clean], [encode] and [impute] assign to the columns of the frame they
      are given and return that frame; [load_data] hands them the frame it has
      just built, so they are functions from the frame before to the frame
      after.  [score_dataset] assigns to the columns of its caller's frame: it
      is a transformer of a heap of objects.
    - The operations of pandas, numpy and scikit-learn follow the documented
      behaviour of these libraries for the calls the notebook makes. *)

From Stdlib Require Import List String Bool Arith ZArith QArith Reals Lia.
Import ListNotations.

Local Open Scope string_scope.
Local Open Scope list_scope.

Abbreviation length := List.length.

(** ** Exceptions *)

Inductive exn : Type :=
| KeyError
| IndexError
| TypeError
| ValueError
| AttributeError.

Inductive result (A : Type) : Type :=
| Ok (a : A)
| Raise (e : exn).

Arguments Ok {A} a.
Arguments Raise {A} e.

Definition bind {A B : Type} (c : result A) (k : A -> result B) : result B :=
  match c with
  | Ok a => k a
  | Raise e => Raise e
  end.

Notation "x <- c ;; k" := (bind c (fun x => k))
  (at level 61, c at next level, right associativity).

(** A loop whose body may raise: [for x in xs: acc = body(acc, x)]. *)
Fixpoint for_each {A S : Type} (body : S -> A -> result S) (xs : list A) (acc : S)
  : result S :=
  match xs with
  | [] => Ok acc
  | x :: rest => acc' <- body acc x ;; for_each body rest acc'
  end.

(** ** Cells, columns, frames *)

Inductive cell : Type :=
| NaN
| Num (q : Q)
| Str (s : string).

(** Equality of two values as pandas looks one up among categories or
    replacement keys: a missing value equals nothing. *)
Definition cell_eqb (a b : cell) : bool :=
  match a, b with
  | Num p, Num q => Qeq_bool p q
  | Str s, Str t => String.eqb s t
  | _, _ => false
  end.

Definition isna (c : cell) : bool :=
  match c with
  | NaN => true
  | _ => false
  end.

Inductive dtype : Type :=
| number
| object
| category (categories : list cell) (ordered : bool).

Record Series : Type := mkSeries { dt : dtype; values : list cell }.

Record DataFrame : Type := mkFrame { index : list Z; columns : list (string * Series) }.

Definition is_number (d : dtype) : bool :=
  match d with number => true | _ => false end.

Definition is_category (d : dtype) : bool :=
  match d with category _ _ => true | _ => false end.

(** [df[name]] *)
Fixpoint lookup (name : string) (cols : list (string * Series)) : option Series :=
  match cols with
  | [] => None
  | (n, s) :: rest => if String.eqb n name then Some s else lookup name rest
  end.

Definition getitem (df : DataFrame) (name : string) : result Series :=
  match lookup name (columns df) with
  | Some s => Ok s
  | None => Raise KeyError
  end.

(** [df[name] = s]: an existing column is replaced where it stands, a new one
    is appended on the right. *)
Fixpoint assign (name : string) (s : Series) (cols : list (string * Series))
  : list (string * Series) :=
  match cols with
  | [] => [(name, s)]
  | (n, old) :: rest =>
      if String.eqb n name then (n, s) :: rest else (n, old) :: assign name s rest
  end.

Definition setitem (df : DataFrame) (name : string) (s : Series) : DataFrame :=
  mkFrame (index df) (assign name s (columns df)).

(** [df.rename(columns=mapping)]: names absent from the frame are ignored. *)
Fixpoint renamed (mapping : list (string * string)) (n : string) : string :=
  match mapping with
  | [] => n
  | (old, new) :: rest => if String.eqb old n then new else renamed rest n
  end.

Definition rename (mapping : list (string * string)) (df : DataFrame) : DataFrame :=
  mkFrame (index df) (map (fun c => (renamed mapping (fst c), snd c)) (columns df)).

(** [df.select_dtypes(kind)], iterated: the names of the selected columns. *)
Definition select_dtypes (kind : dtype -> bool) (df : DataFrame) : list string :=
  map fst (filter (fun c => kind (dt (snd c))) (columns df)).

Definition nrows (df : DataFrame) : nat := length (index df).

(** The cell of a column at a row position. *)
Definition at_row (s : Series) (i : nat) : cell := nth i (values s) NaN.

(** ** Column operations *)

(** [s.replace(mapping)] on a column that is not categorical: the cells
    change, the dtype stays.  On a categorical column pandas renames the
    categories instead; the statements about the replaced column ask for a
    column that is not categorical. *)
Fixpoint replaced (mapping : list (cell * cell)) (c : cell) : cell :=
  match mapping with
  | [] => c
  | (old, new) :: rest => if cell_eqb old c then new else replaced rest c
  end.

Definition replace (mapping : list (cell * cell)) (s : Series) : Series :=
  mkSeries (dt s) (map (replaced mapping) (values s)).

(** [s <= bound]: a missing value compares false, a string cannot be compared
    with a number, and a categorical column refuses the comparison. *)
Definition le_cell (bound : Q) (c : cell) : result bool :=
  match c with
  | NaN => Ok false
  | Num q => Ok (Qle_bool q bound)
  | Str _ => Raise TypeError
  end.

Fixpoint map_result {A B : Type} (f : A -> result B) (xs : list A) : result (list B) :=
  match xs with
  | [] => Ok []
  | x :: rest => y <- f x ;; ys <- map_result f rest ;; Ok (y :: ys)
  end.

Definition le_scalar (s : Series) (bound : Q) : result (list bool) :=
  if is_category (dt s) then Raise TypeError else map_result (le_cell bound) (values s).

(** [s.where(cond, other)]: keep the cell where [cond] holds, take [other]'s
    cell of the same row elsewhere. *)
Fixpoint where_cells (vs : list cell) (cond : list bool) (other : list cell) : list cell :=
  match vs, cond, other with
  | v :: vs', c :: cond', o :: other' =>
      (if c then v else o) :: where_cells vs' cond' other'
  | _, _, _ => []
  end.

Definition common_dtype (a b : dtype) : dtype :=
  if is_number a && is_number b then number else object.

Definition where_ (s : Series) (cond : list bool) (other : Series) : Series :=
  mkSeries (common_dtype (dt s) (dt other)) (where_cells (values s) cond (values other)).

(** ** [clean]

    [df.YearBuilt] is read as [df["YearBuilt"]]: for a missing column the
    attribute raises [AttributeError] where the lookup raises [KeyError], and
    no statement below says which of the two a missing [YearBuilt] gives. *)

Definition clean (df : DataFrame) : result DataFrame :=
  ext <- getitem df "Exterior2nd" ;;
  let df := setitem df "Exterior2nd"
              (replace [(Str "Brk Cmn", Str "BrkComm");
                        (Str "Wd Shng", Str "Wd Sdng");
                        (Str "CmentBd", Str "CemntBd")] ext) in
  (* Some values of GarageYrBlt are corrupt, so we'll replace them
     with the year the house was built *)
  g <- getitem df "GarageYrBlt" ;;
  cond <- le_scalar g (2010 # 1) ;;
  yb <- getitem df "YearBuilt" ;;
  let df := setitem df "GarageYrBlt" (where_ g cond yb) in
  (* Names beginning with numbers are awkward to work with *)
  Ok (rename [("1stFlrSF", "FirstFlrSF");
              ("2ndFlrSF", "SecondFlrSF");
              ("3SsnPorch", "Threeseasonporch")] df).

(** ** Categorical columns *)

(** The distinct non-missing values of a column, in order of first appearance. *)
Fixpoint unique (seen : list cell) (vs : list cell) : list cell :=
  match vs with
  | [] => []
  | v :: rest =>
      if isna v || existsb (cell_eqb v) seen then unique seen rest
      else v :: unique (v :: seen) rest
  end.

(** The order in which category labels are sorted: numbers by value, strings
    by code point, numbers before strings. *)
Definition cell_leb (a b : cell) : bool :=
  match a, b with
  | NaN, _ => true
  | _, NaN => false
  | Num p, Num q => Qle_bool p q
  | Num _, Str _ => true
  | Str _, Num _ => false
  | Str s, Str t => String.leb s t
  end.

Fixpoint insert_sorted (c : cell) (sorted : list cell) : list cell :=
  match sorted with
  | [] => [c]
  | d :: rest => if cell_leb c d then c :: d :: rest else d :: insert_sorted c rest
  end.

Definition sort_cells (vs : list cell) : list cell :=
  fold_right insert_sorted [] vs.

Definition isin (c : cell) (cats : list cell) : bool := existsb (cell_eqb c) cats.

(** [s.astype("category")]: the categories are the sorted distinct values. *)
Definition astype_category (s : Series) : Series :=
  match dt s with
  | category _ _ => s
  | _ => mkSeries (category (sort_cells (unique [] (values s))) false) (values s)
  end.

(** [s.astype(CategoricalDtype(levels, ordered=True))]: a value that is not
    one of the levels becomes missing. *)
Definition recode (levels : list cell) (c : cell) : cell :=
  match find (cell_eqb c) levels with
  | Some l => l
  | None => NaN
  end.

Definition astype_levels (levels : list cell) (s : Series) : Series :=
  mkSeries (category levels true) (map (recode levels) (values s)).

(** [s.cat.categories] *)
Definition cat_categories (s : Series) : result (list cell) :=
  match dt s with
  | category cats _ => Ok cats
  | _ => Raise AttributeError
  end.

(** [s.cat.add_categories(c)] *)
Definition add_categories (s : Series) (c : cell) : result Series :=
  match dt s with
  | category cats ord =>
      if isin c cats then Raise ValueError
      else Ok (mkSeries (category (cats ++ [c]) ord) (values s))
  | _ => Raise AttributeError
  end.

(** [s.cat.codes]: the position of each value among the categories, -1 for a
    missing value. *)
Fixpoint code_of (cats : list cell) (c : cell) : Z :=
  match cats with
  | [] => (-1)%Z
  | d :: rest =>
      if cell_eqb c d then 0%Z
      else let k := code_of rest c in if (k <? 0)%Z then (-1)%Z else (k + 1)%Z
  end.

Definition cat_codes (s : Series) : result Series :=
  match dt s with
  | category cats _ =>
      Ok (mkSeries number (map (fun c => Num (inject_Z (code_of cats c))) (values s)))
  | _ => Raise AttributeError
  end.

(** [s.fillna(v)].  A categorical column accepts only one of its categories,
    and checks so even when it has nothing to fill. *)
Definition fill (v c : cell) : cell := if isna c then v else c.

Definition is_num_cell (c : cell) : bool :=
  match c with Num _ => true | _ => false end.

Definition fillna (s : Series) (v : cell) : result Series :=
  match dt s with
  | category cats _ =>
      if isin v cats then Ok (mkSeries (dt s) (map (fill v) (values s)))
      else Raise TypeError
  | number =>
      Ok (mkSeries (if is_num_cell v || negb (existsb isna (values s))
                    then number else object)
                   (map (fill v) (values s)))
  | object => Ok (mkSeries object (map (fill v) (values s)))
  end.

(** ** [encode] *)

(** The nominative (unordered) categorical features *)
Definition features_nom : list string :=
  ["MSSubClass"; "MSZoning"; "Street"; "Alley"; "LandContour"; "LotConfig";
   "Neighborhood"; "Condition1"; "Condition2"; "BldgType"; "HouseStyle";
   "RoofStyle"; "RoofMatl"; "Exterior1st"; "Exterior2nd"; "MasVnrType";
   "Foundation"; "Heating"; "CentralAir"; "GarageType"; "MiscFeature";
   "SaleType"; "SaleCondition"].

(** The ordinal (ordered) categorical features *)
Definition five_levels : list cell :=
  [Str "Po"; Str "Fa"; Str "TA"; Str "Gd"; Str "Ex"].

Definition ten_levels : list cell :=
  map (fun i => Num (inject_Z (Z.of_nat i))) (seq 0 10).

Definition strs (l : list string) : list cell := map Str l.

Definition ordered_levels_base : list (string * list cell) :=
  [("OverallQual", ten_levels);
   ("OverallCond", ten_levels);
   ("ExterQual", five_levels);
   ("ExterCond", five_levels);
   ("BsmtQual", five_levels);
   ("BsmtCond", five_levels);
   ("HeatingQC", five_levels);
   ("KitchenQual", five_levels);
   ("FireplaceQu", five_levels);
   ("GarageQual", five_levels);
   ("GarageCond", five_levels);
   ("PoolQC", five_levels);
   ("LotShape", strs ["Reg"; "IR1"; "IR2"; "IR3"]);
   ("LandSlope", strs ["Sev"; "Mod"; "Gtl"]);
   ("BsmtExposure", strs ["No"; "Mn"; "Av"; "Gd"]);
   ("BsmtFinType1", strs ["Unf"; "LwQ"; "Rec"; "BLQ"; "ALQ"; "GLQ"]);
   ("BsmtFinType2", strs ["Unf"; "LwQ"; "Rec"; "BLQ"; "ALQ"; "GLQ"]);
   ("Functional", strs ["Sal"; "Sev"; "Maj1"; "Maj2"; "Mod"; "Min2"; "Min1"; "Typ"]);
   ("GarageFinish", strs ["Unf"; "RFn"; "Fin"]);
   ("PavedDrive", strs ["N"; "P"; "Y"]);
   ("Utilities", strs ["NoSeWa"; "NoSewr"; "AllPub"]);
   ("CentralAir", strs ["N"; "Y"]);
   ("Electrical", strs ["Mix"; "FuseP"; "FuseF"; "FuseA"; "SBrkr"]);
   ("Fence", strs ["MnWw"; "GdWo"; "MnPrv"; "GdPrv"])].

(** Add a None level for missing values *)
Definition ordered_levels : list (string * list cell) :=
  map (fun kv => (fst kv, Str "None" :: snd kv)) ordered_levels_base.

Definition encode_nominal (df : DataFrame) (name : string) : result DataFrame :=
  s <- getitem df name ;;
  let df := setitem df name (astype_category s) in
  (* Add a None category for missing values *)
  s <- getitem df name ;;
  cats <- cat_categories s ;;
  if negb (isin (Str "None") cats) then
    s <- getitem df name ;;
    s' <- add_categories s (Str "None") ;;
    Ok (setitem df name s')
  else Ok df.

Definition encode_ordinal (df : DataFrame) (item : string * list cell)
  : result DataFrame :=
  s <- getitem df (fst item) ;;
  Ok (setitem df (fst item) (astype_levels (snd item) s)).

Definition encode (df : DataFrame) : result DataFrame :=
  (* Nominal categories *)
  df <- for_each encode_nominal features_nom df ;;
  (* Ordinal categories *)
  for_each encode_ordinal ordered_levels df.

(** ** [impute] *)

Definition fill_column (v : cell) (df : DataFrame) (name : string) : result DataFrame :=
  s <- getitem df name ;;
  s' <- fillna s v ;;
  Ok (setitem df name s').

Definition impute (df : DataFrame) : result DataFrame :=
  df <- for_each (fill_column (Num 0)) (select_dtypes is_number df) df ;;
  for_each (fill_column (Str "None")) (select_dtypes is_category df) df.

(** ** Rows: [iloc], [loc], [pd.concat] *)

(** [xs[i]] for each position of [rows]; a position past the end raises. *)
Definition take_rows {A : Type} (xs : list A) (rows : list nat) : result (list A) :=
  map_result (fun i => match nth_error xs i with
                       | Some x => Ok x
                       | None => Raise IndexError
                       end) rows.

(** [s.iloc[rows]] *)
Definition iloc_series (s : Series) (rows : list nat) : result Series :=
  vs <- take_rows (values s) rows ;;
  Ok (mkSeries (dt s) vs).

(** [df.iloc[rows, :]] *)
Definition iloc (df : DataFrame) (rows : list nat) : result DataFrame :=
  idx <- take_rows (index df) rows ;;
  cols <- map_result (fun c => s <- iloc_series (snd c) rows ;; Ok (fst c, s))
                     (columns df) ;;
  Ok (mkFrame idx cols).

(** The positions at which a label occurs in an index. *)
Definition positions (idx : list Z) (label : Z) : list nat :=
  filter (fun i => Z.eqb (nth i idx 0%Z) label) (seq 0 (length idx)).

(** [df.loc[labels, :]]: every row carrying the label, for each label in
    turn; a label that is not in the index raises. *)
Definition loc (df : DataFrame) (labels : list Z) : result DataFrame :=
  rows <- map_result (fun l => match positions (index df) l with
                              | [] => Raise KeyError
                              | ps => Ok ps
                              end) labels ;;
  iloc df (List.concat rows).

Fixpoint cells_eqb (a b : list cell) : bool :=
  match a, b with
  | [], [] => true
  | x :: a', y :: b' => cell_eqb x y && cells_eqb a' b'
  | _, _ => false
  end.

(** The dtype of two columns stacked on one another. *)
Definition concat_dtype (a b : dtype) : dtype :=
  match a, b with
  | number, number => number
  | category c1 o1, category c2 o2 =>
      if cells_eqb c1 c2 && Bool.eqb o1 o2 then a else object
  | _, _ => object
  end.

(** [pd.concat([a, b])]: rows of [a] above rows of [b]; the columns are those
    of [a] followed by the columns only [b] has, and a column one frame lacks
    is missing on that frame's rows. *)
Definition concat_column (a b : DataFrame) (name : string) : string * Series :=
  match lookup name (columns a), lookup name (columns b) with
  | Some s, Some t => (name, mkSeries (concat_dtype (dt s) (dt t)) (values s ++ values t))
  | Some s, None => (name, mkSeries (dt s) (values s ++ repeat NaN (nrows b)))
  | None, Some t => (name, mkSeries (dt t) (repeat NaN (nrows a) ++ values t))
  | None, None => (name, mkSeries object (repeat NaN (nrows a + nrows b)))
  end.

Definition has_column (df : DataFrame) (name : string) : bool :=
  match lookup name (columns df) with Some _ => true | None => false end.

Definition concat2 (a b : DataFrame) : DataFrame :=
  let names := map fst (columns a)
               ++ filter (fun n => negb (has_column a n)) (map fst (columns b)) in
  mkFrame (index a ++ index b) (map (concat_column a b) names).

Definition pd_concat (frames : list DataFrame) : result DataFrame :=
  match frames with
  | [] => Raise ValueError
  | f :: rest => Ok (fold_left concat2 rest f)
  end.

(** ** [load_data]

    [train_csv] and [test_csv] are the two files as [pd.read_csv] parses them,
    with the [Id] column as index. *)

Definition load_data (train_csv test_csv : DataFrame) : result (DataFrame * DataFrame) :=
  let df_train := train_csv in
  let df_test := test_csv in
  (* Merge the splits so we can process them together *)
  df <- pd_concat [df_train; df_test] ;;
  (* Preprocessing *)
  df <- clean df ;;
  df <- encode df ;;
  df <- impute df ;;
  (* Reform splits *)
  df_train <- loc df (index df_train) ;;
  df_test <- loc df (index df_test) ;;
  Ok (df_train, df_test).

(** ** [KFold(n_splits).split]: consecutive folds without shuffling

    The first [n mod n_splits] folds have [n / n_splits + 1] rows, the others
    [n / n_splits]; each split is the pair of the positions outside the fold
    and the positions of the fold.  Fewer rows than folds is an error. *)

Definition fold_sizes (n_splits n : nat) : list nat :=
  map (fun i => n / n_splits + (if i <? n mod n_splits then 1 else 0))%nat
      (seq 0 n_splits).

Fixpoint iter_test_indices (current : nat) (sizes : list nat) : list (list nat) :=
  match sizes with
  | [] => []
  | size :: rest => seq current size :: iter_test_indices (current + size) rest
  end.

Definition train_indices (n : nat) (test : list nat) : list nat :=
  filter (fun i => negb (existsb (Nat.eqb i) test)) (seq 0 n).

Definition KFold_split (n_splits n : nat) : result (list (list nat * list nat)) :=
  if (n <? n_splits)%nat then Raise ValueError
  else Ok (map (fun test => (train_indices n test, test))
               (iter_test_indices 0 (fold_sizes n_splits n))).

(** ** Frame arithmetic used by the encoder *)

(** [df[names]] *)
Definition select_columns (df : DataFrame) (names : list string) : result DataFrame :=
  cols <- map_result (fun n => s <- getitem df n ;; Ok (n, s)) names ;;
  Ok (mkFrame (index df) cols).

(** [df.columns = [name + "_encoded" for name in df.columns]] *)
Definition add_suffix (suffix : string) (df : DataFrame) : DataFrame :=
  mkFrame (index df) (map (fun c => ((fst c ++ suffix)%string, snd c)) (columns df)).

(** One cell of [x.add(y, fill_value=0)]: a value missing on one side only
    counts as 0; missing on both sides stays missing. *)
Definition add_cell (a b : cell) : result cell :=
  match a, b with
  | NaN, NaN => Ok NaN
  | Num p, NaN => Ok (Num (p + 0))
  | NaN, Num q => Ok (Num (0 + q))
  | Num p, Num q => Ok (Num (p + q))
  | _, _ => Raise TypeError
  end.

Fixpoint add_cells (xs ys : list cell) : result (list cell) :=
  match xs, ys with
  | [], [] => Ok []
  | x :: xs', y :: ys' => z <- add_cell x y ;; zs <- add_cells xs' ys' ;; Ok (z :: zs)
  | _, _ => Raise ValueError
  end.

Fixpoint add_columns (xs ys : list (string * Series)) : result (list (string * Series)) :=
  match xs, ys with
  | [], [] => Ok []
  | (n, s) :: xs', (n', t) :: ys' =>
      if String.eqb n n' then
        vs <- add_cells (values s) (values t) ;;
        rest <- add_columns xs' ys' ;;
        Ok ((n, mkSeries number vs) :: rest)
      else Raise ValueError
  | _, _ => Raise ValueError
  end.

Fixpoint index_eqb (a b : list Z) : bool :=
  match a, b with
  | [], [] => true
  | x :: a', y :: b' => Z.eqb x y && index_eqb a' b'
  | _, _ => false
  end.

(** [x.add(y, fill_value=0)] for two frames with the same index and the same
    column names, which is what the transforms of one frame by the fitted
    encoders are.  The alignment pandas performs on frames whose labels differ
    is outside this model and shows as a raise. *)
Definition frame_add (x y : DataFrame) : result DataFrame :=
  if index_eqb (index x) (index y) then
    cols <- add_columns (columns x) (columns y) ;;
    Ok (mkFrame (index x) cols)
  else Raise ValueError.

Definition div_cell (n : nat) (c : cell) : result cell :=
  match c with
  | NaN => Ok NaN
  | Num p => Ok (Num (p / inject_Z (Z.of_nat n)))
  | Str _ => Raise TypeError
  end.

(** [df / n] *)
Definition frame_div (df : DataFrame) (n : nat) : result DataFrame :=
  cols <- map_result (fun c => vs <- map_result (div_cell n) (values (snd c)) ;;
                               Ok (fst c, mkSeries number vs)) (columns df) ;;
  Ok (mkFrame (index df) cols).

(** [functools.reduce(f, xs)] without an initial value. *)
Definition reduce {A : Type} (f : A -> A -> result A) (xs : list A) : result A :=
  match xs with
  | [] => Raise TypeError
  | x :: rest => for_each f rest x
  end.

(** ** [CrossFoldEncoder] *)

(** The encoder class handed to [CrossFoldEncoder]: [fit cols X y] stands for
    [encoder(cols=cols, **kwargs).fit(X, y)], whose result is the fitted
    encoder; [transform] returns the frame with the columns [cols] encoded. *)
Record Encoder : Type := mkEncoder {
  fitted : Type;
  fit : list string -> DataFrame -> Series -> result fitted;
  transform : fitted -> DataFrame -> result DataFrame
}.

(** The attributes [fit_transform] sets on the object; both are unset after
    [__init__].  [encoder_] and [kwargs_] are the [Encoder], [cv_] is
    [KFold(n_splits=5)]. *)
Record CrossFoldEncoder (E : Encoder) : Type := mkCrossFold {
  fitted_encoders_ : option (list (fitted E));
  cols_ : option (list string)
}.

Arguments mkCrossFold {E} _ _.
Arguments fitted_encoders_ {E} _.
Arguments cols_ {E} _.

Definition CrossFoldEncoder_init (E : Encoder) : CrossFoldEncoder E :=
  mkCrossFold None None.

(** The body of the loop of [fit_transform] for one split. *)
Definition fit_fold (E : Encoder) (cols : list string) (X : DataFrame) (y : Series)
  (split : list nat * list nat) : result (fitted E * DataFrame) :=
  let '(idx_encode, idx_train) := split in
  X_fit <- iloc X idx_encode ;;
  y_fit <- iloc_series y idx_encode ;;
  fitted_encoder <- fit E cols X_fit y_fit ;;
  X_held <- iloc X idx_train ;;
  T <- transform E fitted_encoder X_held ;;
  T <- select_columns T cols ;;
  Ok (fitted_encoder, T).

(** The loop: [fitted_encoders_] and [X_encoded] grow by one element per split;
    when an iteration raises, the encoders appended so far stay on the
    object. *)
Fixpoint fit_folds (E : Encoder) (cols : list string) (X : DataFrame) (y : Series)
  (splits : list (list nat * list nat))
  (encoders : list (fitted E)) (X_encoded : list DataFrame)
  : list (fitted E) * result (list DataFrame) :=
  match splits with
  | [] => (encoders, Ok X_encoded)
  | split :: rest =>
      match fit_fold E cols X y split with
      | Ok (fitted_encoder, T) =>
          fit_folds E cols X y rest (encoders ++ [fitted_encoder]) (X_encoded ++ [T])
      | Raise e => (encoders, Raise e)
      end
  end.

(** [self.fit_transform(X, y, cols)]: the object afterwards and the outcome. *)
Definition fit_transform (E : Encoder) (self : CrossFoldEncoder E)
  (X : DataFrame) (y : Series) (cols : list string)
  : CrossFoldEncoder E * result DataFrame :=
  match KFold_split 5 (nrows X) with
  | Raise e => (mkCrossFold (Some []) (Some cols), Raise e)
  | Ok splits =>
      let '(encoders, outcome) := fit_folds E cols X y splits [] [] in
      (mkCrossFold (Some encoders) (Some cols),
       X_encoded <- outcome ;;
       X_encoded <- pd_concat X_encoded ;;
       Ok (add_suffix "_encoded" X_encoded))
  end.

(** [self.transform(X)] *)
Definition cross_transform (E : Encoder) (self : CrossFoldEncoder E) (X : DataFrame)
  : result DataFrame :=
  match fitted_encoders_ self, cols_ self with
  | Some encoders, Some cols =>
      X_encoded_list <- map_result (fun fitted_encoder =>
                                      X_encoded <- transform E fitted_encoder X ;;
                                      select_columns X_encoded cols) encoders ;;
      total <- reduce frame_add X_encoded_list ;;
      X_encoded <- frame_div total (length X_encoded_list) ;;
      Ok (add_suffix "_encoded" X_encoded)
  | _, _ => Raise AttributeError
  end.

(** An encoder class to run the cross-fold encoder on: the M-estimate target
    encoder, the class the notebook passes ([MEstimateEncoder], [m=1]).  A
    category is encoded as [(sum + prior * m) / (count + m)], with [sum] and
    [count] the total and number of targets of that category and [prior] the
    mean target; a column whose values are all distinct, an unseen value and a
    missing value are encoded as the prior. *)
Definition qsum (l : list Q) : Q := fold_right Qplus 0 l.

Definition target_of (c : cell) : result Q :=
  match c with
  | Num q => Ok q
  | _ => Raise ValueError
  end.

Record MEstimate : Type := mkMEstimate {
  me_cols : list string;
  me_prior : Q;
  me_mapping : list (string * list (cell * Q))
}.

Definition group_targets (xs : list cell) (ys : list Q) (v : cell) : list Q :=
  map snd (filter (fun xy => cell_eqb (fst xy) v) (combine xs ys)).

Definition m_estimates (m prior : Q) (xs : list cell) (ys : list Q) : list (cell * Q) :=
  let cats := unique [] xs in
  map (fun v =>
         let ts := group_targets xs ys v in
         (v, if (length cats =? length ys)%nat then prior
             else (qsum ts + prior * m) / (inject_Z (Z.of_nat (length ts)) + m)))
      cats.

Definition m_fit (m : Q) (cols : list string) (X : DataFrame) (y : Series)
  : result MEstimate :=
  ys <- map_result target_of (values y) ;;
  match ys with
  | [] => Raise ValueError
  | _ =>
      let prior := qsum ys / inject_Z (Z.of_nat (length ys)) in
      mapping <- map_result (fun col => s <- getitem X col ;;
                                        Ok (col, m_estimates m prior (values s) ys)) cols ;;
      Ok (mkMEstimate cols prior mapping)
  end.

Definition m_encode (prior : Q) (table : list (cell * Q)) (c : cell) : cell :=
  match find (fun e => cell_eqb c (fst e)) table with
  | Some e => Num (snd e)
  | None => Num prior
  end.

Definition m_transform (f : MEstimate) (X : DataFrame) : result DataFrame :=
  for_each (fun df entry =>
              s <- getitem df (fst entry) ;;
              Ok (setitem df (fst entry)
                    (mkSeries number (map (m_encode (me_prior f) (snd entry)) (values s)))))
           (me_mapping f) X.

Definition MEstimateEncoder (m : Q) : Encoder :=
  mkEncoder MEstimate (m_fit m) m_transform.

(** ** [counts] *)

(** [s > bound], cell by cell. *)
Definition gt_cell (bound : Q) (c : cell) : result bool :=
  match c with
  | NaN => Ok false
  | Num q => Ok (negb (Qle_bool q bound))
  | Str _ => Raise TypeError
  end.

Definition gt_scalar (s : Series) (bound : Q) : result (list bool) :=
  if is_category (dt s) then Raise TypeError else map_result (gt_cell bound) (values s).

(** [df.gt(bound)]: the frame of booleans, column by column. *)
Definition frame_gt (df : DataFrame) (bound : Q) : result (list (list bool)) :=
  map_result (fun c => gt_scalar (snd c) bound) (columns df).

(** [flags.sum(axis=1)]: for each row, the number of columns that are true. *)
Definition sum_axis1 (nrow : nat) (flags : list (list bool)) : Series :=
  mkSeries number
    (map (fun i => Num (inject_Z (Z.of_nat
                     (length (filter (fun col => nth i col false) flags)))))
         (seq 0 nrow)).

Definition porch_columns : list string :=
  ["WoodDeckSF"; "OpenPorchSF"; "EnclosedPorch"; "Threeseasonporch"; "ScreenPorch"].

(** [X = pd.DataFrame(); X[name] = s]: the empty frame takes the index of the
    column it is given, here the index of the frame the column came from. *)
Definition frame_of_column (idx : list Z) (name : string) (s : Series) : DataFrame :=
  mkFrame idx [(name, s)].

Definition counts (df : DataFrame) : result DataFrame :=
  porches <- select_columns df porch_columns ;;
  flags <- frame_gt porches 0 ;;
  Ok (frame_of_column (index df) "PorchTypes" (sum_axis1 (nrows porches) flags)).

(** ** Objects a function mutates in place

    [score_dataset] assigns to columns of the frame it is given, so the frame
    is an object in a heap and the function a heap transformer: the heap it
    leaves, also when it raises, and its outcome. *)

Inductive pyobject : Type :=
| PyFrame (df : DataFrame)
| PySeries (s : Series).

Definition heap : Type := nat -> option pyobject.

Definition py (A : Type) : Type := heap -> heap * result A.

Definition py_ret {A : Type} (a : A) : py A := fun h => (h, Ok a).

Definition py_bind {A B : Type} (c : py A) (k : A -> py B) : py B :=
  fun h => match c h with
           | (h', Ok a) => k a h'
           | (h', Raise e) => (h', Raise e)
           end.

Notation "x <~ c ;; k" := (py_bind c (fun x => k))
  (at level 61, c at next level, right associativity).

Definition py_lift {A : Type} (r : result A) : py A := fun h => (h, r).

Definition read_frame (ref : nat) : py DataFrame :=
  fun h => match h ref with
           | Some (PyFrame df) => (h, Ok df)
           | _ => (h, Raise TypeError)
           end.

Definition read_series (ref : nat) : py Series :=
  fun h => match h ref with
           | Some (PySeries s) => (h, Ok s)
           | _ => (h, Raise TypeError)
           end.

Definition update (h : heap) (ref : nat) (o : pyobject) : heap :=
  fun r => if Nat.eqb r ref then Some o else h r.

Definition write_frame (ref : nat) (df : DataFrame) : py unit :=
  fun h => (update h ref (PyFrame df), Ok tt).

Fixpoint py_for {A : Type} (body : A -> py unit) (xs : list A) : py unit :=
  match xs with
  | [] => py_ret tt
  | x :: rest => _ <~ body x ;; py_for body rest
  end.

(** ** [score_dataset]

    Targets, predictions and scores are float64 values of numpy and of the
    estimator; they are real numbers here, without rounding. *)

(** The model handed to [score_dataset]: [est_fit X y] stands for
    [clone(model).fit(X, y)]. *)
Record Estimator : Type := mkEstimator {
  fitted_model : Type;
  est_fit : DataFrame -> list R -> fitted_model;
  predict : fitted_model -> DataFrame -> list R
}.

Definition Rsum (l : list R) : R := fold_right Rplus 0%R l.

(** [a.mean()] *)
Definition Rmean (l : list R) : R := (Rsum l / INR (length l))%R.

Fixpoint squared_errors (y_true y_pred : list R) : list R :=
  match y_true, y_pred with
  | t :: ts, p :: ps => ((t - p) * (t - p))%R :: squared_errors ts ps
  | _, _ => []
  end.

(** [sklearn.metrics.mean_squared_error] *)
Definition mean_squared_error (y_true y_pred : list R) : result R :=
  if (length y_true =? length y_pred)%nat
  then Ok (Rmean (squared_errors y_true y_pred))
  else Raise ValueError.

(** One fold of [cross_val_score] with [scoring="neg_mean_squared_error"]. *)
Definition fit_and_score (est : Estimator) (X : DataFrame) (y : list R)
  (split : list nat * list nat) : result R :=
  let '(train, test) := split in
  X_train <- iloc X train ;;
  y_train <- take_rows y train ;;
  X_test <- iloc X test ;;
  y_test <- take_rows y test ;;
  let estimator := est_fit est X_train y_train in
  mse <- mean_squared_error y_test (predict est estimator X_test) ;;
  Ok (- mse)%R.

(** [cross_val_score(model, X, y, cv=cv, scoring="neg_mean_squared_error")]:
    for a regressor the integer [cv] means [KFold(cv)]. *)
Definition cross_val_score (est : Estimator) (X : DataFrame) (y : list R) (cv : nat)
  : result (list R) :=
  if (nrows X =? length y)%nat then
    splits <- KFold_split cv (nrows X) ;;
    map_result (fit_and_score est X y) splits
  else Raise ValueError.

(** One value of [np.log(y)].  The logarithm of a missing or non-positive
    target is NaN or -inf, which no estimator accepts as a label: the call
    that receives it fails, and the failure is shown here. *)
Definition log_cell (c : cell) : result R :=
  match c with
  | Num q => if Qle_bool q 0 then Raise ValueError else Ok (ln (Q2R q))
  | NaN => Raise ValueError
  | Str _ => Raise TypeError
  end.

Definition np_log (y : Series) : result (list R) := map_result log_cell (values y).

(** [X[colname] = X[colname].cat.codes] on the object [X]. *)
Definition label_column (X : nat) (colname : string) : py unit :=
  df <~ read_frame X ;;
  s <~ py_lift (getitem df colname) ;;
  codes <~ py_lift (cat_codes s) ;;
  write_frame X (setitem df colname codes).

Definition score_dataset (model : Estimator) (X y : nat) : py R :=
  (* Label encoding for categoricals *)
  df <~ read_frame X ;;
  _ <~ py_for (label_column X) (select_dtypes is_category df) ;;
  (* Metric for Housing competition is RMSLE (Root Mean Squared Log Error) *)
  y_ <~ read_series y ;;
  log_y <~ py_lift (np_log y_) ;;
  df <~ read_frame X ;;
  score <~ py_lift (cross_val_score model df log_y 5) ;;
  let score := (-1 * Rmean score)%R in
  let score := sqrt score in
  py_ret score.

(** ** The export cell *)

(** The output frame holds predictions, which are reals, so it has a cell type
    of its own. *)
Inductive field : Type :=
| FInt (z : Z)
| FFloat (r : R)
| FText (s : string).

Record Table : Type := mkTable { t_index : list Z; t_columns : list (string * list field) }.

(** [pd.DataFrame(dict)]: the columns in the order of the dict, under a fresh
    index 0, 1, ...; columns of different lengths are refused. *)
Definition DataFrame_of_dict (d : list (string * list field)) : result Table :=
  match d with
  | [] => Ok (mkTable [] [])
  | (_, first) :: _ =>
      if forallb (fun c => (length (snd c) =? length first)%nat) d
      then Ok (mkTable (map Z.of_nat (seq 0 (length first))) d)
      else Raise ValueError
  end.

(** [t.to_csv(path, index=with_index)]: the header line, then one line per
    row; the index is a first, unnamed column when [with_index] is set. *)
Definition csv_line (with_index : bool) (label : field) (fields : list field)
  : list field :=
  if with_index then label :: fields else fields.

Definition to_csv (t : Table) (with_index : bool) : list (list field) :=
  csv_line with_index (FText "") (map (fun c => FText (fst c)) (t_columns t))
  :: map (fun i => csv_line with_index (FInt (nth i (t_index t) 0%Z))
                     (map (fun c => nth i (snd c) (FText "")) (t_columns t)))
         (seq 0 (length (t_index t))).

(** The files of the working directory, by name. *)
Definition files : Type := string -> option (list (list field)).

Definition write_file (fs : files) (path : string) (content : list (list field)) : files :=
  fun p => if String.eqb p path then Some content else fs p.

(** The last cell, from the features [create_features] returned:
    [xgb.fit(X_train, np.log(y))], the predictions on [X_test], and the
    export. *)
Definition export_cell (xgb : Estimator) (X_train X_test : DataFrame) (y : Series)
  (fs : files) : result files :=
  log_y <- np_log y ;;
  (* XGB minimizes MSE, but competition loss is RMSLE
     So, we need to log-transform y to train and exp-transform the predictions *)
  let fitted_xgb := est_fit xgb X_train log_y in
  let predictions := map exp (predict xgb fitted_xgb X_test) in
  output <- DataFrame_of_dict [("Id", map FInt (index X_test));
                               ("SalePrice", map FFloat predictions)] ;;
  Ok (write_file fs "submission.csv" (to_csv output false)).

(** [df = clean(df); df = encode(df); df = impute(df)], the preprocessing of
    [load_data]. *)
Definition preprocessing (df : DataFrame) : result DataFrame :=
  df <- clean df ;;
  df <- encode df ;;
  impute df.

(** ** Predicates the statements use *)

(** A number that is at most [bound]; false for a missing value. *)
Definition at_most (bound : Q) (c : cell) : bool :=
  match c with
  | Num q => Qle_bool q bound
  | _ => false
  end.

Definition is_str (c : cell) : bool :=
  match c with Str _ => true | _ => false end.

(** A column [<=] and [>] accept: not categorical, no string in it. *)
Definition comparable (s : Series) : bool :=
  negb (is_category (dt s)) && forallb (fun c => negb (is_str c)) (values s).

Definition no_missing (s : Series) : bool := forallb (fun c => negb (isna c)) (values s).

(** The column [name] of [df] is categorical and ["None"] is one of its
    categories. *)
Definition categorical_with_None (df : DataFrame) (name : string) : Prop :=
  exists s cats ord,
    getitem df name = Ok s /\ dt s = category cats ord /\ isin (Str "None") cats = true.

(** The column [fst item] of [df] is an ordered categorical whose categories
    are the levels [snd item], in that order. *)
Definition has_levels (df : DataFrame) (item : string * list cell) : Prop :=
  exists s, getitem df (fst item) = Ok s /\ dt s = category (snd item) true.

(** The column [name] of [df] has dtype [d]. *)
Definition has_dtype (df : DataFrame) (name : string) (d : dtype) : Prop :=
  exists s, getitem df name = Ok s /\ dt s = d.

(** [s.fillna(v)] when it returns. *)
Definition filled (v : cell) (s : Series) : Series :=
  mkSeries (match dt s with
            | number => if is_num_cell v || negb (existsb isna (values s))
                        then number else object
            | d => d
            end)
           (map (fill v) (values s)).

(** What imputation makes of a column: 0 for the missing values of a numeric
    column, ["None"] for those of a categorical column, any other column as
    it is. *)
Definition imputed (s : Series) : Series :=
  match dt s with
  | number => mkSeries number (map (fill (Num 0)) (values s))
  | category _ _ => mkSeries (dt s) (map (fill (Str "None")) (values s))
  | object => s
  end.

(** Every categorical column of the frame has ["None"] among its categories. *)
Definition categories_have_None (df : DataFrame) : Prop :=
  forall name s cats ord,
    In (name, s) (columns df) -> dt s = category cats ord ->
    isin (Str "None") cats = true.

(** The features [encode] turns into categoricals. *)
Definition listed (name : string) : Prop :=
  In name features_nom \/ In name (map fst ordered_levels).

Definition listedb (name : string) : bool :=
  existsb (String.eqb name) (features_nom ++ map fst ordered_levels).

(** A column that is numeric or that [encode] makes categorical. *)
Definition numeric_or_listed (c : string * Series) : Prop :=
  is_number (dt (snd c)) = true \/ listed (fst c).

(** A number strictly greater than zero. *)
Definition positive (c : cell) : bool :=
  match c with
  | Num q => negb (Qle_bool q 0)
  | _ => false
  end.

(** The number of porch-area columns of [df] that are positive at row [i]. *)
Definition porch_count (df : DataFrame) (i : nat) : nat :=
  length (filter (fun name => match lookup name (columns df) with
                              | Some s => positive (at_row s i)
                              | None => false
                              end) porch_columns).

(** The column [name] of [df], empty when there is none. *)
Definition column (df : DataFrame) (name : string) : Series :=
  match lookup name (columns df) with
  | Some s => s
  | None => mkSeries object []
  end.

(** The cells of row [i], column by column: the values of [df.iloc[i]]. *)
Definition row_cells (df : DataFrame) (i : nat) : list cell :=
  map (fun c => at_row (snd c) i) (columns df).

(** The columns of [df] are named [names], in that order, and each is the
    column its name selects. *)
Definition keyed_by (names : list string) (df : DataFrame) : Prop :=
  columns df = map (fun n => (n, column df n)) names.

(** [y'] is [y] with other targets on some rows of [rows] only. *)
Definition agree_outside (rows : list nat) (y y' : Series) : Prop :=
  dt y' = dt y /\
  forall i, ~ In i rows -> nth_error (values y') i = nth_error (values y) i.

(** Every column has one cell per row. *)
Definition rectangular (df : DataFrame) : Prop :=
  Forall (fun c => length (values (snd c)) = nrows df) (columns df).

(** An encoder whose [transform] returns one value per row it is given, in
    every column. *)
Definition keeps_rows (E : Encoder) : Prop :=
  forall f Z T name s,
    rectangular Z ->
    transform E f Z = Ok T -> getitem T name = Ok s -> length (values s) = nrows Z.

(** The transforms of [X] by the fitted encoders, restricted to [cols]: the
    [X_encoded_list] of [transform]. *)
Definition encoder_frames (E : Encoder) (encoders : list (fitted E))
  (cols : list string) (X : DataFrame) : result (list DataFrame) :=
  map_result (fun fitted_encoder =>
                X_encoded <- transform E fitted_encoder X ;;
                select_columns X_encoded cols) encoders.

(** The cell of the [p]-th column at row [i]. *)
Definition cell_at (df : DataFrame) (p i : nat) : cell :=
  match nth_error (columns df) p with
  | Some c => at_row (snd c) i
  | None => NaN
  end.

(** What [reduce(add with fill_value=0) / len] makes of the cells of one row
    and column. *)
Definition averaged (cs : list cell) : result cell :=
  total <- reduce add_cell cs ;;
  div_cell (length cs) total.

(** The mean of a list of numbers. *)
Definition qmean (qs : list Q) : Q := qsum qs / inject_Z (Z.of_nat (length qs)).

(** The mean of cells: the mean of the numbers when all are numbers, missing
    otherwise. *)
Fixpoint numbers (cs : list cell) : option (list Q) :=
  match cs with
  | [] => Some []
  | Num q :: rest => option_map (cons q) (numbers rest)
  | _ :: _ => None
  end.

Definition mean_of (cs : list cell) : cell :=
  match numbers cs with
  | Some qs => Num (qmean qs)
  | None => NaN
  end.

(** A column after label encoding: the category codes of a categorical
    column, any other column as it is. *)
Definition label_encoded (s : Series) : Series :=
  match dt s with
  | category cats _ =>
      mkSeries number (map (fun c => Num (inject_Z (code_of cats c))) (values s))
  | _ => s
  end.

(** An estimator that predicts one value per row. *)
Definition predicts_rows (model : Estimator) : Prop :=
  forall f Z, length (predict model f Z) = nrows Z.


(** The names of a list are pairwise distinct. *)
Fixpoint distinct (names : list string) : bool :=
  match names with
  | [] => true
  | n :: rest => negb (existsb (String.eqb n) rest) && distinct rest
  end.

(** * Example data *)

(** Three houses; the third has neither a garage year nor a building year. *)
Definition garage_frame : DataFrame :=
  mkFrame [1%Z; 2%Z; 3%Z]
    [("Exterior2nd", mkSeries object [Str "Brk Cmn"; Str "VinylSd"; NaN]);
     ("YearBuilt", mkSeries number [Num (2006 # 1); Num (1999 # 1); NaN]);
     ("GarageYrBlt", mkSeries number [Num (2207 # 1); Num (2001 # 1); NaN])].


(** A raw table of three houses with every listed feature, the columns
    [clean] reads, the porch areas and the target.  The second house lacks
    most values. *)
Definition text_column (name : string) : string * Series :=
  (name, mkSeries object [Str "TA"; NaN; Str "Gd"]).

Definition text_features : list string :=
  filter (fun n => negb (String.eqb n "MSSubClass"))
         (features_nom
          ++ filter (fun n => negb (existsb (String.eqb n)
                                            ("OverallQual" :: "OverallCond" :: features_nom)))
                    (map fst ordered_levels)).

Definition houses : DataFrame :=
  mkFrame [1%Z; 2%Z; 3%Z]
    (map text_column text_features
     ++ [("MSSubClass", mkSeries number [Num (60 # 1); Num (20 # 1); Num (60 # 1)]);
         ("OverallQual", mkSeries number [Num (7 # 1); Num (10 # 1); Num (5 # 1)]);
         ("OverallCond", mkSeries number [Num (5 # 1); Num (8 # 1); Num (5 # 1)]);
         ("LotFrontage", mkSeries number [Num (65 # 1); NaN; Num (68 # 1)]);
         ("YearBuilt", mkSeries number [Num (2003 # 1); Num (1976 # 1); Num (2001 # 1)]);
         ("GarageYrBlt", mkSeries number [Num (2003 # 1); NaN; Num (2207 # 1)]);
         ("WoodDeckSF", mkSeries number [Num 0; Num (298 # 1); Num 0]);
         ("OpenPorchSF", mkSeries number [Num (61 # 1); Num 0; Num (42 # 1)]);
         ("EnclosedPorch", mkSeries number [Num 0; Num 0; Num 0]);
         ("3SsnPorch", mkSeries number [Num 0; NaN; Num 0]);
         ("ScreenPorch", mkSeries number [Num 0; Num 0; Num (12 # 1)]);
         ("SalePrice", mkSeries number [Num (208500 # 1); Num (181500 # 1);
                                        Num (223500 # 1)])]).

(** The same table with a free-text column that no list names. *)
Definition houses_with_remarks : DataFrame :=
  mkFrame (index houses)
    (columns houses ++ [("Remarks", mkSeries object [Str "new roof"; NaN; NaN])]).

(** A frame with one column of each dtype. *)
Definition mixed_frame : DataFrame :=
  mkFrame [1%Z; 2%Z]
    [("LotFrontage", mkSeries number [NaN; Num (80 # 1)]);
     ("Alley", mkSeries (category [Str "Grvl"; Str "Pave"; Str "None"] false)
                        [Str "Grvl"; NaN]);
     ("Remarks", mkSeries object [NaN; Str "corner lot"])].

(** Two more houses, without the target: a test split. *)
Definition test_houses : DataFrame :=
  mkFrame [4%Z; 5%Z]
    (map (fun c => (fst c, mkSeries (dt (snd c)) (firstn 2 (values (snd c)))))
         (removelast (columns houses))).

(** Five houses, one per fold, with their building class and price. *)
Definition five_houses : DataFrame :=
  mkFrame [1%Z; 2%Z; 3%Z; 4%Z; 5%Z]
    [("MSSubClass", mkSeries number [Num (60 # 1); Num (20 # 1); Num (60 # 1);
                                     Num (20 # 1); Num (60 # 1)]);
     ("LotArea", mkSeries number [Num (8450 # 1); Num (9600 # 1); Num (11250 # 1);
                                  Num (9550 # 1); Num (14260 # 1)])].

Definition five_prices : Series :=
  mkSeries number [Num (100 # 1); Num (200 # 1); Num (300 # 1); Num (400 # 1);
                   Num (500 # 1)].

(** The same prices but for the first house. *)
Definition other_prices : Series :=
  mkSeries number [Num (900 # 1); Num (200 # 1); Num (300 # 1); Num (400 # 1);
                   Num (500 # 1)].

(** A model that predicts the mean of the targets it was fitted on. *)
Definition mean_model : Estimator :=
  mkEstimator R (fun _ y => Rmean y) (fun fitted_mean Z => repeat fitted_mean (nrows Z)).

(** A heap with a frame at 0 and a target series at 1. *)
Definition heap_of (X : DataFrame) (y : Series) : heap :=
  fun ref => match ref with
             | O => Some (PyFrame X)
             | S O => Some (PySeries y)
             | _ => None
             end.


(** * Further definitions *)

(** The spellings [clean] corrects in [Exterior2nd]. *)
Definition exterior_typos : list cell :=
  [Str "Brk Cmn"; Str "Wd Shng"; Str "CmentBd"].

(** The column names [clean] reads, writes, renames or renames to. *)
Definition clean_names : list string :=
  ["Exterior2nd"; "GarageYrBlt"; "1stFlrSF"; "2ndFlrSF"; "3SsnPorch";
   "FirstFlrSF"; "SecondFlrSF"; "Threeseasonporch"].

(** The renaming [clean] applies. *)
Definition clean_renaming : list (string * string) :=
  [("1stFlrSF", "FirstFlrSF"); ("2ndFlrSF", "SecondFlrSF");
   ("3SsnPorch", "Threeseasonporch")].

(** The corrections [clean] makes in [Exterior2nd]. *)
Definition exterior_corrections : list (cell * cell) :=
  [(Str "Brk Cmn", Str "BrkComm"); (Str "Wd Shng", Str "Wd Sdng");
   (Str "CmentBd", Str "CemntBd")].

(** No cell of the column is a string. *)
Definition no_str (s : Series) : bool := forallb (fun c => negb (is_str c)) (values s).

(** Every feature [encode] converts. *)
Definition listed_features : list string := features_nom ++ map fst ordered_levels.

(** Every cell of a categorical column is missing or one of its categories;
    any other column passes. *)
Definition in_categories (s : Series) : bool :=
  match dt s with
  | category cats _ => forallb (fun c => isna c || isin c cats) (values s)
  | _ => true
  end.

(** ** [label_encode]

    [X = df.copy()] makes a new object; [new] is where it is put, a place the
    heap does not use yet. *)
Definition copy_frame (df new : nat) : py nat :=
  d <~ read_frame df ;;
  _ <~ write_frame new d ;;
  py_ret new.

Definition label_encode (df new : nat) : py nat :=
  X <~ copy_frame df new ;;
  d <~ read_frame X ;;
  _ <~ py_for (label_column X) (select_dtypes is_category d) ;;
  py_ret X.

(** The porch-area columns under the names the CSV files give them. *)
Definition raw_porch_columns : list string :=
  ["WoodDeckSF"; "OpenPorchSF"; "EnclosedPorch"; "3SsnPorch"; "ScreenPorch"].

(** The number of the columns [names] of [df] that are positive at row [i]. *)
Definition count_positive (df : DataFrame) (names : list string) (i : nat) : nat :=
  length (filter (fun name => match lookup name (columns df) with
                              | Some s => positive (at_row s i)
                              | None => false
                              end) names).

(** An encoder whose [transform] returns the rows under the labels it was
    given them. *)
Definition keeps_index (E : Encoder) : Prop :=
  forall f Z T, transform E f Z = Ok T -> index T = index Z.

(** [[name + "_encoded" for name in cols]] *)
Definition encoded_names (cols : list string) : list string :=
  map (fun name => (name ++ "_encoded")%string) cols.

(** Two more houses whose first row label, 3, is also a label of [houses]. *)
Definition shared_label_houses : DataFrame :=
  mkFrame [3%Z; 4%Z] (columns test_houses).

(** * Properties *)

(** ** The error monad and frames *)

#[local] Arguments String.eqb : simpl never.
#[local] Arguments Qle_bool : simpl never.
#[local] Arguments Qeq_bool : simpl never.

Lemma bind_Ok {A B : Type} (c : result A) (k : A -> result B) (b : B) :
  bind c k = Ok b -> exists a, c = Ok a /\ k a = Ok b.
Proof.
  destruct c as [a|e]; simpl; intro H; [exists a; auto | discriminate].
Qed.

Ltac bind_inv H :=
  let a := fresh "x" in
  let Ha := fresh "E" in
  apply bind_Ok in H; destruct H as [a [Ha H]].

Tactic Notation "bind_as" hyp(H) ident(a) ident(Ha) :=
  apply bind_Ok in H; destruct H as [a [Ha H]].

Lemma lookup_assign_same name s cols :
  lookup name (assign name s cols) = Some s.
Proof.
  induction cols as [|[n old] rest IH]; simpl.
  - now rewrite String.eqb_refl.
  - destruct (String.eqb n name) eqn:E; simpl; rewrite E; auto.
Qed.

Lemma lookup_assign_other name name' s cols :
  name <> name' -> lookup name' (assign name s cols) = lookup name' cols.
Proof.
  intro Hne.
  induction cols as [|[n old] rest IH]; simpl.
  - destruct (String.eqb name name') eqn:E; auto.
    apply String.eqb_eq in E; contradiction.
  - destruct (String.eqb n name) eqn:E; simpl.
    + apply String.eqb_eq in E; subst n.
      destruct (String.eqb name name') eqn:E'; auto.
      apply String.eqb_eq in E'; contradiction.
    + destruct (String.eqb n name'); auto.
Qed.

Lemma getitem_Ok df name s :
  getitem df name = Ok s <-> lookup name (columns df) = Some s.
Proof.
  unfold getitem; destruct (lookup name (columns df)); split; intro H;
    inversion H; auto.
Qed.

Lemma getitem_setitem_same df name s :
  getitem (setitem df name s) name = Ok s.
Proof.
  unfold getitem, setitem; simpl; now rewrite lookup_assign_same.
Qed.

Lemma getitem_setitem_other df name name' s :
  name <> name' -> getitem (setitem df name s) name' = getitem df name'.
Proof.
  intro H; unfold getitem, setitem; simpl; now rewrite lookup_assign_other.
Qed.

Lemma lookup_rename_fixed mapping name cols :
  renamed mapping name = name ->
  (forall n, renamed mapping n = name -> n = name) ->
  lookup name (map (fun c => (renamed mapping (fst c), snd c)) cols) = lookup name cols.
Proof.
  intros Hfix Hinj.
  induction cols as [|[n s] rest IH]; simpl; auto.
  destruct (String.eqb n name) eqn:E.
  - apply String.eqb_eq in E; subst n. rewrite Hfix, String.eqb_refl; auto.
  - destruct (String.eqb (renamed mapping n) name) eqn:E'; auto.
    apply String.eqb_eq in E'. apply Hinj in E'. subst n.
    rewrite String.eqb_refl in E; discriminate.
Qed.

Lemma index_setitem df name s : index (setitem df name s) = index df.
Proof. reflexivity. Qed.

(** ** [clean] *)

Lemma map_result_le_cell bound vs :
  forallb (fun c => negb (is_str c)) vs = true ->
  map_result (le_cell bound) vs = Ok (map (at_most bound) vs).
Proof.
  induction vs as [|c rest IH]; simpl; auto.
  intro H; apply andb_prop in H; destruct H as [Hc Hrest].
  rewrite (IH Hrest).
  destruct c; simpl in *; auto; discriminate.
Qed.

Lemma where_cells_length vs cond other :
  length cond = length vs -> length other = length vs ->
  length (where_cells vs cond other) = length vs.
Proof.
  revert cond other; induction vs as [|v rest IH]; intros [|c cond] [|o other];
    simpl; intros; try discriminate; auto.
Qed.

Lemma where_cells_nth vs other i (f : cell -> bool) :
  length other = length vs -> (i < length vs)%nat ->
  nth i (where_cells vs (map f vs) other) NaN
  = if f (nth i vs NaN) then nth i vs NaN else nth i other NaN.
Proof.
  revert other i; induction vs as [|v rest IH]; intros [|o other] i; simpl;
    intros Hlen Hi; try discriminate; try lia.
  destruct i as [|i]; auto.
  apply IH; lia.
Qed.

Lemma clean_keeps name :
  (name =? "1stFlrSF") = false -> (name =? "2ndFlrSF") = false ->
  (name =? "3SsnPorch") = false ->
  (name =? "FirstFlrSF") = false -> (name =? "SecondFlrSF") = false ->
  (name =? "Threeseasonporch") = false ->
  forall cols,
    lookup name (map (fun c => (renamed [("1stFlrSF", "FirstFlrSF");
                                        ("2ndFlrSF", "SecondFlrSF");
                                        ("3SsnPorch", "Threeseasonporch")] (fst c), snd c))
                     cols)
    = lookup name cols.
Proof.
  intros H1 H2 H3 H4 H5 H6 cols.
  apply lookup_rename_fixed.
  - simpl. rewrite String.eqb_sym, H1, String.eqb_sym, H2, String.eqb_sym, H3; auto.
  - intros n Hn. simpl in Hn.
    destruct (String.eqb "1stFlrSF" n);
      [subst name; discriminate|].
    destruct (String.eqb "2ndFlrSF" n);
      [subst name; discriminate|].
    destruct (String.eqb "3SsnPorch" n);
      [subst name; discriminate|]; auto.
Qed.

(** C8 (as amended).  On a frame that has the columns [Exterior2nd],
    [GarageYrBlt] and [YearBuilt], with [GarageYrBlt] comparable with a number,
    [clean] returns, and in the frame it returns every [GarageYrBlt] entry for
    which [GarageYrBlt <= 2010] does not hold, a missing entry included, is the
    [YearBuilt] value of its row, the other entries being kept.  Hence every
    entry is at most 2010 or equal to its row's [YearBuilt], and an entry is
    missing only where the row's [YearBuilt] is missing. *)
Theorem clean_GarageYrBlt df g yb :
  has_column df "Exterior2nd" = true ->
  getitem df "GarageYrBlt" = Ok g ->
  getitem df "YearBuilt" = Ok yb ->
  comparable g = true ->
  length (values yb) = length (values g) ->
  exists df' g',
    clean df = Ok df' /\
    getitem df' "GarageYrBlt" = Ok g' /\
    getitem df' "YearBuilt" = Ok yb /\
    length (values g') = length (values g) /\
    forall i, (i < length (values g))%nat ->
      at_row g' i = (if at_most (2010 # 1) (at_row g i) then at_row g i else at_row yb i) /\
      (at_most (2010 # 1) (at_row g' i) = true \/ at_row g' i = at_row yb i) /\
      (isna (at_row g' i) = true -> isna (at_row yb i) = true).
Proof.
  intros Hext Hg Hyb Hcmp Hlen.
  unfold has_column in Hext.
  destruct (lookup "Exterior2nd" (columns df)) as [ext|] eqn:Eext; [|discriminate].
  apply andb_prop in Hcmp; destruct Hcmp as [Hcat Hstr].
  apply negb_true_iff in Hcat.
  set (g' := where_ g (map (at_most (2010 # 1)) (values g)) yb).
  unfold clean.
  assert (Hget : getitem df "Exterior2nd" = Ok ext) by now apply getitem_Ok.
  rewrite Hget; simpl bind.
  rewrite !getitem_setitem_other by discriminate.
  rewrite Hg; simpl bind.
  unfold le_scalar; rewrite Hcat, (map_result_le_cell _ _ Hstr); simpl bind.
  rewrite Hyb; simpl bind.
  eexists; exists g'; split; [reflexivity|].
  assert (Hat : forall i, (i < length (values g))%nat ->
            at_row g' i
            = (if at_most (2010 # 1) (at_row g i) then at_row g i else at_row yb i)).
  { intros i Hi. unfold at_row, g', where_; simpl values.
    now apply where_cells_nth. }
  repeat split.
  - unfold getitem, rename; simpl columns.
    rewrite clean_keeps by reflexivity.
    now rewrite lookup_assign_same.
  - unfold getitem, rename; simpl columns.
    rewrite clean_keeps by reflexivity.
    rewrite !lookup_assign_other by discriminate.
    now apply getitem_Ok in Hyb; rewrite Hyb.
  - unfold g', where_; simpl values.
    apply where_cells_length; [apply length_map | assumption].
  - now apply Hat.
  - rewrite (Hat i H).
    destruct (at_most (2010 # 1) (at_row g i)) eqn:E; auto.
  - rewrite (Hat i H).
    destruct (at_most (2010 # 1) (at_row g i)) eqn:E; auto.
    destruct (at_row g i); simpl in *; discriminate.
Qed.

Lemma clean_GarageYrBlt_witness :
  exists df' g',
    clean garage_frame = Ok df' /\
    getitem df' "GarageYrBlt" = Ok g' /\
    values g' = [Num (2006 # 1); Num (2001 # 1); NaN].
Proof.
  destruct (clean_GarageYrBlt garage_frame
              (mkSeries number [Num (2207 # 1); Num (2001 # 1); NaN])
              (mkSeries number [Num (2006 # 1); Num (1999 # 1); NaN]))
    as [df' [g' [Hc [Hg _]]]]; try reflexivity.
  exists df', g'.
  split; [exact Hc|]. split; [exact Hg|].
  vm_compute in Hc. inversion Hc; subst df'.
  vm_compute in Hg. inversion Hg; subst g'. reflexivity.
Defined.

(** C8 as the claim states it fails: a row whose [GarageYrBlt] and
    [YearBuilt] are both missing keeps a missing [GarageYrBlt]. *)
Lemma clean_GarageYrBlt_missing :
  ~ (forall df df' g',
       clean df = Ok df' -> getitem df' "GarageYrBlt" = Ok g' ->
       no_missing g' = true).
Proof.
  intro H.
  specialize (H garage_frame _ _ eq_refl eq_refl).
  vm_compute in H. discriminate.
Qed.

(** ** Loops *)

Lemma for_each_inv {A S : Type} (body : S -> A -> result S) (P : S -> Prop) xs :
  (forall s a s', In a xs -> P s -> body s a = Ok s' -> P s') ->
  forall s s', P s -> for_each body xs s = Ok s' -> P s'.
Proof.
  induction xs as [|x rest IH]; simpl; intros Hstep s s' Hs Hrun.
  - now inversion Hrun; subst.
  - bind_inv Hrun.
    apply (IH (fun s a s' Ha => Hstep s a s' (or_intror Ha)) x0 s'); auto.
    apply (Hstep s x x0); auto.
Qed.

(** What the body establishes for its own element, and no later iteration
    undoes, holds for every element at the end. *)
Lemma for_each_post {A S : Type} (body : S -> A -> result S) (Q : A -> S -> Prop) xs :
  (forall s a s', In a xs -> body s a = Ok s' -> Q a s') ->
  (forall s a s' b, In a xs -> In b xs -> body s a = Ok s' -> Q b s -> Q b s') ->
  forall s s', for_each body xs s = Ok s' -> forall a, In a xs -> Q a s'.
Proof.
  induction xs as [|x rest IH]; simpl; intros Hown Hkeep s s' Hrun a Ha.
  - contradiction.
  - bind_inv Hrun.
    destruct Ha as [Ha|Hin].
    + subst a.
      apply (for_each_inv body (Q x) rest
               (fun s a s' Ha Hq Hb => Hkeep s a s' x (or_intror Ha) (or_introl eq_refl) Hb Hq)
               x0 s'); auto.
      apply (Hown s x x0); auto.
    + apply (IH (fun s a s' Ha => Hown s a s' (or_intror Ha))
                (fun s a s' b Ha Hb => Hkeep s a s' b (or_intror Ha) (or_intror Hb))
                x0 s' Hrun a Hin).
Qed.

(** ** [encode] *)

Lemma isin_app_last c cats : cell_eqb c c = true -> isin c (cats ++ [c]) = true.
Proof.
  intros H. unfold isin. rewrite existsb_app. simpl. rewrite H.
  now rewrite orb_true_r.
Qed.

Lemma encode_nominal_other df name df' other :
  encode_nominal df name = Ok df' -> name <> other ->
  getitem df' other = getitem df other.
Proof.
  unfold encode_nominal; intros H Hne.
  bind_inv H. cbv zeta in H. rewrite getitem_setitem_same in H. simpl bind in H.
  bind_inv H.
  destruct (negb (isin (Str "None") x0)).
  - bind_inv H. inversion H; subst df'.
    now rewrite !getitem_setitem_other.
  - inversion H; subst df'. now rewrite getitem_setitem_other.
Qed.

Lemma encode_nominal_own df name df' :
  encode_nominal df name = Ok df' -> categorical_with_None df' name.
Proof.
  unfold encode_nominal; intro H.
  bind_inv H. cbv zeta in H. rewrite getitem_setitem_same in H. simpl bind in H.
  bind_inv H.
  destruct (isin (Str "None") x0) eqn:EN; simpl negb in H; cbv iota in H.
  - inversion H; subst df'.
    unfold cat_categories in E0.
    destruct (dt (astype_category x)) as [| |cats ord] eqn:Edt; try discriminate.
    inversion E0; subst x0.
    exists (astype_category x), cats, ord.
    now rewrite getitem_setitem_same.
  - bind_inv H. inversion H; subst df'.
    unfold add_categories in E1.
    destruct (dt (astype_category x)) as [| |cats ord] eqn:Edt; try discriminate.
    destruct (isin (Str "None") cats); try discriminate.
    inversion E1; subst x1.
    exists (mkSeries (category (cats ++ [Str "None"]) ord) (values (astype_category x))),
      (cats ++ [Str "None"]), ord.
    rewrite getitem_setitem_same. repeat split.
    now apply isin_app_last.
Qed.

Lemma encode_nominal_keep df name df' other :
  encode_nominal df name = Ok df' ->
  categorical_with_None df other -> categorical_with_None df' other.
Proof.
  intros H Hother.
  destruct (string_dec name other) as [->|Hne].
  - now apply (encode_nominal_own df).
  - destruct Hother as [s [cats [ord [Hs Hd]]]].
    exists s, cats, ord. now rewrite (encode_nominal_other df name).
Qed.

Lemma ordered_levels_keys a b :
  In a ordered_levels -> In b ordered_levels -> fst a = fst b -> a = b.
Proof.
  intros Ha Hb.
  assert (Hnodup : NoDup (map fst ordered_levels))
    by (vm_compute; repeat (constructor; [simpl; intuition discriminate|]); constructor).
  revert Ha Hb Hnodup. generalize ordered_levels as l.
  induction l as [|x l IH]; simpl; intros Ha Hb Hnd; [contradiction|].
  inversion Hnd as [|? ? Hx Hl]; subst.
  destruct Ha as [->|Ha], Hb as [->|Hb]; auto; intro Heq.
  - exfalso; apply Hx. rewrite Heq. now apply in_map.
  - exfalso; apply Hx. rewrite <- Heq. now apply in_map.
Qed.

Lemma ordered_levels_None item :
  In item ordered_levels ->
  exists base, In (fst item, base) ordered_levels_base /\ snd item = Str "None" :: base.
Proof.
  unfold ordered_levels. intro H. apply in_map_iff in H.
  destruct H as [[k v] [<- Hin]]. exists v; auto.
Qed.

Lemma encode_ordinal_own df item df' :
  encode_ordinal df item = Ok df' -> has_levels df' item.
Proof.
  unfold encode_ordinal; intro H. bind_inv H. inversion H; subst df'.
  exists (astype_levels (snd item) x). now rewrite getitem_setitem_same.
Qed.

Lemma encode_ordinal_other df item df' other :
  encode_ordinal df item = Ok df' -> fst item <> other ->
  getitem df' other = getitem df other.
Proof.
  unfold encode_ordinal; intros H Hne. bind_inv H. inversion H; subst df'.
  now rewrite getitem_setitem_other.
Qed.

Lemma has_levels_None df item :
  In item ordered_levels -> has_levels df item -> categorical_with_None df (fst item).
Proof.
  intros Hin [s [Hs Hd]].
  destruct (ordered_levels_None item Hin) as [base [_ Hbase]].
  exists s, (snd item), true. repeat split; auto.
  rewrite Hbase. reflexivity.
Qed.

Lemma encode_ordinal_keep_None df item df' other :
  In item ordered_levels ->
  encode_ordinal df item = Ok df' ->
  categorical_with_None df other -> categorical_with_None df' other.
Proof.
  intros Hin H Hother.
  destruct (string_dec (fst item) other) as [<-|Hne].
  - apply has_levels_None; auto. now apply (encode_ordinal_own df).
  - destruct Hother as [s [cats [ord [Hs Hd]]]].
    exists s, cats, ord. now rewrite (encode_ordinal_other df item).
Qed.

(** Every listed feature is categorical with a ["None"] category after
    [encode], and every ordinal feature has its levels. *)
Lemma encode_categorical df df' :
  encode df = Ok df' ->
  (forall name, In name features_nom \/ In name (map fst ordered_levels) ->
                categorical_with_None df' name) /\
  (forall item, In item ordered_levels -> has_levels df' item).
Proof.
  unfold encode; intro H. bind_inv H.
  assert (Hord : forall item, In item ordered_levels -> has_levels df' item).
  { apply (for_each_post encode_ordinal (fun item df => has_levels df item)
             ordered_levels) with (s := x); auto.
    - intros s a s' _. apply encode_ordinal_own.
    - intros s a s' b Ha Hb Hrun [c [Hc Hd]].
      destruct (string_dec (fst a) (fst b)) as [Heq|Hne].
      + rewrite <- (ordered_levels_keys a b Ha Hb Heq).
        now apply (encode_ordinal_own s).
      + exists c. now rewrite (encode_ordinal_other s a). }
  split; auto.
  intros name [Hnom|Hlev].
  - apply (for_each_inv encode_ordinal (fun df => categorical_with_None df name)
             ordered_levels) with (s := x); auto.
    + intros s a s' Ha Hs Hrun. now apply (encode_ordinal_keep_None s a).
    + apply (for_each_post encode_nominal (fun n df => categorical_with_None df n)
               features_nom) with (s := df); auto.
      * intros s a s' _. apply encode_nominal_own.
      * intros s a s' b _ _. apply encode_nominal_keep.
  - apply in_map_iff in Hlev. destruct Hlev as [item [<- Hitem]].
    apply has_levels_None; auto.
Qed.

(** ** [impute] *)

Lemma lookup_In name s cols : lookup name cols = Some s -> In (name, s) cols.
Proof.
  induction cols as [|[n c] rest IH]; simpl; [discriminate|].
  destruct (String.eqb n name) eqn:E.
  - apply String.eqb_eq in E; subst n. intro H; inversion H; auto.
  - auto.
Qed.

Lemma lookup_NoDup name s cols :
  NoDup (map fst cols) -> In (name, s) cols -> lookup name cols = Some s.
Proof.
  induction cols as [|[n c] rest IH]; simpl; [contradiction|].
  intros Hnd Hin. inversion Hnd as [|? ? Hn Hrest]; subst.
  destruct Hin as [Heq|Hin].
  - inversion Heq; subst. now rewrite String.eqb_refl.
  - destruct (String.eqb n name) eqn:E; auto.
    apply String.eqb_eq in E; subst n.
    exfalso; apply Hn. change name with (fst (name, s)). now apply in_map.
Qed.

Lemma assign_names name s s0 cols :
  lookup name cols = Some s0 -> map fst (assign name s cols) = map fst cols.
Proof.
  induction cols as [|[n c] rest IH]; simpl; [discriminate|].
  destruct (String.eqb n name) eqn:E; simpl; auto.
  intro H. now rewrite IH.
Qed.

Lemma select_dtypes_In kind df name s :
  getitem df name = Ok s -> kind (dt s) = true -> In name (select_dtypes kind df).
Proof.
  intros Hs Hk. apply getitem_Ok, lookup_In in Hs.
  unfold select_dtypes. change name with (fst (name, s)).
  apply in_map, filter_In. auto.
Qed.

Lemma select_dtypes_NoDup kind df name :
  NoDup (map fst (columns df)) -> In name (select_dtypes kind df) ->
  exists s, getitem df name = Ok s /\ kind (dt s) = true.
Proof.
  intros Hnd Hin. unfold select_dtypes in Hin.
  apply in_map_iff in Hin. destruct Hin as [[n s] [Hn Hin]]. simpl in Hn; subst n.
  apply filter_In in Hin. destruct Hin as [Hin Hk].
  exists s. split; auto. apply getitem_Ok. now apply lookup_NoDup.
Qed.

Lemma fill_fill v c : isna v = false -> fill v (fill v c) = fill v c.
Proof.
  intro Hv. unfold fill. destruct (isna c) eqn:E; [now rewrite Hv | now rewrite E].
Qed.

Lemma fill_not_missing v c : isna v = false -> isna (fill v c) = false.
Proof.
  intro Hv. unfold fill. destruct (isna c) eqn:E; auto.
Qed.

Lemma filled_no_missing v s : isna v = false -> no_missing (filled v s) = true.
Proof.
  intro Hv. unfold no_missing, filled; simpl values.
  apply forallb_forall. intros c Hc. apply in_map_iff in Hc.
  destruct Hc as [c0 [<- _]]. now rewrite fill_not_missing.
Qed.

Lemma no_missing_existsb vs :
  forallb (fun c => negb (isna c)) vs = true -> existsb isna vs = false.
Proof.
  induction vs as [|c rest IH]; simpl; auto.
  intro H. apply andb_prop in H. destruct H as [Hc Hrest].
  apply negb_true_iff in Hc. now rewrite Hc, IH.
Qed.

Lemma fill_no_missing v vs :
  forallb (fun c => negb (isna c)) vs = true -> map (fill v) vs = vs.
Proof.
  induction vs as [|c rest IH]; simpl; auto.
  intro H. apply andb_prop in H. destruct H as [Hc Hrest].
  apply negb_true_iff in Hc. rewrite IH by assumption.
  unfold fill. now rewrite Hc.
Qed.

Lemma filled_idem v s : isna v = false -> filled v (filled v s) = filled v s.
Proof.
  intro Hv.
  pose proof (filled_no_missing v s Hv) as Hnm.
  unfold no_missing in Hnm.
  unfold filled at 1. rewrite (fill_no_missing v _ Hnm).
  rewrite (no_missing_existsb _ Hnm).
  unfold filled; simpl dt; simpl values.
  destruct (dt s); auto.
  rewrite orb_true_r.
  destruct (is_num_cell v || negb (existsb isna (values s))); auto.
Qed.

Lemma filled_unchanged v s :
  dt s = number -> no_missing s = true -> filled v s = s.
Proof.
  intros Hd Hnm. unfold no_missing in Hnm.
  unfold filled. rewrite Hd, (fill_no_missing v _ Hnm), (no_missing_existsb _ Hnm).
  rewrite orb_true_r. destruct s; simpl in *; now subst.
Qed.

Lemma fillna_filled s v s' : fillna s v = Ok s' -> s' = filled v s.
Proof.
  unfold fillna, filled.
  destruct (dt s) as [| |cats ord] eqn:Ed.
  - intro H; now inversion H.
  - intro H; now inversion H.
  - destruct (isin v cats); intro H; [now inversion H | discriminate].
Qed.

Lemma fill_column_Ok v df name df' :
  fill_column v df name = Ok df' ->
  exists s, getitem df name = Ok s /\ fillna s v = Ok (filled v s) /\
            df' = setitem df name (filled v s).
Proof.
  unfold fill_column. intro H. bind_inv H. bind_inv H. inversion H; subst df'.
  exists x. pose proof (fillna_filled _ _ _ E0); subst x0. auto.
Qed.

(** The loop [for name in names: df[name] = df[name].fillna(v)], column by
    column. *)
Lemma fill_loop v names :
  isna v = false ->
  forall df df', for_each (fill_column v) names df = Ok df' ->
  forall n,
    (In n names ->
     exists s, getitem df n = Ok s /\ fillna s v = Ok (filled v s) /\
               getitem df' n = Ok (filled v s)) /\
    (~ In n names -> getitem df' n = getitem df n).
Proof.
  intro Hv. induction names as [|x rest IH]; simpl; intros df df' Hrun n.
  - inversion Hrun; subst. split; [contradiction | reflexivity].
  - bind_inv Hrun.
    destruct (fill_column_Ok _ _ _ _ E) as [s0 [Hs0 [Hfill ->]]].
    destruct (IH _ _ Hrun n) as [Hin Hout].
    destruct (string_dec x n) as [->|Hne].
    + split; [intros _ | intros Hnot; exfalso; apply Hnot; now left].
      exists s0. repeat split; auto.
      destruct (in_dec string_dec n rest) as [Hrest|Hrest].
      * destruct (Hin Hrest) as [s [Hs [_ Hs']]].
        rewrite getitem_setitem_same in Hs. inversion Hs; subst s.
        now rewrite filled_idem in Hs'.
      * rewrite (Hout Hrest). apply getitem_setitem_same.
    + rewrite getitem_setitem_other in Hin, Hout by assumption.
      split.
      * intros [Heq|Hrest]; [contradiction|]. now apply Hin.
      * intros Hnot. apply Hout. intro; apply Hnot; now right.
Qed.

Lemma fill_loop_names v names df df' :
  for_each (fill_column v) names df = Ok df' ->
  map fst (columns df') = map fst (columns df).
Proof.
  apply (for_each_inv (fill_column v)
           (fun d => map fst (columns d) = map fst (columns df)) names); auto.
  intros s a s' _ Hs Hrun.
  destruct (fill_column_Ok _ _ _ _ Hrun) as [s0 [Hs0 [_ ->]]].
  apply getitem_Ok in Hs0. simpl columns.
  now rewrite (assign_names _ _ _ _ Hs0).
Qed.

(** After [impute], a column that is numeric or categorical has no missing
    value. *)
Lemma impute_no_missing df df' :
  impute df = Ok df' ->
  forall name s', getitem df' name = Ok s' -> dt s' <> object -> no_missing s' = true.
Proof.
  unfold impute. intros H name s' Hs' Hd. bind_inv H.
  destruct (fill_loop (Num 0) _ eq_refl _ _ E name) as [In1 Out1].
  destruct (fill_loop (Str "None") _ eq_refl _ _ H name) as [In2 Out2].
  destruct (in_dec string_dec name (select_dtypes is_category x)) as [H2|H2].
  - destruct (In2 H2) as [s [_ [_ Hs]]]. rewrite Hs in Hs'. inversion Hs'.
    now apply filled_no_missing.
  - rewrite (Out2 H2) in Hs'.
    destruct (dt s') as [| |cats ord] eqn:Ed; [|contradiction|].
    + destruct (in_dec string_dec name (select_dtypes is_number df)) as [H1|H1].
      * destruct (In1 H1) as [s [_ [_ Hs]]]. rewrite Hs in Hs'. inversion Hs'.
        now apply filled_no_missing.
      * rewrite (Out1 H1) in Hs'. exfalso; apply H1.
        apply (select_dtypes_In _ _ _ s'); auto. now rewrite Ed.
    + exfalso; apply H2. apply (select_dtypes_In _ _ _ s'); auto. now rewrite Ed.
Qed.

Lemma for_each_total {A S : Type} (body : S -> A -> result S) (P : S -> Prop) xs :
  (forall s a, In a xs -> P s -> exists s', body s a = Ok s' /\ P s') ->
  forall s, P s -> exists s', for_each body xs s = Ok s' /\ P s'.
Proof.
  induction xs as [|x rest IH]; simpl; intros Hstep s Hs.
  - exists s; auto.
  - destruct (Hstep s x (or_introl eq_refl) Hs) as [s1 [E1 Hs1]].
    rewrite E1; simpl bind.
    apply IH; [intros s0 a Ha; apply Hstep; now right | assumption].
Qed.

Lemma filled_zero s : dt s = number -> filled (Num 0) s = imputed s.
Proof.
  intro Hd. unfold filled, imputed. now rewrite Hd.
Qed.

Lemma filled_None s cats ord :
  dt s = category cats ord -> filled (Str "None") s = imputed s.
Proof.
  intro Hd. unfold filled, imputed. now rewrite Hd.
Qed.

Lemma fillna_number s v : dt s = number -> fillna s v = Ok (filled v s).
Proof.
  intro Hd. unfold fillna, filled. now rewrite Hd.
Qed.

Lemma fillna_category s v cats ord :
  dt s = category cats ord -> isin v cats = true -> fillna s v = Ok (filled v s).
Proof.
  intros Hd Hin. unfold fillna, filled. now rewrite Hd, Hin.
Qed.

(** On a frame whose column names are distinct and whose categorical columns
    all have a ["None"] category, [impute] returns, and each column of the
    frame it returns is the imputed column. *)
Lemma impute_columns df :
  NoDup (map fst (columns df)) -> categories_have_None df ->
  exists df', impute df = Ok df' /\
    forall name s, getitem df name = Ok s -> getitem df' name = Ok (imputed s).
Proof.
  intros Hnd Hcat. unfold impute.
  (* the first loop *)
  destruct (for_each_total (fill_column (Num 0))
              (fun d => forall x, In x (select_dtypes is_number df) ->
                                  exists s, getitem d x = Ok s /\ dt s = number)
              (select_dtypes is_number df)) with (s := df) as [df1 [E1 _]].
  { intros d a Ha Hd. destruct (Hd a Ha) as [s [Hs Hnum]].
    exists (setitem d a (filled (Num 0) s)). split.
    - unfold fill_column. rewrite Hs; simpl bind.
      now rewrite (fillna_number _ _ Hnum).
    - intros x Hx. destruct (string_dec a x) as [->|Hne].
      + exists (filled (Num 0) s). rewrite getitem_setitem_same. split; auto.
        unfold filled. now rewrite Hnum.
      + rewrite getitem_setitem_other by assumption. now apply Hd. }
  { intros x Hx. destruct (select_dtypes_NoDup _ _ _ Hnd Hx) as [s [Hs Hk]].
    exists s. split; auto. destruct (dt s); simpl in Hk; auto; discriminate. }
  rewrite E1; simpl bind.
  pose proof (fill_loop (Num 0) _ eq_refl _ _ E1) as Loop1.
  assert (Hnd1 : NoDup (map fst (columns df1)))
    by now rewrite (fill_loop_names _ _ _ _ E1).
  assert (Hnot1 : forall name s, getitem df name = Ok s -> dt s <> number ->
                                 getitem df1 name = Ok s).
  { intros name s Hs Hd. destruct (Loop1 name) as [_ Out1].
    rewrite Out1; auto. intro Hin.
    destruct (select_dtypes_NoDup _ _ _ Hnd Hin) as [s2 [Hs2 Hk]].
    rewrite Hs in Hs2. inversion Hs2; subst s2.
    destruct (dt s); simpl in Hk; try discriminate. now apply Hd. }
  assert (Hsame : forall name s1 cats ord,
            getitem df1 name = Ok s1 -> dt s1 = category cats ord ->
            getitem df name = Ok s1).
  { intros name s1 cats ord Hs1 Hd.
    destruct (Loop1 name) as [In1 Out1].
    destruct (in_dec string_dec name (select_dtypes is_number df)) as [Hin|Hin].
    - exfalso. destruct (In1 Hin) as [s [Hs [_ Hs']]].
      destruct (select_dtypes_NoDup _ _ _ Hnd Hin) as [s2 [Hs2 Hk]].
      rewrite Hs in Hs2. inversion Hs2; subst s2.
      rewrite Hs1 in Hs'. inversion Hs'; subst s1.
      unfold filled in Hd; simpl dt in Hd.
      destruct (dt s); simpl in Hk; discriminate.
    - now rewrite <- (Out1 Hin). }
  (* the second loop *)
  destruct (for_each_total (fill_column (Str "None"))
              (fun d => forall x, In x (select_dtypes is_category df1) ->
                                  exists s cats ord, getitem d x = Ok s /\
                                    dt s = category cats ord /\
                                    isin (Str "None") cats = true)
              (select_dtypes is_category df1)) with (s := df1) as [df2 [E2 _]].
  { intros d a Ha Hd. destruct (Hd a Ha) as [s [cats [ord [Hs [Hc Hin]]]]].
    exists (setitem d a (filled (Str "None") s)). split.
    - unfold fill_column. rewrite Hs; simpl bind.
      now rewrite (fillna_category _ _ _ _ Hc Hin).
    - intros x Hx. destruct (string_dec a x) as [->|Hne].
      + exists (filled (Str "None") s), cats, ord.
        rewrite getitem_setitem_same. repeat split; auto.
        unfold filled. now rewrite Hc.
      + rewrite getitem_setitem_other by assumption. now apply Hd. }
  { intros x Hx. destruct (select_dtypes_NoDup _ _ _ Hnd1 Hx) as [s [Hs Hk]].
    destruct (dt s) as [| |cats ord] eqn:Ed; simpl in Hk; try discriminate.
    exists s, cats, ord. repeat split; auto.
    apply (Hcat x s cats ord); auto.
    apply lookup_In, getitem_Ok. now apply (Hsame x s cats ord). }
  exists df2. split; auto.
  pose proof (fill_loop (Str "None") _ eq_refl _ _ E2) as Loop2.
  intros name s Hs.
  destruct (Loop1 name) as [In1 Out1].
  destruct (Loop2 name) as [In2 Out2].
  destruct (dt s) as [| |cats ord] eqn:Ed.
  - destruct (In1 (select_dtypes_In is_number df name s Hs
                     ltac:(now rewrite Ed))) as [s0 [Hs0 [_ Hs1]]].
    rewrite Hs in Hs0. inversion Hs0; subst s0.
    rewrite (filled_zero _ Ed) in Hs1.
    destruct (in_dec string_dec name (select_dtypes is_category df1)) as [Hin|Hin].
    + destruct (In2 Hin) as [s1 [Hs1' [_ Hs2]]].
      rewrite Hs1 in Hs1'. inversion Hs1'; subst s1.
      rewrite Hs2. f_equal. apply filled_unchanged.
      * unfold imputed. now rewrite Ed.
      * rewrite <- (filled_zero _ Ed). now apply filled_no_missing.
    + now rewrite (Out2 Hin).
  - assert (H1 : getitem df1 name = Ok s)
      by (apply Hnot1; auto; rewrite Ed; discriminate).
    rewrite Out2.
    + rewrite H1. unfold imputed. now rewrite Ed.
    + intro Hin. destruct (select_dtypes_NoDup _ _ _ Hnd1 Hin) as [s2 [Hs2 Hk]].
      rewrite H1 in Hs2. inversion Hs2; subst s2.
      rewrite Ed in Hk. discriminate.
  - assert (H1 : getitem df1 name = Ok s)
      by (apply Hnot1; auto; rewrite Ed; discriminate).
    destruct (In2 (select_dtypes_In is_category df1 name s H1
                     ltac:(now rewrite Ed))) as [s1 [Hs1 [_ Hs2]]].
    rewrite H1 in Hs1. inversion Hs1; subst s1.
    now rewrite Hs2, (filled_None _ _ _ Ed).
Qed.

(** ** [encode] returns when the listed columns are there *)

Lemma has_column_getitem df name :
  has_column df name = true <-> exists s, getitem df name = Ok s.
Proof.
  unfold has_column, getitem.
  destruct (lookup name (columns df)) as [s|]; split; intro H; auto.
  - now exists s.
  - discriminate.
  - destruct H; discriminate.
Qed.

Lemma cat_categories_astype s : exists cats, cat_categories (astype_category s) = Ok cats.
Proof.
  unfold astype_category, cat_categories.
  destruct (dt s) as [| |cats ord] eqn:Ed; simpl dt; try rewrite Ed; eauto.
Qed.

Lemma encode_nominal_total df name :
  has_column df name = true -> exists df', encode_nominal df name = Ok df'.
Proof.
  intro H. apply has_column_getitem in H. destruct H as [s Hs].
  unfold encode_nominal. rewrite Hs; simpl bind; cbv zeta.
  rewrite getitem_setitem_same; simpl bind.
  destruct (cat_categories_astype s) as [cats Hc]. rewrite Hc; simpl bind.
  destruct (isin (Str "None") cats) eqn:EN; simpl negb; cbv iota; eauto.
  unfold add_categories. unfold cat_categories in Hc.
  destruct (dt (astype_category s)); try discriminate.
  inversion Hc; subst. rewrite EN. simpl bind. eauto.
Qed.

Lemma encode_nominal_columns df name df' other :
  encode_nominal df name = Ok df' ->
  has_column df other = true -> has_column df' other = true.
Proof.
  intros H Hother. apply has_column_getitem.
  destruct (string_dec name other) as [->|Hne].
  - destruct (encode_nominal_own _ _ _ H) as [s [_ [_ [Hs _]]]]. eauto.
  - rewrite (encode_nominal_other _ _ _ _ H Hne). now apply has_column_getitem.
Qed.

Lemma encode_ordinal_total df item :
  has_column df (fst item) = true -> exists df', encode_ordinal df item = Ok df'.
Proof.
  intro H. apply has_column_getitem in H. destruct H as [s Hs].
  unfold encode_ordinal. rewrite Hs; simpl bind. eauto.
Qed.

Lemma encode_ordinal_columns df item df' other :
  encode_ordinal df item = Ok df' ->
  has_column df other = true -> has_column df' other = true.
Proof.
  intros H Hother. apply has_column_getitem.
  destruct (string_dec (fst item) other) as [<-|Hne].
  - destruct (encode_ordinal_own _ _ _ H) as [s [Hs _]]. eauto.
  - rewrite (encode_ordinal_other _ _ _ _ H Hne). now apply has_column_getitem.
Qed.

Lemma encode_total df :
  (forall name, listed name -> has_column df name = true) ->
  exists df', encode df = Ok df'.
Proof.
  intro Hcols. unfold encode.
  destruct (for_each_total encode_nominal
              (fun d => forall name, listed name -> has_column d name = true)
              features_nom) with (s := df) as [df1 [E1 H1]]; auto.
  { intros d a Ha Hd.
    destruct (encode_nominal_total d a) as [d' Hd']; [apply Hd; now left|].
    exists d'. split; auto. intros name Hname.
    apply (encode_nominal_columns d a); auto. }
  rewrite E1; simpl bind.
  destruct (for_each_total encode_ordinal
              (fun d => forall name, listed name -> has_column d name = true)
              ordered_levels) with (s := df1) as [df2 [E2 H2]]; auto.
  { intros d a Ha Hd.
    destruct (encode_ordinal_total d a) as [d' Hd'].
    { apply Hd. right. now apply in_map. }
    exists d'. split; auto. intros name Hname.
    apply (encode_ordinal_columns d a); auto. }
  eauto.
Qed.

(** [impute] leaves the dtype of a categorical column as it is. *)
Lemma fill_loop_category v names df df' name s :
  for_each (fill_column v) names df = Ok df' ->
  getitem df name = Ok s -> is_category (dt s) = true ->
  exists s', getitem df' name = Ok s' /\ dt s' = dt s.
Proof.
  intros Hrun Hs Hcat.
  apply (for_each_inv (fill_column v)
           (fun d => exists s', getitem d name = Ok s' /\ dt s' = dt s) names)
    with (s := df); eauto.
  intros d a d' _ [s1 [Hs1 Hd1]] Hstep.
  destruct (fill_column_Ok _ _ _ _ Hstep) as [s0 [Hs0 [_ ->]]].
  destruct (string_dec a name) as [->|Hne].
  - rewrite getitem_setitem_same. eexists; split; eauto.
    rewrite Hs1 in Hs0. inversion Hs0; subst s0.
    unfold filled; simpl dt. rewrite Hd1.
    destruct (dt s); simpl in Hcat; auto; discriminate.
  - rewrite getitem_setitem_other by assumption. eauto.
Qed.

Lemma impute_keeps_category df df' name s :
  impute df = Ok df' ->
  getitem df name = Ok s -> is_category (dt s) = true ->
  exists s', getitem df' name = Ok s' /\ dt s' = dt s.
Proof.
  unfold impute. intros H Hs Hcat. bind_inv H.
  destruct (fill_loop_category _ _ _ _ _ _ E Hs Hcat) as [s1 [Hs1 Hd1]].
  destruct (fill_loop_category _ _ _ _ _ _ H Hs1) as [s2 [Hs2 Hd2]].
  - now rewrite Hd1.
  - exists s2. split; auto. congruence.
Qed.



(** ** The preprocessing leaves no missing value in a numeric or categorical column *)

Lemma listed_listedb name : listed name <-> listedb name = true.
Proof.
  unfold listed, listedb. rewrite existsb_exists. split.
  - intros H. exists name. rewrite String.eqb_refl. split; auto.
    apply in_or_app. exact H.
  - intros [x [Hin Hx]]. apply String.eqb_eq in Hx; subst x.
    now apply in_app_or in Hin.
Qed.

Lemma renamed_listed name :
  listed name ->
  renamed [("1stFlrSF", "FirstFlrSF"); ("2ndFlrSF", "SecondFlrSF");
           ("3SsnPorch", "Threeseasonporch")] name = name.
Proof.
  intro H. apply listed_listedb in H. simpl renamed.
  destruct (String.eqb "1stFlrSF" name) eqn:E1;
    [apply String.eqb_eq in E1; subst name; vm_compute in H; discriminate|].
  destruct (String.eqb "2ndFlrSF" name) eqn:E2;
    [apply String.eqb_eq in E2; subst name; vm_compute in H; discriminate|].
  destruct (String.eqb "3SsnPorch" name) eqn:E3;
    [apply String.eqb_eq in E3; subst name; vm_compute in H; discriminate|].
  reflexivity.
Qed.

Lemma Forall_assign (P : string * Series -> Prop) name s cols :
  Forall P cols -> P (name, s) -> Forall P (assign name s cols).
Proof.
  intros Hall Hnew.
  induction cols as [|[n old] rest IH]; simpl.
  - constructor; auto.
  - inversion Hall; subst.
    destruct (String.eqb n name) eqn:E.
    + apply String.eqb_eq in E; subst n. constructor; auto.
    + constructor; auto.
Qed.

Lemma numeric_column df name s :
  Forall numeric_or_listed (columns df) ->
  getitem df name = Ok s -> listedb name = false -> dt s = number.
Proof.
  intros Hall Hs Hl. apply getitem_Ok, lookup_In in Hs.
  rewrite Forall_forall in Hall. destruct (Hall _ Hs) as [Hn|Hn]; simpl in Hn.
  - destruct (dt s); simpl in Hn; auto; discriminate.
  - apply listed_listedb in Hn. congruence.
Qed.

Lemma clean_numeric_or_listed df df' :
  Forall numeric_or_listed (columns df) -> clean df = Ok df' ->
  Forall numeric_or_listed (columns df').
Proof.
  intros Hall H. unfold clean in H.
  bind_inv H. cbv zeta in H. bind_inv H. bind_inv H. bind_inv H.
  inversion H; subst df'. clear H.
  rewrite getitem_setitem_other in E0, E2 by discriminate.
  unfold rename; simpl columns.
  apply Forall_map.
  assert (Hcols : Forall numeric_or_listed
            (assign "GarageYrBlt" (where_ x0 x1 x2)
               (assign "Exterior2nd"
                  (replace [(Str "Brk Cmn", Str "BrkComm");
                            (Str "Wd Shng", Str "Wd Sdng");
                            (Str "CmentBd", Str "CemntBd")] x) (columns df)))).
  { apply Forall_assign; [apply Forall_assign; auto|].
    - right. apply listed_listedb. reflexivity.
    - left. change (is_number (common_dtype (dt x0) (dt x2)) = true).
      rewrite (numeric_column df _ _ Hall E0 eq_refl).
      now rewrite (numeric_column df _ _ Hall E2 eq_refl). }
  eapply Forall_impl; [|exact Hcols].
  intros [n s] [Hn|Hn].
  - left. exact Hn.
  - right.
    change (listed (renamed [("1stFlrSF", "FirstFlrSF"); ("2ndFlrSF", "SecondFlrSF");
                             ("3SsnPorch", "Threeseasonporch")] n)).
    now rewrite (renamed_listed n Hn).
Qed.

Lemma encode_other df df' name :
  encode df = Ok df' -> ~ listed name -> getitem df' name = getitem df name.
Proof.
  unfold encode. intros H Hname. bind_inv H.
  transitivity (getitem x name).
  - apply (for_each_inv encode_ordinal
             (fun d => getitem d name = getitem x name) ordered_levels)
      with (s := x); auto.
    intros d a d' Ha Hd Hstep. rewrite <- Hd.
    apply (encode_ordinal_other d a); auto.
    intros <-. apply Hname. right. now apply in_map.
  - apply (for_each_inv encode_nominal
             (fun d => getitem d name = getitem df name) features_nom)
      with (s := df); auto.
    intros d a d' Ha Hd Hstep. rewrite <- Hd.
    apply (encode_nominal_other d a); auto.
    intros <-. apply Hname. now left.
Qed.

Lemma impute_not_object df df' :
  impute df = Ok df' ->
  (forall name s, getitem df name = Ok s -> dt s <> object) ->
  forall name s', getitem df' name = Ok s' -> dt s' <> object.
Proof.
  unfold impute. intros H Hdf name s' Hs'. bind_inv H.
  destruct (fill_loop (Num 0) _ eq_refl _ _ E name) as [In1 Out1].
  destruct (fill_loop (Str "None") _ eq_refl _ _ H name) as [In2 Out2].
  assert (H1 : exists s1, getitem x name = Ok s1 /\ dt s1 <> object /\
                          (dt s1 = number -> no_missing s1 = true)).
  { assert (Hs1 : exists s1, getitem x name = Ok s1).
    { destruct (in_dec string_dec name (select_dtypes is_category x)) as [H2|H2].
      - destruct (In2 H2) as [s1 [Hs1 _]]. eauto.
      - rewrite (Out2 H2) in Hs'. eauto. }
    destruct Hs1 as [s1 Hs1]. exists s1. split; auto.
    destruct (in_dec string_dec name (select_dtypes is_number df)) as [H1|H1].
    - destruct (In1 H1) as [s [Hs [_ Hs1']]].
      rewrite Hs1 in Hs1'. inversion Hs1'; subst s1. split.
      + pose proof (Hdf _ _ Hs) as Hd. unfold filled; simpl dt.
        destruct (dt s); auto; discriminate.
      + intros _. now apply filled_no_missing.
    - rewrite (Out1 H1) in Hs1. split; [now apply (Hdf name)|].
      intro Hd. exfalso; apply H1.
      apply (select_dtypes_In _ _ _ s1); auto. now rewrite Hd. }
  destruct H1 as [s1 [Hs1 [Hd1 Hnm1]]].
  destruct (in_dec string_dec name (select_dtypes is_category x)) as [H2|H2].
  - destruct (In2 H2) as [s [Hs [_ Hs2]]].
    rewrite Hs1 in Hs. inversion Hs; subst s.
    rewrite Hs2 in Hs'. inversion Hs'; subst s'.
    unfold filled; simpl dt.
    destruct (dt s1) eqn:Ed; auto.
    rewrite (no_missing_existsb _ (Hnm1 eq_refl)). simpl. discriminate.
  - rewrite (Out2 H2), Hs1 in Hs'. now inversion Hs'; subst s'.
Qed.

(** C3 (as amended).  [impute] replaces every missing value of a numeric
    column with 0 and every missing value of a categorical column with
    ["None"], and leaves the other cells and the other columns as they are:
    it returns on every frame whose column names are distinct and whose
    categorical columns have a ["None"] category.  After the preprocessing no
    missing value remains in a numeric or categorical column; none remains in
    any column when every column of the input is numeric or listed in
    [features_nom] or [ordered_levels]. *)
Theorem impute_fills_missing :
  (forall df,
      NoDup (map fst (columns df)) -> categories_have_None df ->
      exists df', impute df = Ok df' /\
        forall name s, getitem df name = Ok s -> getitem df' name = Ok (imputed s)) /\
  (forall df df',
      preprocessing df = Ok df' ->
      forall name s, getitem df' name = Ok s -> dt s <> object -> no_missing s = true) /\
  (forall df df',
      Forall numeric_or_listed (columns df) -> preprocessing df = Ok df' ->
      forall name s, getitem df' name = Ok s -> no_missing s = true).
Proof.
  split; [exact impute_columns|]. split.
  - unfold preprocessing. intros df df' H. bind_inv H. bind_inv H.
    now apply (impute_no_missing x0).
  - unfold preprocessing. intros df df' Hall H name s Hs.
    bind_inv H. bind_inv H.
    pose proof (clean_numeric_or_listed _ _ Hall E) as Hclean.
    destruct (encode_categorical _ _ E0) as [Hnone _].
    apply (impute_no_missing x0 df' H name s Hs).
    apply (impute_not_object x0 df' H) with (name := name); auto.
    intros n c Hc.
    destruct (listedb n) eqn:El.
    + apply listed_listedb in El.
      destruct (Hnone n El) as [c0 [cats [ord [Hc0 [Hd _]]]]].
      rewrite Hc in Hc0. inversion Hc0; subst c0. rewrite Hd. discriminate.
    + rewrite (encode_other x x0 n E0) in Hc.
      * rewrite (numeric_column x n c Hclean Hc El). discriminate.
      * intro Hl. apply listed_listedb in Hl. congruence.
Qed.

Lemma impute_fills_missing_witness :
  (exists df', impute mixed_frame = Ok df' /\
     getitem df' "LotFrontage" = Ok (mkSeries number [Num 0; Num (80 # 1)]) /\
     getitem df' "Alley"
     = Ok (mkSeries (category [Str "Grvl"; Str "Pave"; Str "None"] false)
                    [Str "Grvl"; Str "None"]) /\
     getitem df' "Remarks" = Ok (mkSeries object [NaN; Str "corner lot"])) /\
  (exists df', preprocessing houses = Ok df' /\
     forall name s, getitem df' name = Ok s -> no_missing s = true).
Proof.
  destruct impute_fills_missing as [Himpute [_ Hall]].
  split.
  - destruct (Himpute mixed_frame) as [df' [Hrun Hcols]].
    + repeat (constructor; [simpl; intuition discriminate|]). constructor.
    + intros name s cats ord Hin Hd. simpl in Hin.
      destruct Hin as [Hin|[Hin|[Hin|[]]]]; inversion Hin; subst; simpl in Hd;
        try discriminate.
      inversion Hd; subst. reflexivity.
    + exists df'. split; [exact Hrun|].
      repeat split.
      * exact (Hcols "LotFrontage" (mkSeries number [NaN; Num (80 # 1)]) eq_refl).
      * exact (Hcols "Alley"
                 (mkSeries (category [Str "Grvl"; Str "Pave"; Str "None"] false)
                           [Str "Grvl"; NaN]) eq_refl).
      * exact (Hcols "Remarks" (mkSeries object [NaN; Str "corner lot"]) eq_refl).
  - destruct (preprocessing houses) as [df'|e] eqn:E; [|vm_compute in E; discriminate].
    exists df'. split; [reflexivity|].
    apply (Hall houses df'); [|exact E].
    apply Forall_forall. intros [n s] Hin.
    destruct (is_number (dt s)) eqn:En; [now left|].
    right. apply listed_listedb.
    simpl in Hin.
    repeat (destruct Hin as [Hin|Hin];
            [inversion Hin; subst; try reflexivity; simpl in En; discriminate|]).
    contradiction.
Defined.

(** C3 as the claim states it fails: a column that is neither numeric nor
    listed keeps its missing values through the preprocessing. *)
Lemma preprocessing_leaves_missing :
  ~ (forall df df',
       preprocessing df = Ok df' ->
       forall name s, getitem df' name = Ok s -> no_missing s = true).
Proof.
  intro H.
  destruct (preprocessing houses_with_remarks) as [df'|e] eqn:E;
    [|vm_compute in E; discriminate].
  specialize (H houses_with_remarks df' E "Remarks"
                (mkSeries object [Str "new roof"; NaN; NaN])).
  assert (Hget : getitem df' "Remarks" = Ok (mkSeries object [Str "new roof"; NaN; NaN])).
  { vm_compute in E. inversion E; subst df'. reflexivity. }
  specialize (H Hget). vm_compute in H. discriminate.
Qed.

Lemma encode_names df df' :
  encode df = Ok df' -> map fst (columns df') = map fst (columns df).
Proof.
  unfold encode. intro H. bind_as H d1 H1.
  transitivity (map fst (columns d1)).
  - apply (for_each_inv encode_ordinal
             (fun d => map fst (columns d) = map fst (columns d1)) ordered_levels)
      with (s := d1); auto.
    intros d a d' _ Hd Hstep. unfold encode_ordinal in Hstep.
    bind_as Hstep s Hs. inversion Hstep; subst d'. simpl columns.
    apply getitem_Ok in Hs. now rewrite (assign_names _ _ _ _ Hs).
  - apply (for_each_inv encode_nominal
             (fun d => map fst (columns d) = map fst (columns df)) features_nom)
      with (s := df); auto.
    intros d a d' _ Hd Hstep. unfold encode_nominal in Hstep.
    bind_as Hstep s Hs. cbv zeta in Hstep.
    bind_as Hstep s1 Hs1. bind_as Hstep cats Hcats.
    apply getitem_Ok in Hs.
    assert (H1' : map fst (columns (setitem d a (astype_category s)))
                  = map fst (columns df)).
    { simpl columns. now rewrite (assign_names _ _ _ _ Hs). }
    destruct (negb (isin (Str "None") cats)).
    + bind_as Hstep s2 Hs2. bind_as Hstep s3 Hs3. inversion Hstep; subst d'.
      simpl columns. simpl columns in H1'.
      now rewrite (assign_names _ _ _ _ (lookup_assign_same a (astype_category s) _)).
    + now inversion Hstep; subst d'.
Qed.

(** C7.  On a frame that has the listed columns, [encode] returns a frame in
    which every feature of [features_nom] or [ordered_levels] is categorical
    with ["None"] among its categories, and every ordinal feature is an ordered
    categorical whose categories are ["None"] followed by its levels.  [impute]
    leaves the dtype of each of these columns as [encode] set it; it returns
    when the column names of the frame are distinct and the columns that were
    categorical before [encode], if any, have a ["None"] category. *)
Theorem encode_dtypes df :
  (forall name, listed name -> has_column df name = true) ->
  exists df1,
    encode df = Ok df1 /\
    (forall name, listed name -> categorical_with_None df1 name) /\
    (forall name levels,
        In (name, levels) ordered_levels_base ->
        has_dtype df1 name (category (Str "None" :: levels) true)) /\
    (forall df2, impute df1 = Ok df2 ->
       forall name, listed name ->
       exists s1 s2, getitem df1 name = Ok s1 /\ getitem df2 name = Ok s2 /\
                     dt s2 = dt s1) /\
    (NoDup (map fst (columns df)) -> categories_have_None df ->
     exists df2, impute df1 = Ok df2).
Proof.
  intro Hcols.
  destruct (encode_total df Hcols) as [df1 Henc].
  destruct (encode_categorical df df1 Henc) as [Hnone Hlev].
  exists df1. repeat split; auto.
  - intros name levels Hin.
    destruct (Hlev (name, Str "None" :: levels)) as [s [Hs Hd]].
    { unfold ordered_levels.
      apply (in_map (fun kv => (fst kv, Str "None" :: snd kv)) _ _ Hin). }
    exists s. auto.
  - intros df2 Himp name Hname.
    destruct (Hnone name Hname) as [s1 [cats [ord [Hs1 [Hd1 _]]]]].
    destruct (impute_keeps_category df1 df2 name s1 Himp Hs1) as [s2 [Hs2 Hd2]].
    + now rewrite Hd1.
    + exists s1, s2. auto.
  - intros Hnd Hcat.
    assert (Hnd1 : NoDup (map fst (columns df1)))
      by now rewrite (encode_names _ _ Henc).
    destruct (impute_columns df1 Hnd1) as [df2 [Himp _]]; eauto.
    intros name s cats ord Hin Hd.
    apply (lookup_NoDup _ _ _ Hnd1) in Hin.
    destruct (listedb name) eqn:El.
    + apply listed_listedb in El.
      destruct (Hnone name El) as [s0 [cats0 [ord0 [Hs0 [Hd0 Hin0]]]]].
      apply getitem_Ok in Hs0. rewrite Hin in Hs0. inversion Hs0; subst s0.
      rewrite Hd in Hd0. now inversion Hd0; subst.
    + assert (Hs : getitem df1 name = Ok s) by now apply getitem_Ok.
      rewrite (encode_other df df1 name Henc) in Hs.
      * apply getitem_Ok, lookup_In in Hs. now apply (Hcat name s cats ord).
      * intro Hl. apply listed_listedb in Hl. congruence.
Qed.

Lemma distinct_NoDup names : distinct names = true -> NoDup names.
Proof.
  induction names as [|n rest IH]; simpl; intro H; constructor.
  - apply andb_prop in H. destruct H as [H _]. apply negb_true_iff in H.
    intro Hin.
    assert (existsb (String.eqb n) rest = true).
    { apply existsb_exists. exists n. split; auto. apply String.eqb_refl. }
    congruence.
  - apply andb_prop in H. now apply IH.
Qed.

Lemma encode_dtypes_witness :
  exists df1 df2,
    encode houses = Ok df1 /\
    categorical_with_None df1 "MSZoning" /\
    has_dtype df1 "ExterQual" (category (Str "None" :: five_levels) true) /\
    impute df1 = Ok df2 /\
    has_dtype df2 "ExterQual" (category (Str "None" :: five_levels) true).
Proof.
  destruct (encode_dtypes houses) as [df1 [Henc [Hnone [Hlev [Hkeep Himp]]]]].
  - intros name [H|H]; simpl in H;
      repeat (destruct H as [<-|H]; [reflexivity|]); contradiction.
  - destruct Himp as [df2 Hdf2].
    + apply distinct_NoDup. vm_compute. reflexivity.
    + intros name s cats ord Hin Hd. exfalso. simpl in Hin.
      repeat (destruct Hin as [Hin|Hin];
              [inversion Hin; subst; simpl in Hd; discriminate|]).
      contradiction.
    + assert (HEx : has_dtype df1 "ExterQual" (category (Str "None" :: five_levels) true))
        by (apply Hlev; simpl; tauto).
      exists df1, df2. repeat split; auto.
      * apply Hnone. left. simpl; tauto.
      * destruct (Hkeep df2 Hdf2 "ExterQual") as [s1 [s2 [Hs1 [Hs2 Hd]]]];
          [right; simpl; tauto|].
        destruct HEx as [s [Hs Hds]]. rewrite Hs in Hs1. inversion Hs1; subst s1.
        exists s2. split; auto. congruence.
Defined.

(** ** [counts] *)

Lemma positive_spec c : positive c = true <-> exists q, c = Num q /\ (0 < q)%Q.
Proof.
  destruct c as [|q|s]; simpl; split; try discriminate;
    try (intros [q0 [H _]]; discriminate).
  - intro H. exists q. split; auto.
    apply negb_true_iff in H. apply Qnot_le_lt. intro Hle.
    apply Qle_bool_iff in Hle. congruence.
  - intros [q0 [H Hlt]]. inversion H; subst q0.
    apply negb_true_iff. destruct (Qle_bool q 0) eqn:E; auto.
    apply Qle_bool_iff in E. exfalso. apply (Qlt_not_le _ _ Hlt E).
Qed.

Lemma map_result_gt_cell vs :
  forallb (fun c => negb (is_str c)) vs = true ->
  map_result (gt_cell 0) vs = Ok (map positive vs).
Proof.
  induction vs as [|c rest IH]; simpl; auto.
  intro H; apply andb_prop in H; destruct H as [Hc Hrest].
  rewrite (IH Hrest).
  destruct c; simpl in *; auto; discriminate.
Qed.

Lemma gt_scalar_comparable s :
  comparable s = true -> gt_scalar s 0 = Ok (map positive (values s)).
Proof.
  intro H. apply andb_prop in H. destruct H as [Hcat Hstr].
  apply negb_true_iff in Hcat. unfold gt_scalar. rewrite Hcat.
  now apply map_result_gt_cell.
Qed.

Lemma nth_positive vs i : nth i (map positive vs) false = positive (nth i vs NaN).
Proof.
  change false with (positive NaN). apply map_nth.
Qed.

(** Selecting columns and comparing them with zero, for any list of names. *)
Lemma select_gt_flags df names :
  (forall n, In n names -> exists s, getitem df n = Ok s /\ comparable s = true) ->
  exists cols flags,
    map_result (fun n => s <- getitem df n ;; Ok (n, s)) names = Ok cols /\
    map_result (fun c : string * Series => gt_scalar (snd c) 0) cols = Ok flags /\
    forall i,
      length (filter (fun col => nth i col false) flags)
      = length (filter (fun name => match lookup name (columns df) with
                                    | Some s => positive (at_row s i)
                                    | None => false
                                    end) names).
Proof.
  induction names as [|n rest IH]; intro H.
  - exists [], []. simpl. auto.
  - destruct (H n (or_introl eq_refl)) as [s [Hs Hcmp]].
    destruct IH as [cols [flags [Hsel [Hgt Hcount]]]].
    { intros m Hm. apply H. now right. }
    exists ((n, s) :: cols), (map positive (values s) :: flags).
    simpl map_result. rewrite Hs; simpl bind. rewrite Hsel; simpl bind.
    rewrite (gt_scalar_comparable _ Hcmp); simpl bind. rewrite Hgt; simpl bind.
    repeat split. intro i. simpl filter.
    apply getitem_Ok in Hs. rewrite Hs. rewrite nth_positive.
    unfold at_row. destruct (positive (nth i (values s) NaN)); simpl; now rewrite Hcount.
Qed.

(** C10.  On a frame whose five porch-area columns can be compared with a
    number, [counts] returns a frame with the single column [PorchTypes]: one
    value per row, equal to the number of the five columns [WoodDeckSF],
    [OpenPorchSF], [EnclosedPorch], [Threeseasonporch], [ScreenPorch] that are
    strictly greater than zero in that row, hence an integer between 0 and 5. *)
Theorem counts_PorchTypes df :
  (forall n, In n porch_columns -> exists s, getitem df n = Ok s /\ comparable s = true) ->
  exists X pt,
    counts df = Ok X /\
    columns X = [("PorchTypes", pt)] /\
    index X = index df /\
    length (values pt) = nrows df /\
    forall i, (i < nrows df)%nat ->
      at_row pt i = Num (inject_Z (Z.of_nat (porch_count df i))) /\
      (0 <= porch_count df i <= 5)%nat.
Proof.
  intro H.
  destruct (select_gt_flags df porch_columns H) as [cols [flags [Hsel [Hgt Hcount]]]].
  unfold counts, select_columns, frame_gt.
  rewrite Hsel; simpl bind. simpl columns. rewrite Hgt; simpl bind.
  eexists; eexists. split; [reflexivity|].
  unfold frame_of_column, sum_axis1; simpl.
  repeat split.
  - simpl values. unfold nrows; simpl index. now rewrite length_map, length_seq.
  - unfold at_row; simpl values. unfold nrows in *; simpl index.
    rewrite nth_indep with (d' := Num (inject_Z (Z.of_nat
              (length (filter (fun col => nth 0 col false) flags)))))
      by (rewrite length_map, length_seq; assumption).
    rewrite (map_nth (fun i => Num (inject_Z (Z.of_nat
               (length (filter (fun col => nth i col false) flags)))))
               (seq 0 (length (index df))) 0%nat i).
    rewrite seq_nth by assumption. simpl. now rewrite Hcount.
  - lia.
  - unfold porch_count. etransitivity; [apply filter_length_le|]. reflexivity.
Qed.

Lemma counts_PorchTypes_witness :
  exists df X pt,
    clean houses = Ok df /\ counts df = Ok X /\
    columns X = [("PorchTypes", pt)] /\
    values pt = [Num 1; Num 1; Num 2].
Proof.
  destruct (clean houses) as [df|e] eqn:E; [|vm_compute in E; discriminate].
  vm_compute in E. inversion E as [Hdf]. clear E.
  destruct (counts_PorchTypes df) as [X [pt [Hrun [Hcols _]]]].
  - subst df. intros n Hn. simpl in Hn.
    repeat (destruct Hn as [<-|Hn]; [eexists; split; reflexivity|]).
    contradiction.
  - exists df, X, pt. rewrite Hdf at 1. repeat split; auto.
    subst df. vm_compute in Hrun. inversion Hrun; subst X.
    simpl in Hcols. inversion Hcols. reflexivity.
Defined.

(** ** [load_data] *)

Lemma clean_index df df' : clean df = Ok df' -> index df' = index df.
Proof.
  unfold clean. intro H. bind_inv H. cbv zeta in H.
  bind_inv H. bind_inv H. bind_inv H. now inversion H.
Qed.

Lemma encode_index df df' : encode df = Ok df' -> index df' = index df.
Proof.
  unfold encode. intro H. bind_inv H.
  transitivity (index x).
  - apply (for_each_inv encode_ordinal (fun d => index d = index x) ordered_levels)
      with (s := x); auto.
    intros d a d' _ Hd Hstep. unfold encode_ordinal in Hstep. bind_inv Hstep.
    inversion Hstep; subst d'. exact Hd.
  - apply (for_each_inv encode_nominal (fun d => index d = index df) features_nom)
      with (s := df); auto.
    intros d a d' _ Hd Hstep. unfold encode_nominal in Hstep.
    bind_inv Hstep. cbv zeta in Hstep. bind_inv Hstep. bind_inv Hstep.
    destruct (negb (isin (Str "None") x2)).
    + bind_inv Hstep. bind_inv Hstep. inversion Hstep; subst d'. exact Hd.
    + inversion Hstep; subst d'. exact Hd.
Qed.

Lemma impute_index df df' : impute df = Ok df' -> index df' = index df.
Proof.
  unfold impute. intro H. bind_inv H.
  assert (Hloop : forall v names d d',
            for_each (fill_column v) names d = Ok d' -> index d' = index d).
  { intros v names d d' Hrun.
    apply (for_each_inv (fill_column v) (fun d0 => index d0 = index d) names)
      with (s := d); auto.
    intros d0 a d1 _ Hd Hstep.
    destruct (fill_column_Ok _ _ _ _ Hstep) as [s [_ [_ ->]]]. exact Hd. }
  rewrite (Hloop _ _ _ _ H). now apply (Hloop _ _ _ _ E).
Qed.

Lemma preprocessing_index df df' : preprocessing df = Ok df' -> index df' = index df.
Proof.
  unfold preprocessing. intro H. bind_inv H. bind_inv H.
  rewrite (impute_index _ _ H), (encode_index _ _ E0). now apply clean_index.
Qed.

Lemma filter_none {A : Type} (f : A -> bool) l :
  (forall x, In x l -> f x = false) -> filter f l = [].
Proof.
  induction l as [|x rest IH]; simpl; auto.
  intro H. rewrite (H x (or_introl eq_refl)). apply IH. intros y Hy. apply H. now right.
Qed.

Lemma filter_eqb_seq i a n :
  (a <= i < a + n)%nat -> filter (fun j => Nat.eqb j i) (seq a n) = [i].
Proof.
  revert a. induction n as [|n IH]; intros a Hi; [lia|].
  simpl. destruct (Nat.eqb a i) eqn:E.
  - apply Nat.eqb_eq in E; subst a. f_equal.
    apply filter_none. intros j Hj. apply in_seq in Hj.
    apply Nat.eqb_neq. lia.
  - apply Nat.eqb_neq in E. apply IH. lia.
Qed.

Lemma positions_NoDup idx i :
  NoDup idx -> (i < length idx)%nat -> positions idx (nth i idx 0%Z) = [i].
Proof.
  intros Hnd Hi. unfold positions.
  rewrite <- (filter_eqb_seq i 0 (length idx)) by lia.
  apply filter_ext_in. intros j Hj. apply in_seq in Hj.
  destruct (Nat.eqb j i) eqn:E.
  - apply Nat.eqb_eq in E; subst j. apply Z.eqb_refl.
  - apply Nat.eqb_neq in E. apply Z.eqb_neq. intro Heq. apply E.
    apply (proj1 (NoDup_nth idx 0%Z) Hnd); auto. lia.
Qed.

Lemma loc_rows idx a k :
  NoDup idx -> (a + k <= length idx)%nat ->
  map_result (fun l => match positions idx l with
                       | [] => Raise KeyError
                       | ps => Ok ps
                       end) (map (fun i => nth i idx 0%Z) (seq a k))
  = Ok (map (fun i => [i]) (seq a k)).
Proof.
  intros Hnd. revert a. induction k as [|k IH]; intros a Hk; simpl; auto.
  rewrite positions_NoDup by (auto; lia). simpl bind.
  rewrite IH by lia. reflexivity.
Qed.

Lemma concat_singletons (l : list nat) : List.concat (map (fun i => [i]) l) = l.
Proof.
  induction l; simpl; congruence.
Qed.

Lemma nth_seq_app_l {A : Type} (l1 l2 : list A) d :
  map (fun i => nth i (l1 ++ l2) d) (seq 0 (length l1)) = l1.
Proof.
  apply nth_ext with (d := d) (d' := d).
  - now rewrite length_map, length_seq.
  - intros n Hn. rewrite length_map, length_seq in Hn.
    rewrite nth_indep with (d' := nth 0 (l1 ++ l2) d)
      by now rewrite length_map, length_seq.
    rewrite (map_nth (fun i => nth i (l1 ++ l2) d)), seq_nth by assumption.
    now rewrite app_nth1.
Qed.

Lemma nth_seq_app_r {A : Type} (l1 l2 : list A) d :
  map (fun i => nth i (l1 ++ l2) d) (seq (length l1) (length l2)) = l2.
Proof.
  apply nth_ext with (d := d) (d' := d).
  - now rewrite length_map, length_seq.
  - intros n Hn. rewrite length_map, length_seq in Hn.
    rewrite nth_indep with (d' := nth 0 (l1 ++ l2) d)
      by now rewrite length_map, length_seq.
    rewrite (map_nth (fun i => nth i (l1 ++ l2) d)), seq_nth by assumption.
    rewrite app_nth2 by lia. f_equal. lia.
Qed.

Lemma map_result_Ok {A B : Type} (f : A -> result B) xs ys :
  map_result f xs = Ok ys -> Forall2 (fun x y => f x = Ok y) xs ys.
Proof.
  revert ys. induction xs as [|x rest IH]; simpl; intros ys H.
  - inversion H. constructor.
  - bind_inv H. bind_inv H. inversion H; subst. constructor; auto.
Qed.

Lemma take_rows_Ok {A : Type} (xs : list A) rows ys d :
  take_rows xs rows = Ok ys -> ys = map (fun i => nth i xs d) rows.
Proof.
  unfold take_rows. revert ys. induction rows as [|i rest IH]; simpl; intros ys H.
  - now inversion H.
  - bind_inv H. bind_inv H. inversion H; subst.
    rewrite <- (IH x0) by assumption. f_equal.
    destruct (nth_error xs i) eqn:En; [|discriminate].
    inversion E; subst. symmetry. now apply nth_error_nth.
Qed.

Lemma iloc_index df rows df' :
  iloc df rows = Ok df' -> index df' = map (fun i => nth i (index df) 0%Z) rows.
Proof.
  unfold iloc. intro H. bind_inv H. bind_inv H. inversion H; subst df'.
  simpl. now apply take_rows_Ok.
Qed.


(** ** [KFold] *)

Lemma iter_test_concat current sizes :
  List.concat (iter_test_indices current sizes) = seq current (list_sum sizes).
Proof.
  revert current. induction sizes as [|size rest IH]; intro current; simpl; auto.
  now rewrite IH, <- seq_app.
Qed.

Lemma fold_sizes_sum_from q r a m :
  list_sum (map (fun i => q + (if i <? r then 1 else 0))%nat (seq a m))
  = (m * q + (Nat.min (a + m) r - Nat.min a r))%nat.
Proof.
  revert a. induction m as [|m IH]; intro a; simpl.
  - lia.
  - rewrite IH. destruct (Nat.ltb_spec a r); lia.
Qed.

Lemma fold_sizes_sum n_splits n :
  (0 < n_splits)%nat -> list_sum (fold_sizes n_splits n) = n.
Proof.
  intro Hk. unfold fold_sizes. rewrite fold_sizes_sum_from.
  pose proof (Nat.mod_upper_bound n n_splits ltac:(lia)).
  pose proof (Nat.div_mod_eq n n_splits). simpl. nia.
Qed.

(** The folds, taken in order, are the rows in order: every row is held out
    by exactly one fold. *)
Lemma KFold_partition n_splits n splits :
  (0 < n_splits)%nat -> KFold_split n_splits n = Ok splits ->
  List.concat (map snd splits) = seq 0 n.
Proof.
  unfold KFold_split. intros Hk H.
  destruct (n <? n_splits)%nat; [discriminate|]. inversion H; subst splits.
  rewrite map_map; simpl. rewrite map_id.
  now rewrite iter_test_concat, fold_sizes_sum.
Qed.

Lemma KFold_train n_splits n splits train test :
  KFold_split n_splits n = Ok splits -> In (train, test) splits ->
  train = train_indices n test.
Proof.
  unfold KFold_split. intros H Hin.
  destruct (n <? n_splits)%nat; [discriminate|]. inversion H; subst splits.
  apply in_map_iff in Hin. destruct Hin as [t [Heq _]]. now inversion Heq.
Qed.

Lemma train_indices_outside n test i : In i (train_indices n test) -> ~ In i test.
Proof.
  unfold train_indices. intros H Hin. apply filter_In in H. destruct H as [_ H].
  apply negb_true_iff in H.
  assert (existsb (Nat.eqb i) test = true).
  { apply existsb_exists. exists i. split; auto. apply Nat.eqb_refl. }
  congruence.
Qed.

Lemma iter_test_length current sizes :
  length (iter_test_indices current sizes) = length sizes.
Proof.
  revert current. induction sizes as [|size rest IH]; intro current; simpl; auto.
Qed.

Lemma KFold_length n_splits n splits :
  KFold_split n_splits n = Ok splits -> length splits = n_splits.
Proof.
  unfold KFold_split. intro H.
  destruct (n <? n_splits)%nat; [discriminate|]. inversion H; subst splits.
  rewrite length_map, iter_test_length. unfold fold_sizes.
  now rewrite length_map, length_seq.
Qed.

(** ** Stacking frames that have the same columns *)

Lemma lookup_map_keyed (h : string -> Series) names name :
  In name names -> lookup name (map (fun n => (n, h n)) names) = Some (h name).
Proof.
  induction names as [|n rest IH]; simpl; [contradiction|].
  intros Hin. destruct (String.eqb n name) eqn:E.
  - apply String.eqb_eq in E. now subst n.
  - destruct Hin as [->|Hin]; [rewrite String.eqb_refl in E; discriminate|auto].
Qed.

Lemma keyed_of_map (h : string -> Series) names df :
  columns df = map (fun n => (n, h n)) names ->
  keyed_by names df /\ forall n, In n names -> column df n = h n.
Proof.
  intro H.
  assert (Hcol : forall n, In n names -> column df n = h n).
  { intros n Hn. unfold column. now rewrite H, lookup_map_keyed. }
  split; auto. unfold keyed_by. rewrite H at 1.
  apply map_ext_in. intros n Hn. now rewrite Hcol.
Qed.

Lemma keyed_row_cells names df i :
  keyed_by names df -> row_cells df i = map (fun n => at_row (column df n) i) names.
Proof.
  unfold keyed_by, row_cells. intro H. rewrite H at 1. now rewrite map_map.
Qed.

Lemma keyed_has_column names df n :
  keyed_by names df -> In n names -> lookup n (columns df) = Some (column df n).
Proof.
  unfold keyed_by. intros H Hn. rewrite H at 1. now apply lookup_map_keyed.
Qed.

Lemma concat2_keyed names a b :
  keyed_by names a -> keyed_by names b ->
  keyed_by names (concat2 a b) /\
  forall n, In n names ->
    values (column (concat2 a b) n) = values (column a n) ++ values (column b n).
Proof.
  intros Ha Hb.
  assert (Hnames : map fst (columns a) = names /\ map fst (columns b) = names).
  { unfold keyed_by in Ha, Hb. rewrite Ha, Hb, !map_map. simpl.
    now rewrite map_id. }
  destruct Hnames as [Hna Hnb].
  assert (Hcols : columns (concat2 a b)
                  = map (fun n => (n, snd (concat_column a b n))) names).
  { unfold concat2; simpl columns. rewrite Hna, Hnb.
    rewrite filter_none, app_nil_r.
    - apply map_ext. intro n. unfold concat_column.
      destruct (lookup n (columns a)), (lookup n (columns b)); reflexivity.
    - intros n Hn. unfold has_column. now rewrite (keyed_has_column names a n). }
  destruct (keyed_of_map _ _ _ Hcols) as [Hk Hc].
  split; auto. intros n Hn. rewrite (Hc n Hn). unfold concat_column.
  rewrite (keyed_has_column names a n), (keyed_has_column names b n); auto.
Qed.

Lemma stack_keyed names rest :
  forall b0, keyed_by names b0 -> Forall (keyed_by names) rest ->
  keyed_by names (fold_left concat2 rest b0) /\
  forall n, In n names ->
    values (column (fold_left concat2 rest b0) n)
    = List.concat (map (fun b => values (column b n)) (b0 :: rest)).
Proof.
  induction rest as [|b rest IH]; intros b0 H0 Hrest; simpl.
  - split; auto. intros n _. now rewrite app_nil_r.
  - inversion Hrest as [|? ? Hb Hrest']; subst.
    destruct (concat2_keyed names b0 b H0 Hb) as [Hk Hv].
    destruct (IH (concat2 b0 b) Hk Hrest') as [Hk' Hv'].
    split; auto. intros n Hn. rewrite (Hv' n Hn). simpl.
    now rewrite (Hv n Hn), app_assoc.
Qed.

Lemma select_columns_keyed df names B :
  select_columns df names = Ok B ->
  keyed_by names B /\ index B = index df /\
  forall n, In n names -> getitem df n = Ok (column B n).
Proof.
  unfold select_columns. intro H. bind_inv H. inversion H; subst B. clear H.
  assert (Hx : x = map (fun n => (n, column df n)) names /\
               forall n, In n names -> getitem df n = Ok (column df n)).
  { revert x E. induction names as [|n rest IH]; simpl; intros x E.
    - inversion E. split; [reflexivity|contradiction].
    - bind_as E c Hc. bind_as Hc s Hs. inversion Hc; subst c. clear Hc.
      bind_as E cs Hcs. inversion E; subst x. clear E.
      destruct (IH cs Hcs) as [Hx2 Hget].
      assert (Hn : column df n = s).
      { unfold column. apply getitem_Ok in Hs. now rewrite Hs. }
      split.
      + now rewrite Hn, Hx2.
      + intros m [<-|Hm]; [now rewrite Hn | now apply Hget]. }
  destruct Hx as [Hx Hget].
  destruct (keyed_of_map (column df) names (mkFrame (index df) x) Hx) as [Hk Hc].
  repeat split; auto. intros n Hn. rewrite (Hc n Hn). now apply Hget.
Qed.

Lemma nth_concat_same {A : Type} (ls : list (list A)) :
  forall ls' k seg i d,
    map (@List.length A) ls = map (@List.length A) ls' ->
    nth_error ls k = Some seg -> nth_error ls' k = Some seg ->
    (list_sum (firstn k (map (@List.length A) ls)) <= i
     < list_sum (firstn k (map (@List.length A) ls)) + length seg)%nat ->
    nth i (List.concat ls) d = nth i (List.concat ls') d.
Proof.
  induction ls as [|l ls IH]; intros ls' k seg i d Hlen Hk Hk' Hi.
  - destruct k; discriminate.
  - destruct ls' as [|l' ls']; [discriminate|].
    simpl in Hlen. inversion Hlen as [[Hl Hls]].
    destruct k as [|k]; simpl in *.
    + inversion Hk; inversion Hk'; subst.
      rewrite !app_nth1 by lia. reflexivity.
    + rewrite !app_nth2 by lia. rewrite <- Hl.
      apply (IH ls' k seg); auto. lia.
Qed.

(** ** Rows and positions *)

Lemma take_rows_ext {A : Type} (xs xs' : list A) rows :
  (forall i, In i rows -> nth_error xs' i = nth_error xs i) ->
  take_rows xs' rows = take_rows xs rows.
Proof.
  unfold take_rows. induction rows as [|i rest IH]; simpl; intro H; auto.
  rewrite (H i (or_introl eq_refl)), IH; auto.
Qed.

Lemma iloc_nrows df rows df' : iloc df rows = Ok df' -> nrows df' = length rows.
Proof.
  intro H. unfold nrows. rewrite (iloc_index _ _ _ H). apply length_map.
Qed.

Lemma take_rows_length {A : Type} (xs : list A) rows ys :
  take_rows xs rows = Ok ys -> length ys = length rows.
Proof.
  unfold take_rows. revert ys. induction rows as [|i rest IH]; simpl; intros ys H.
  - now inversion H.
  - bind_as H c Hc. bind_as H cs Hcs. inversion H; subst ys. simpl.
    now rewrite (IH cs).
Qed.

Lemma iloc_rectangular df rows df' : iloc df rows = Ok df' -> rectangular df'.
Proof.
  intro H. pose proof (iloc_nrows _ _ _ H) as Hn.
  unfold iloc in H. bind_as H idx Hidx. bind_as H cols Hcols.
  inversion H; subst df'. clear H.
  unfold rectangular. rewrite Hn. simpl columns.
  clear Hn Hidx. revert cols Hcols.
  induction (columns df) as [|c rest IH]; simpl; intros cols Hcols.
  - inversion Hcols. constructor.
  - bind_as Hcols c' Hc'. bind_as Hcols cs Hcs. inversion Hcols; subst cols.
    constructor; auto.
    bind_as Hc' s Hs. inversion Hc'; subst c'. simpl.
    unfold iloc_series in Hs. bind_as Hs vs Hvs. inversion Hs; subst s. simpl.
    now apply (take_rows_length (values (snd c))).
Qed.

Lemma iter_test_nth sizes :
  forall current k t,
    nth_error (iter_test_indices current sizes) k = Some t ->
    t = seq (current
             + list_sum (firstn k (map (@List.length nat)
                                       (iter_test_indices current sizes))))
            (length t).
Proof.
  induction sizes as [|size rest IH]; intros current k t H.
  - destruct k; discriminate.
  - destruct k as [|k]; simpl in H.
    + inversion H; subst t. simpl. now rewrite length_seq, Nat.add_0_r.
    + rewrite (IH _ _ _ H) at 1. simpl. rewrite length_seq. f_equal. lia.
Qed.

Lemma KFold_nth n_splits n splits k train test :
  KFold_split n_splits n = Ok splits ->
  nth_error splits k = Some (train, test) ->
  test = seq (list_sum (firstn k (map (fun sp => length (snd sp)) splits)))
             (length test).
Proof.
  unfold KFold_split. intros H Hk.
  destruct (n <? n_splits)%nat; [discriminate|]. inversion H; subst splits.
  rewrite nth_error_map in Hk.
  destruct (nth_error (iter_test_indices 0 (fold_sizes n_splits n)) k) as [t|] eqn:Et;
    [|discriminate].
  inversion Hk; subst. rewrite map_map; simpl.
  now apply (iter_test_nth _ 0%nat k).
Qed.

Lemma Forall2_nth_error {A B : Type} (R : A -> B -> Prop) xs ys k x :
  Forall2 R xs ys -> nth_error xs k = Some x ->
  exists y, nth_error ys k = Some y /\ R x y.
Proof.
  intro H. revert k. induction H as [|a b xs ys Hab Hrest IH]; intros k Hk.
  - destruct k; discriminate.
  - destruct k as [|k]; simpl in *.
    + inversion Hk; subst. eauto.
    + now apply IH.
Qed.

Lemma row_cells_add_suffix suffix df i :
  row_cells (add_suffix suffix df) i = row_cells df i.
Proof.
  unfold row_cells, add_suffix; simpl. now rewrite map_map.
Qed.

Lemma nth_concat_at {A : Type} (ls : list (list A)) :
  forall k seg i d,
    nth_error ls k = Some seg ->
    (list_sum (firstn k (map (@List.length A) ls)) <= i
     < list_sum (firstn k (map (@List.length A) ls)) + length seg)%nat ->
    nth i (List.concat ls) d
    = nth (i - list_sum (firstn k (map (@List.length A) ls))) seg d.
Proof.
  induction ls as [|l ls IH]; intros k seg i d Hk Hi.
  - destruct k; discriminate.
  - destruct k as [|k]; simpl in *.
    + inversion Hk; subst. rewrite app_nth1 by lia. f_equal. lia.
    + rewrite app_nth2 by lia. rewrite (IH k seg) by (auto; lia).
      f_equal. lia.
Qed.

Lemma rectangular_getitem df name s :
  rectangular df -> getitem df name = Ok s -> length (values s) = nrows df.
Proof.
  intros Hr Hs. apply getitem_Ok, lookup_In in Hs.
  unfold rectangular in Hr. rewrite Forall_forall in Hr. exact (Hr _ Hs).
Qed.

(** ** Cell by cell: adding frames and dividing them *)

Lemma add_cells_nth xs :
  forall ys zs, add_cells xs ys = Ok zs ->
  forall i, add_cell (nth i xs NaN) (nth i ys NaN) = Ok (nth i zs NaN).
Proof.
  induction xs as [|x xs IH]; intros [|y ys] zs H i; simpl in H; try discriminate.
  - inversion H; subst. destruct i; reflexivity.
  - bind_as H z Hz. bind_as H zs' Hzs. inversion H; subst zs.
    destruct i as [|i]; simpl; auto.
Qed.

Lemma add_columns_cells xs :
  forall ys zs, add_columns xs ys = Ok zs ->
  map fst zs = map fst xs /\
  forall p i,
    add_cell (cell_at (mkFrame [] xs) p i) (cell_at (mkFrame [] ys) p i)
    = Ok (cell_at (mkFrame [] zs) p i).
Proof.
  unfold cell_at; simpl columns.
  induction xs as [|[n s] xs IH]; intros [|[n' t] ys] zs H; simpl in H;
    try discriminate.
  - inversion H; subst. split; auto. intros [|p] i; reflexivity.
  - destruct (String.eqb n n'); [|discriminate].
    bind_as H vs Hvs. bind_as H rest Hrest. inversion H; subst zs. clear H.
    destruct (IH _ _ Hrest) as [Hnames Hcells].
    split; [simpl; now rewrite Hnames|].
    intros [|p] i; simpl.
    + unfold at_row; simpl. now apply add_cells_nth.
    + apply Hcells.
Qed.

Lemma frame_add_cells x y z :
  frame_add x y = Ok z ->
  map fst (columns z) = map fst (columns x) /\
  forall p i, add_cell (cell_at x p i) (cell_at y p i) = Ok (cell_at z p i).
Proof.
  unfold frame_add. destruct (index_eqb (index x) (index y)); [|discriminate].
  intro H. bind_as H cols Hcols. inversion H; subst z.
  exact (add_columns_cells _ _ _ Hcols).
Qed.

Lemma reduce_frame_cells rest :
  forall x0 total, for_each frame_add rest x0 = Ok total ->
  map fst (columns total) = map fst (columns x0) /\
  forall p i,
    for_each add_cell (map (fun T => cell_at T p i) rest) (cell_at x0 p i)
    = Ok (cell_at total p i).
Proof.
  induction rest as [|y rest IH]; simpl; intros x0 total H.
  - inversion H; subst. auto.
  - bind_as H z Hz. destruct (frame_add_cells _ _ _ Hz) as [Hn Hc].
    destruct (IH _ _ H) as [Hn' Hc'].
    split; [congruence|]. intros p i. rewrite (Hc p i); simpl bind. apply Hc'.
Qed.

Lemma div_cells_nth n vs :
  forall ws, map_result (div_cell n) vs = Ok ws ->
  forall i, div_cell n (nth i vs NaN) = Ok (nth i ws NaN).
Proof.
  induction vs as [|v vs IH]; simpl; intros ws H i.
  - inversion H; subst. destruct i; reflexivity.
  - bind_as H w Hw. bind_as H ws' Hws. inversion H; subst ws.
    destruct i as [|i]; simpl; auto.
Qed.

Lemma frame_div_cells df n out :
  frame_div df n = Ok out ->
  map fst (columns out) = map fst (columns df) /\
  forall p i, div_cell n (cell_at df p i) = Ok (cell_at out p i).
Proof.
  unfold frame_div. intro H. bind_as H cols Hcols. inversion H; subst out. clear H.
  unfold cell_at; simpl columns. revert cols Hcols.
  induction (columns df) as [|[name s] rest IH]; simpl; intros cols Hcols.
  - inversion Hcols; subst. split; auto. intros [|p] i; reflexivity.
  - bind_as Hcols c Hc. bind_as Hcols cs Hcs. inversion Hcols; subst cols. clear Hcols.
    bind_as Hc vs Hvs. inversion Hc; subst c. clear Hc.
    destruct (IH _ Hcs) as [Hn Hcells].
    split; [simpl; now rewrite Hn|].
    intros [|p] i; simpl.
    + unfold at_row; simpl. now apply div_cells_nth.
    + apply Hcells.
Qed.

Lemma cell_at_add_suffix suffix df p i :
  cell_at (add_suffix suffix df) p i = cell_at df p i.
Proof.
  unfold cell_at, add_suffix; simpl columns. rewrite nth_error_map.
  now destruct (nth_error (columns df) p).
Qed.

Lemma fold_left_Qplus qs : forall q, fold_left Qplus qs q == q + qsum qs.
Proof.
  induction qs as [|x qs IH]; intro q; simpl.
  - ring.
  - rewrite IH. ring.
Qed.

Lemma for_each_add_Num qs :
  forall q, for_each add_cell (map Num qs) (Num q) = Ok (Num (fold_left Qplus qs q)).
Proof.
  induction qs as [|x qs IH]; intro q; simpl; auto.
Qed.

(** Averaging numbers gives their mean. *)
Lemma averaged_numbers qs :
  qs <> [] -> exists q, averaged (map Num qs) = Ok (Num q) /\ q == qmean qs.
Proof.
  destruct qs as [|q0 qs]; [congruence|]. intros _.
  unfold averaged, reduce. simpl map. cbv iota beta.
  rewrite for_each_add_Num. simpl bind.
  eexists. split; [reflexivity|].
  unfold qmean. rewrite length_map. simpl qsum.
  now rewrite fold_left_Qplus.
Qed.

(** ** [CrossFoldEncoder] *)

Section CrossFold.

(** The encoder class the cross-fold encoder was made with. *)
Variable E : Encoder.

(** A fold reads the targets of its training rows only. *)
Lemma fit_fold_ext cols X y y' train test :
  dt y' = dt y ->
  (forall i, In i train -> nth_error (values y') i = nth_error (values y) i) ->
  fit_fold E cols X y' (train, test) = fit_fold E cols X y (train, test).
Proof.
  intros Hd Hv. unfold fit_fold, iloc_series.
  now rewrite (take_rows_ext (values y) (values y') train Hv), Hd.
Qed.

Lemma fit_folds_Ok cols X y splits :
  forall encoders X_encoded encoders' blocks,
    fit_folds E cols X y splits encoders X_encoded = (encoders', Ok blocks) ->
    exists rs,
      Forall2 (fun split r => fit_fold E cols X y split = Ok r) splits rs /\
      encoders' = encoders ++ map fst rs /\
      blocks = X_encoded ++ map snd rs.
Proof.
  induction splits as [|split rest IH]; simpl; intros encs Xe encs' blocks H.
  - inversion H; subst. exists []. simpl. rewrite !app_nil_r. auto.
  - destruct (fit_fold E cols X y split) as [[f T]|e] eqn:Ef; [|discriminate].
    destruct (IH _ _ _ _ H) as [rs [Hrs [He Hb]]].
    exists ((f, T) :: rs). simpl. rewrite <- !app_assoc in He, Hb. auto.
Qed.

Lemma fit_transform_Ok self X y cols out :
  snd (fit_transform E self X y cols) = Ok out ->
  exists splits rs b0 rest,
    KFold_split 5 (nrows X) = Ok splits /\
    Forall2 (fun split r => fit_fold E cols X y split = Ok r) splits rs /\
    fitted_encoders_ (fst (fit_transform E self X y cols)) = Some (map fst rs) /\
    map snd rs = b0 :: rest /\
    out = add_suffix "_encoded" (fold_left concat2 rest b0).
Proof.
  unfold fit_transform.
  destruct (KFold_split 5 (nrows X)) as [splits|e] eqn:Es; [|discriminate].
  destruct (fit_folds E cols X y splits [] []) as [encs outcome] eqn:Ef.
  simpl. intro H. bind_as H blocks Hb. subst outcome.
  bind_as H F HF.  inversion H; subst out. clear H.
  destruct (fit_folds_Ok _ _ _ _ _ _ _ _ Ef) as [rs [Hrs [He Hbl]]].
  simpl in He, Hbl. subst encs blocks.
  unfold pd_concat in HF.
  destruct (map snd rs) as [|b0 rest] eqn:Eb; [discriminate|].
  inversion HF; subst F.
  exists splits, rs, b0, rest. auto.
Qed.

Section KeepsRows.

(** The encoder returns one value per row. *)
Hypothesis Hlaw : keeps_rows E.

Lemma fit_fold_block cols X y train test f B :
  fit_fold E cols X y (train, test) = Ok (f, B) ->
  keyed_by cols B /\
  forall n, In n cols -> length (values (column B n)) = length test.
Proof.
  intros H. unfold fit_fold in H.
  bind_as H X_fit H1. bind_as H y_fit H2. bind_as H fe H3.
  bind_as H X_held H4. bind_as H T H5. bind_as H T' H6.
  inversion H; subst fe T'. clear H.
  destruct (select_columns_keyed _ _ _ H6) as [Hk [_ Hget]].
  split; auto. intros n Hn.
  rewrite (Hlaw _ _ _ _ _ (iloc_rectangular _ _ _ H4) H5 (Hget n Hn)).
  now apply (iloc_nrows X).
Qed.

Lemma blocks_lengths cols X y splits rs n :
  In n cols ->
  Forall2 (fun split r => fit_fold E cols X y split = Ok r) splits rs ->
  Forall (keyed_by cols) (map snd rs) /\
  map (@List.length cell) (map (fun b => values (column b n)) (map snd rs))
  = map (fun sp => length (snd sp)) splits.
Proof.
  intros Hn H. induction H as [|[train test] [f B] splits rs Hr Hrest IH]; simpl.
  - split; [constructor|reflexivity].
  - destruct IH as [IHk IHl].
    destruct (fit_fold_block _ _ _ _ _ _ _ Hr) as [Hk Hlen].
    split; [constructor; auto|]. now rewrite IHl, (Hlen n Hn).
Qed.

Lemma blocks_keyed cols X y splits rs :
  Forall2 (fun split r => fit_fold E cols X y split = Ok r) splits rs ->
  Forall (keyed_by cols) (map snd rs).
Proof.
  intros H. induction H as [|[train test] [f B] splits rs Hr Hrest IH]; simpl.
  - constructor.
  - destruct (fit_fold_block _ _ _ _ _ _ _ Hr) as [Hk _].
    constructor; auto.
Qed.

(** The value [fit_transform] returns for a row is the transform of that row
    by the encoder of the fold that holds it out. *)
Lemma fit_transform_rows self X y cols out splits rs k train test r i :
  snd (fit_transform E self X y cols) = Ok out ->
  KFold_split 5 (nrows X) = Ok splits ->
  Forall2 (fun split r => fit_fold E cols X y split = Ok r) splits rs ->
  nth_error splits k = Some (train, test) -> nth_error rs k = Some r ->
  In i test -> row_cells out i = row_cells (snd r) (i - hd 0%nat test).
Proof.
  intros Hout Hsplit Hrs Hk Hr Hi.
  destruct (fit_transform_Ok _ _ _ _ _ Hout)
    as [sp [rs' [b0 [rest [Hsp [Hrs' [_ [Hb ->]]]]]]]].
  rewrite Hsplit in Hsp. inversion Hsp; subst sp. clear Hsp.
  assert (rs' = rs).
  { clear - Hrs Hrs'. revert rs' Hrs'.
    induction Hrs as [|a b l l' Hab Hl IH]; intros rs' Hrs';
      inversion Hrs'; subst; auto.
    f_equal; [congruence|]. now apply IH. }
  subst rs'.
  rewrite row_cells_add_suffix.
  pose proof (blocks_keyed _ _ _ _ _ Hrs) as Hkeyed.
  assert (HB : keyed_by cols (snd r)).
  { rewrite Forall_forall in Hkeyed. apply Hkeyed.
    apply in_map. now apply (nth_error_In _ k). }
  rewrite Hb in Hkeyed. inversion Hkeyed as [|? ? Hk0 Hkrest]; subst.
  destruct (stack_keyed cols rest b0 Hk0 Hkrest) as [HF HFv].
  rewrite (keyed_row_cells cols _ i HF), (keyed_row_cells cols _ _ HB).
  apply map_ext_in. intros n Hn. unfold at_row.
  rewrite (HFv n Hn), <- Hb.
  destruct (blocks_lengths _ _ _ _ _ n Hn Hrs) as [_ Hlen].
  destruct (Forall2_nth_error _ _ _ _ _ Hrs Hk) as [[f B] [Hr' HfB]].
  rewrite Hr in Hr'. inversion Hr'; subst r. simpl snd.
  destruct (fit_fold_block _ _ _ _ _ _ _ HfB) as [_ Hseg].
  pose proof (KFold_nth _ _ _ _ _ _ Hsplit Hk) as Htest.
  rewrite Htest in Hi. apply in_seq in Hi.
  rewrite (nth_concat_at _ k (values (column B n))).
  - rewrite Hlen. f_equal. f_equal. rewrite Htest.
    destruct (length test); [lia|reflexivity].
  - rewrite !nth_error_map, Hr. reflexivity.
  - rewrite Hlen, (Hseg n Hn). exact Hi.
Qed.

(** C1.  [fit_transform] holds every row out of exactly one fold.  The
    encoder of a fold is fitted on rows outside the fold only, so the fold's
    encoder and its transform of the held-out rows are the same for two target
    series that differ on rows of that fold only; and with an encoder that
    returns one value per row, the encoded values [fit_transform] returns for
    the rows of the fold are the same for the two series. *)
Theorem fit_transform_out_of_fold (self : CrossFoldEncoder E)
  X y y' cols splits k train test :
  KFold_split 5 (nrows X) = Ok splits ->
  nth_error splits k = Some (train, test) ->
  agree_outside test y y' ->
  List.concat (map snd splits) = seq 0 (nrows X) /\
  (forall i, In i train -> ~ In i test) /\
  fit_fold E cols X y' (train, test) = fit_fold E cols X y (train, test) /\
  forall out out',
    snd (fit_transform E self X y cols) = Ok out ->
    snd (fit_transform E self X y' cols) = Ok out' ->
    forall i, In i test -> row_cells out' i = row_cells out i.
Proof.
  intros Hsplit Hk [Hdt Hagree].
  assert (Hout : forall i, In i train -> ~ In i test).
  { intros i Hi. rewrite (KFold_train _ _ _ _ _ Hsplit (nth_error_In _ _ Hk)) in Hi.
    now apply (train_indices_outside (nrows X)). }
  assert (Hfold : fit_fold E cols X y' (train, test) = fit_fold E cols X y (train, test)).
  { apply fit_fold_ext; auto. }
  split; [apply (KFold_partition 5); auto; lia|].
  split; [exact Hout|]. split; [exact Hfold|].
  intros out out' Hy Hy' i Hi.
  destruct (fit_transform_Ok _ _ _ _ _ Hy) as [sp [rs [b0 [rest [Hsp [Hrs [_ [Hb ->]]]]]]]].
  destruct (fit_transform_Ok _ _ _ _ _ Hy')
    as [sp' [rs' [b0' [rest' [Hsp' [Hrs' [_ [Hb' ->]]]]]]]].
  rewrite Hsplit in Hsp, Hsp'. inversion Hsp; inversion Hsp'; subst sp sp'.
  clear Hsp Hsp'.
  rewrite !row_cells_add_suffix.
  pose proof (blocks_keyed _ _ _ _ _ Hrs) as Hkeyed.
  pose proof (blocks_keyed _ _ _ _ _ Hrs') as Hkeyed'.
  rewrite Hb in Hkeyed. rewrite Hb' in Hkeyed'.
  inversion Hkeyed as [|? ? Hk0 Hkrest]; subst.
  inversion Hkeyed' as [|? ? Hk0' Hkrest']; subst.
  destruct (stack_keyed cols rest b0 Hk0 Hkrest) as [HF HFv].
  destruct (stack_keyed cols rest' b0' Hk0' Hkrest') as [HF' HFv'].
  rewrite (keyed_row_cells cols _ i HF), (keyed_row_cells cols _ i HF').
  apply map_ext_in. intros n Hn. unfold at_row.
  rewrite (HFv n Hn), (HFv' n Hn), <- Hb, <- Hb'.
  destruct (blocks_lengths _ _ _ _ _ n Hn Hrs) as [_ Hlen].
  destruct (blocks_lengths _ _ _ _ _ n Hn Hrs') as [_ Hlen'].
  destruct (Forall2_nth_error _ _ _ _ _ Hrs Hk) as [[f B] [Hr HB]].
  destruct (Forall2_nth_error _ _ _ _ _ Hrs' Hk) as [[f' B'] [Hr' HB']].
  rewrite Hfold, HB in HB'. inversion HB'; subst f' B'. clear HB'.
  destruct (fit_fold_block _ _ _ _ _ _ _ HB) as [_ Hseg].
  apply (nth_concat_same _ _ k (values (column B n))).
  - now rewrite Hlen', Hlen.
  - rewrite !nth_error_map, Hr'. reflexivity.
  - rewrite !nth_error_map, Hr. reflexivity.
  - rewrite Hlen', (Hseg n Hn).
    rewrite (KFold_nth _ _ _ _ _ _ Hsplit Hk) in Hi. apply in_seq in Hi. exact Hi.
Qed.

End KeepsRows.

(** C2 (as amended).  [fit_transform] fits one encoder per fold, five in all,
    and keeps them on the object; the frame it returns is the stack of the five
    held-out transforms, so that the value of a row is the transform of that
    row by the encoder of the one fold that holds the row out: nothing is
    averaged there.  [transform], when the transforms of the frame by the
    fitted encoders carry the same index and columns, returns for each row and
    each encoded column the sum of the transforms of the row by the fitted
    encoders, taken from left to right with a value missing on one side
    counted as 0, divided by the number of encoders; when no transform is
    missing this is the mean of the per-fold encoders' transforms of the
    row. *)
Theorem cross_fold_values :
  (forall self X y cols out,
      snd (fit_transform E self X y cols) = Ok out ->
      exists splits rs F,
        KFold_split 5 (nrows X) = Ok splits /\
        Forall2 (fun split r => fit_fold E cols X y split = Ok r) splits rs /\
        length rs = 5%nat /\
        fitted_encoders_ (fst (fit_transform E self X y cols)) = Some (map fst rs) /\
        pd_concat (map snd rs) = Ok F /\
        out = add_suffix "_encoded" F /\
        (keeps_rows E ->
         forall k train test r i,
           nth_error splits k = Some (train, test) -> nth_error rs k = Some r ->
           In i test -> row_cells out i = row_cells (snd r) (i - hd 0%nat test))) /\
  (forall self X encoders cols out,
      fitted_encoders_ self = Some encoders -> cols_ self = Some cols ->
      cross_transform E self X = Ok out ->
      exists frames,
        encoder_frames E encoders cols X = Ok frames /\
        forall p i,
          averaged (map (fun T => cell_at T p i) frames) = Ok (cell_at out p i)) /\
  (forall qs, qs <> [] ->
      exists q, averaged (map Num qs) = Ok (Num q) /\ q == qmean qs).
Proof.
  split; [|split; [|exact averaged_numbers]].
  - intros self X y cols out Hout.
    destruct (fit_transform_Ok _ _ _ _ _ Hout)
      as [splits [rs [b0 [rest [Hsp [Hrs [Henc [Hb Ho]]]]]]]].
    exists splits, rs, (fold_left concat2 rest b0).
    repeat split; auto.
    + rewrite <- (Forall2_length Hrs). now apply (KFold_length 5 (nrows X)).
    + now rewrite Hb.
    + intros Hlaw k train test r i Hk Hr Hi.
      now apply (fit_transform_rows Hlaw self X y cols out splits rs k train test r i).
  - intros self X encoders cols out Henc Hcols H.
    unfold cross_transform in H. rewrite Henc, Hcols in H.
    bind_as H frames Hframes. bind_as H total Htotal. bind_as H avg Havg.
    inversion H; subst out. clear H.
    exists frames. split; [exact Hframes|].
    intros p i. rewrite cell_at_add_suffix.
    destruct (frame_div_cells _ _ _ Havg) as [_ Hdiv].
    unfold averaged, reduce. unfold reduce in Htotal.
    destruct frames as [|x0 rest]; [discriminate|].
    destruct (reduce_frame_cells _ _ _ Htotal) as [_ Hsum].
    simpl map. cbv iota beta. rewrite (Hsum p i). simpl bind.
    rewrite length_map. apply Hdiv.
Qed.

End CrossFold.

(** The M-estimate encoder returns one value per row. *)
Lemma MEstimateEncoder_keeps_rows m : keeps_rows (MEstimateEncoder m).
Proof.
  unfold keeps_rows. simpl. intros f Z T name s HZ Hrun Hs.
  assert (HT : rectangular T /\ nrows T = nrows Z).
  { unfold m_transform in Hrun.
    apply (for_each_inv _ (fun d => rectangular d /\ nrows d = nrows Z) _)
      with (s := Z) (s' := T) in Hrun; auto.
    intros d entry d' _ [Hd Hn] Hstep.
    bind_as Hstep c Hc. inversion Hstep; subst d'. clear Hstep.
    split; [|exact Hn].
    unfold rectangular, setitem; simpl columns. unfold nrows; simpl index.
    apply Forall_assign; [exact Hd|].
    simpl. rewrite length_map. now apply (rectangular_getitem d (fst entry)). }
  destruct HT as [HT Hn]. rewrite <- Hn. now apply (rectangular_getitem T name).
Qed.

Lemma fit_transform_out_of_fold_witness :
  exists out out',
    snd (fit_transform (MEstimateEncoder 1) (CrossFoldEncoder_init _)
           five_houses five_prices ["MSSubClass"]) = Ok out /\
    snd (fit_transform (MEstimateEncoder 1) (CrossFoldEncoder_init _)
           five_houses other_prices ["MSSubClass"]) = Ok out' /\
    row_cells out' 0 = row_cells out 0 /\
    row_cells out 0 = [Num (4600 # 12)].
Proof.
  destruct (snd (fit_transform (MEstimateEncoder 1) (CrossFoldEncoder_init _)
                   five_houses five_prices ["MSSubClass"])) as [out|e] eqn:Ey;
    [|vm_compute in Ey; discriminate].
  destruct (snd (fit_transform (MEstimateEncoder 1) (CrossFoldEncoder_init _)
                   five_houses other_prices ["MSSubClass"])) as [out'|e] eqn:Ey';
    [|vm_compute in Ey'; discriminate].
  exists out, out'. repeat split.
  - destruct (fit_transform_out_of_fold (MEstimateEncoder 1)
                (MEstimateEncoder_keeps_rows 1) (CrossFoldEncoder_init _)
                five_houses five_prices other_prices ["MSSubClass"]
                [([1; 2; 3; 4], [0]); ([0; 2; 3; 4], [1]); ([0; 1; 3; 4], [2]);
                 ([0; 1; 2; 4], [3]); ([0; 1; 2; 3], [4])]%nat
                0%nat [1; 2; 3; 4]%nat [0%nat]) as [_ [_ [_ H]]].
    + reflexivity.
    + reflexivity.
    + split; [reflexivity|].
      intros [|i] Hi; [exfalso; apply Hi; now left|reflexivity].
    + apply (H out out' Ey Ey' 0%nat). now left.
  - vm_compute in Ey. inversion Ey. reflexivity.
Defined.

Lemma cross_fold_values_witness :
  exists out avg frames,
    snd (fit_transform (MEstimateEncoder 1) (CrossFoldEncoder_init _)
           five_houses five_prices ["MSSubClass"]) = Ok out /\
    row_cells out 0 = [Num (4600 # 12)] /\
    cross_transform (MEstimateEncoder 1)
      (fst (fit_transform (MEstimateEncoder 1) (CrossFoldEncoder_init _)
              five_houses five_prices ["MSSubClass"])) five_houses = Ok avg /\
    map (fun T => cell_at T 0 0) frames
    = [Num (4600 # 12); Num (4900 # 16); Num (3600 # 12); Num (4700 # 16);
       Num (2600 # 12)] /\
    averaged (map (fun T => cell_at T 0 0) frames) = Ok (cell_at avg 0 0).
Proof.
  destruct (cross_fold_values (MEstimateEncoder 1)) as [_ [Htransform _]].
  set (ft := fit_transform (MEstimateEncoder 1) (CrossFoldEncoder_init _)
               five_houses five_prices ["MSSubClass"]).
  destruct (snd ft) as [out|e] eqn:Eo; [|vm_compute in Eo; discriminate].
  destruct (cross_transform (MEstimateEncoder 1) (fst ft) five_houses)
    as [avg|e] eqn:Ea; [|vm_compute in Ea; discriminate].
  destruct (fitted_encoders_ (fst ft)) as [encoders|] eqn:Ee;
    [|vm_compute in Ee; discriminate].
  destruct (Htransform (fst ft) five_houses encoders ["MSSubClass"] avg Ee eq_refl Ea)
    as [frames [Hframes Havg]].
  exists out, avg, frames. repeat split.
  - vm_compute in Eo. inversion Eo. reflexivity.
  - vm_compute in Ee. inversion Ee; subst encoders.
    vm_compute in Hframes. inversion Hframes. reflexivity.
  - apply Havg.
Defined.

(** C2 as the claim states it fails for [fit_transform]: the value it returns
    for the first of five houses is the transform by the first fold's encoder,
    1150/3, while the mean of the five encoders' transforms of that house is
    300. *)
Lemma fit_transform_not_the_mean :
  ~ (forall (E : Encoder) (self : CrossFoldEncoder E) X y cols out encoders frames p i,
       snd (fit_transform E self X y cols) = Ok out ->
       fitted_encoders_ (fst (fit_transform E self X y cols)) = Some encoders ->
       encoder_frames E encoders cols X = Ok frames ->
       (p < length cols)%nat -> (i < nrows X)%nat ->
       cell_eqb (cell_at out p i) (mean_of (map (fun T => cell_at T p i) frames)) = true).
Proof.
  intro H.
  specialize (H (MEstimateEncoder 1) (CrossFoldEncoder_init _)
                five_houses five_prices ["MSSubClass"]).
  set (ft := fit_transform (MEstimateEncoder 1) (CrossFoldEncoder_init _)
               five_houses five_prices ["MSSubClass"]) in H.
  destruct (snd ft) as [out|e] eqn:Eo; [|vm_compute in Eo; discriminate].
  destruct (fitted_encoders_ (fst ft)) as [encoders|] eqn:Ee;
    [|vm_compute in Ee; discriminate].
  destruct (encoder_frames (MEstimateEncoder 1) encoders ["MSSubClass"] five_houses)
    as [frames|e] eqn:Ef.
  - specialize (H out encoders frames 0%nat 0%nat eq_refl eq_refl Ef).
    specialize (H ltac:(simpl; lia) ltac:(unfold nrows; simpl; lia)).
    vm_compute in Eo. inversion Eo; subst out.
    vm_compute in Ee. inversion Ee; subst encoders.
    vm_compute in Ef. inversion Ef; subst frames.
    vm_compute in H. discriminate.
  - vm_compute in Ee. inversion Ee; subst encoders.
    vm_compute in Ef. discriminate.
Qed.

(** ** [score_dataset]: the frame it is given *)

Lemma cat_codes_label_encoded s :
  is_category (dt s) = true -> cat_codes s = Ok (label_encoded s).
Proof.
  unfold cat_codes, label_encoded. destruct (dt s); simpl; intro H;
    [discriminate|discriminate|reflexivity].
Qed.

Lemma label_encoded_other s : is_category (dt s) = false -> label_encoded s = s.
Proof.
  unfold label_encoded. destruct (dt s); simpl; intro H; auto; discriminate.
Qed.

Lemma label_encoded_length s : length (values (label_encoded s)) = length (values s).
Proof.
  unfold label_encoded. destruct (dt s); simpl; auto. apply length_map.
Qed.

Lemma update_same h ref o : update h ref o ref = Some o.
Proof. unfold update. now rewrite Nat.eqb_refl. Qed.

Lemma update_other h ref o r : r <> ref -> update h ref o r = h r.
Proof.
  intro H. unfold update. destruct (Nat.eqb r ref) eqn:E; auto.
  apply Nat.eqb_eq in E. contradiction.
Qed.

(** The loop [for colname in names: X[colname] = X[colname].cat.codes] on the
    frame object [X]. *)
Lemma label_loop X names :
  NoDup names ->
  forall h d,
    h X = Some (PyFrame d) ->
    (forall n, In n names -> exists s, getitem d n = Ok s /\ is_category (dt s) = true) ->
    exists h' d',
      py_for (label_column X) names h = (h', Ok tt) /\
      h' X = Some (PyFrame d') /\
      (forall r, r <> X -> h' r = h r) /\
      index d' = index d /\
      map fst (columns d') = map fst (columns d) /\
      (rectangular d -> rectangular d') /\
      forall n s, getitem d n = Ok s ->
        getitem d' n = Ok (if in_dec string_dec n names then label_encoded s else s).
Proof.
  intro Hnd. induction names as [|x rest IH]; intros h d Hh Hcat.
  - exists h, d. simpl. repeat split; auto.
  - inversion Hnd as [|? ? Hx Hrest]; subst.
    destruct (Hcat x (or_introl eq_refl)) as [sx [Hsx Hcx]].
    set (d1 := setitem d x (label_encoded sx)).
    destruct (IH Hrest (update h X (PyFrame d1)) d1) as [h' [d' [Hrun [HX [Hfr [Hi [Hn [Hr Hc]]]]]]]].
    + apply update_same.
    + intros n Hn. destruct (Hcat n (or_intror Hn)) as [s [Hs Hc]].
      exists s. split; auto. unfold d1. rewrite getitem_setitem_other; auto.
      intros <-. contradiction.
    + exists h', d'. repeat split; auto.
      * simpl py_for. unfold py_bind at 1, label_column at 1.
        unfold py_bind at 1, read_frame at 1. rewrite Hh.
        unfold py_bind at 1, py_lift at 1. rewrite Hsx.
        unfold py_bind at 1, py_lift at 1. rewrite (cat_codes_label_encoded _ Hcx).
        unfold write_frame. exact Hrun.
      * intros r Hr'. rewrite (Hfr r Hr'). now apply update_other.
      * rewrite Hn. unfold d1; simpl columns. apply getitem_Ok in Hsx.
        now rewrite (assign_names _ _ _ _ Hsx).
      * intro Hrect. apply Hr. unfold rectangular, d1, setitem; simpl columns.
        unfold nrows; simpl index. apply Forall_assign; [exact Hrect|].
        simpl. rewrite label_encoded_length.
        now apply (rectangular_getitem d x).
      * intros n s Hs. destruct (string_dec x n) as [->|Hne].
        -- assert (Hs1 : getitem d1 n = Ok (label_encoded sx))
             by apply getitem_setitem_same.
           rewrite (Hc n _ Hs1). rewrite Hsx in Hs. inversion Hs; subst s.
           destruct (in_dec string_dec n rest); [contradiction|].
           destruct (in_dec string_dec n (n :: rest)) as [|Hnot]; auto.
           exfalso; apply Hnot; now left.
        -- assert (Hs1 : getitem d1 n = Ok s)
             by (unfold d1; now rewrite getitem_setitem_other).
           rewrite (Hc n _ Hs1).
           destruct (in_dec string_dec n rest) as [Hin|Hin];
             destruct (in_dec string_dec n (x :: rest)) as [Hin'|Hin']; auto.
           ++ exfalso; apply Hin'; now right.
           ++ destruct Hin' as [->|Hin']; contradiction.
Qed.

(** [score_dataset] is the loop on the frame object followed by a computation
    that leaves the heap as the loop left it. *)
Lemma score_dataset_steps model X y h df :
  h X = Some (PyFrame df) -> NoDup (map fst (columns df)) ->
  exists h' df',
    fst (score_dataset model X y h) = h' /\
    h' X = Some (PyFrame df') /\
    (forall r, r <> X -> h' r = h r) /\
    index df' = index df /\
    map fst (columns df') = map fst (columns df) /\
    (rectangular df -> rectangular df') /\
    (forall n s, getitem df n = Ok s -> getitem df' n = Ok (label_encoded s)) /\
    snd (score_dataset model X y h)
    = (y_ <- match h' y with
             | Some (PySeries s) => Ok s
             | _ => Raise TypeError
             end ;;
       log_y <- np_log y_ ;;
       score <- cross_val_score model df' log_y 5 ;;
       Ok (sqrt (-1 * Rmean score))).
Proof.
  intros Hh Hnd.
  destruct (label_loop X (select_dtypes is_category df)) with (h := h) (d := df)
    as [h' [df' [Hrun [HX [Hfr [Hi [Hn [Hr Hc]]]]]]]]; auto.
  { unfold select_dtypes. apply NoDup_map_inv with (f := fun n => n).
    rewrite map_id.
    assert (Hgen : forall cols : list (string * Series),
               NoDup (map fst cols) ->
               NoDup (map fst (filter (fun c => is_category (dt (snd c))) cols))).
    { induction cols as [|c cols IH]; simpl; intro H; [constructor|].
      inversion H as [|? ? Hc' Hcols]; subst.
      destruct (is_category (dt (snd c))); simpl; auto.
      constructor; auto. intro Hin. apply Hc'.
      apply in_map_iff in Hin. destruct Hin as [c0 [Hc0 Hin]].
      apply filter_In in Hin. rewrite <- Hc0. apply in_map. tauto. }
    now apply Hgen. }
  { intros n Hin. now apply select_dtypes_NoDup. }
  exists h', df'.
  assert (Hsteps :
    score_dataset model X y h
    = (h', y_ <- match h' y with
                 | Some (PySeries s) => Ok s
                 | _ => Raise TypeError
                 end ;;
           log_y <- np_log y_ ;;
           score <- cross_val_score model df' log_y 5 ;;
           Ok (sqrt (-1 * Rmean score)))).
  { unfold score_dataset. unfold py_bind at 1, read_frame at 1. rewrite Hh.
    unfold py_bind at 1. rewrite Hrun.
    unfold py_bind at 1, read_series at 1.
    destruct (h' y) as [[fr|s]|]; simpl bind; auto.
    unfold py_bind at 1, py_lift at 1.
    destruct (np_log s) as [log_y|e]; simpl bind; auto.
    unfold py_bind at 1, read_frame at 1. rewrite HX.
    unfold py_bind at 1, py_lift at 1.
    destruct (cross_val_score model df' log_y 5) as [score|e]; simpl bind; auto. }
  rewrite Hsteps. simpl fst. simpl snd. repeat split; auto.
  intros n s Hs. rewrite (Hc n s Hs).
  destruct (in_dec string_dec n (select_dtypes is_category df)) as [Hin|Hin]; auto.
  rewrite label_encoded_other; auto.
  destruct (is_category (dt s)) eqn:E; auto.
  exfalso; apply Hin. now apply (select_dtypes_In _ _ _ s).
Qed.

(** C9.  [score_dataset] changes the frame object it is given: after the
    call, also when the call raises, every categorical column of that frame
    holds its integer category codes (-1 for a missing value) as a numeric
    column, and every other column, the row index, the column names, the target
    series and every other object are as before. *)
Theorem score_dataset_mutates model X y h df ys :
  h X = Some (PyFrame df) -> h y = Some (PySeries ys) ->
  NoDup (map fst (columns df)) ->
  exists df',
    fst (score_dataset model X y h) X = Some (PyFrame df') /\
    index df' = index df /\
    map fst (columns df') = map fst (columns df) /\
    (forall name s cats ord,
        getitem df name = Ok s -> dt s = category cats ord ->
        getitem df' name
        = Ok (mkSeries number (map (fun c => Num (inject_Z (code_of cats c))) (values s)))) /\
    (forall name s,
        getitem df name = Ok s -> is_category (dt s) = false ->
        getitem df' name = Ok s) /\
    fst (score_dataset model X y h) y = Some (PySeries ys) /\
    forall r, r <> X -> fst (score_dataset model X y h) r = h r.
Proof.
  intros HX Hy Hnd.
  destruct (score_dataset_steps model X y h df HX Hnd)
    as [h' [df' [Hh' [HX' [Hfr [Hi [Hn [_ [Hc _]]]]]]]]].
  exists df'. rewrite Hh'. repeat split; auto.
  - intros name s cats ord Hs Hd. rewrite (Hc name s Hs).
    unfold label_encoded. now rewrite Hd.
  - intros name s Hs Hd. rewrite (Hc name s Hs). now rewrite label_encoded_other.
  - rewrite Hfr; auto. intros ->. rewrite HX in Hy. discriminate.
Qed.

Lemma score_dataset_mutates_witness :
  exists df',
    fst (score_dataset mean_model 0 1 (heap_of mixed_frame five_prices)) 0%nat
    = Some (PyFrame df') /\
    getitem df' "Alley" = Ok (mkSeries number [Num 0; Num (-1 # 1)]) /\
    getitem df' "LotFrontage" = Ok (mkSeries number [NaN; Num (80 # 1)]) /\
    fst (score_dataset mean_model 0 1 (heap_of mixed_frame five_prices)) 1%nat
    = Some (PySeries five_prices).
Proof.
  destruct (score_dataset_mutates mean_model 0 1 (heap_of mixed_frame five_prices)
              mixed_frame five_prices)
    as [df' [Hdf [_ [_ [Hcat [Hother [Hy _]]]]]]]; try reflexivity.
  - repeat (constructor; [simpl; intuition discriminate|]). constructor.
  - exists df'.
    split; [exact Hdf|].
    split; [exact (Hcat "Alley" _ _ _ eq_refl eq_refl)|].
    split; [exact (Hother "LotFrontage" _ eq_refl eq_refl)|exact Hy].
Defined.

(** ** [score_dataset]: the score *)

Lemma take_rows_total {A : Type} (xs : list A) rows :
  (forall i, In i rows -> (i < length xs)%nat) ->
  exists ys, take_rows xs rows = Ok ys.
Proof.
  unfold take_rows. induction rows as [|i rest IH]; simpl; intro H.
  - eauto.
  - destruct IH as [ys Hys]; [intros j Hj; apply H; now right|].
    destruct (nth_error xs i) as [x|] eqn:E.
    + simpl bind. rewrite Hys. simpl bind. eauto.
    + apply nth_error_None in E. specialize (H i (or_introl eq_refl)). lia.
Qed.

Lemma iloc_total df rows :
  rectangular df -> (forall i, In i rows -> (i < nrows df)%nat) ->
  exists df', iloc df rows = Ok df'.
Proof.
  intros Hrect Hrows. unfold iloc.
  destruct (take_rows_total (index df) rows Hrows) as [idx Hidx].
  rewrite Hidx. simpl bind.
  assert (Hcols : exists cols,
            map_result (fun c => s <- iloc_series (snd c) rows ;; Ok (fst c, s))
                       (columns df) = Ok cols).
  { unfold rectangular in Hrect. induction Hrect as [|c cols Hc Hrest IH]; simpl.
    - eauto.
    - destruct IH as [cs Hcs].
      destruct (take_rows_total (values (snd c)) rows) as [vs Hvs].
      { intros i Hi. rewrite Hc. now apply Hrows. }
      unfold iloc_series at 1. rewrite Hvs. simpl bind. rewrite Hcs. simpl bind. eauto. }
  destruct Hcols as [cols Hcols]. rewrite Hcols. simpl bind. eauto.
Qed.


Lemma np_log_positive ys qs :
  values ys = map Num qs -> Forall (fun q => 0 < q) qs ->
  np_log ys = Ok (map (fun q => ln (Q2R q)) qs).
Proof.
  unfold np_log. intros -> H. induction H as [|q qs Hq Hqs IH]; simpl; auto.
  destruct (Qle_bool q 0) eqn:E.
  - apply Qle_bool_iff in E. exfalso. apply (Qlt_not_le _ _ Hq E).
  - simpl bind. rewrite IH. reflexivity.
Qed.



Section Scoring.

(** The model handed to [score_dataset]; it predicts one value per row. *)
Variable model : Estimator.
Hypothesis Hrows : predicts_rows model.




End Scoring.

Lemma predicts_rows_mean_model : predicts_rows mean_model.
Proof.
  intros f Z. simpl. apply repeat_length.
Qed.


(** ** The export cell *)

Lemma nth_map_in {A B : Type} (f : A -> B) l i d d' :
  (i < length l)%nat -> nth i (map f l) d' = f (nth i l d).
Proof.
  intro H. rewrite nth_indep with (d' := f d) by now rewrite length_map.
  apply map_nth.
Qed.

(** C6.  With positive targets and a model that predicts one value per row,
    the export cell returns after writing one file, [submission.csv], every
    other file being as before.  The file has the header line [Id],
    [SalePrice] and one line per row of [X_test], and each line has two
    fields, the row label and the exponential of the prediction for the row:
    the index of the output frame is not written. *)
Theorem export_submission xgb X_train X_test y fs qs :
  values y = map Num qs -> Forall (fun q => 0 < q) qs -> predicts_rows xgb ->
  exists fs' lines,
    export_cell xgb X_train X_test y fs = Ok fs' /\
    (forall path, path <> "submission.csv" -> fs' path = fs path) /\
    fs' "submission.csv" = Some ([FText "Id"; FText "SalePrice"] :: lines) /\
    length lines = nrows X_test /\
    forall i, (i < nrows X_test)%nat ->
      nth i lines []
      = [FInt (nth i (index X_test) 0%Z);
         FFloat (exp (nth i (predict xgb
                               (est_fit xgb X_train (map (fun q => ln (Q2R q)) qs))
                               X_test) 0%R))].
Proof.
  intros Hy Hpos Hrows.
  unfold export_cell. rewrite (np_log_positive y qs Hy Hpos). simpl bind.
  set (predictions := map exp _).
  assert (Hlen : length predictions = nrows X_test).
  { unfold predictions. now rewrite length_map, Hrows. }
  unfold DataFrame_of_dict. simpl forallb.
  rewrite !length_map, Hlen. fold (nrows X_test).
  rewrite !Nat.eqb_refl. simpl bind.
  eexists; eexists. split; [reflexivity|].
  unfold write_file, to_csv; simpl.
  repeat split.
  - intros path Hp. destruct (String.eqb path "submission.csv") eqn:E; auto.
    apply String.eqb_eq in E. contradiction.
  - now rewrite !length_map, !length_seq.
  - intros i Hi. rewrite !length_map, !length_seq.
    rewrite (nth_map_in _ _ _ 0%nat) by now rewrite length_seq.
    rewrite seq_nth by assumption. simpl.
    rewrite (nth_map_in FInt _ _ 0%Z) by assumption.
    rewrite (nth_map_in FFloat _ _ 0%R) by (rewrite Hlen; assumption).
    unfold predictions.
    rewrite (nth_map_in exp _ _ 0%R) by (rewrite Hrows; assumption).
    reflexivity.
Qed.

Lemma export_submission_witness :
  exists fs' lines,
    export_cell mean_model five_houses (mkFrame [6%Z; 7%Z] []) five_prices
      (fun _ => None) = Ok fs' /\
    fs' "submission.csv" = Some ([FText "Id"; FText "SalePrice"] :: lines) /\
    length lines = 2%nat /\
    fs' "train.csv" = None.
Proof.
  destruct (export_submission mean_model five_houses (mkFrame [6%Z; 7%Z] [])
              five_prices (fun _ => None)
              [100 # 1; 200 # 1; 300 # 1; 400 # 1; 500 # 1])
    as [fs' [lines [Hrun [Hother [Hfile [Hlen _]]]]]].
  - reflexivity.
  - repeat (constructor; [reflexivity|]). constructor.
  - exact predicts_rows_mean_model.
  - exists fs', lines. repeat split; auto.
    apply Hother. discriminate.
Defined.


(** * Further properties *)

(** ** [clean]: outcome, other columns, renaming, running it twice *)

Lemma map_result_le_cell_str bound vs :
  forallb (fun c => negb (is_str c)) vs = false ->
  map_result (le_cell bound) vs = Raise TypeError.
Proof.
  induction vs as [|c rest IH]; simpl; [discriminate|].
  destruct c as [|q|s]; simpl; auto.
  - intro H. now rewrite (IH H).
  - intro H. now rewrite (IH H).
Qed.

Lemma le_scalar_not_comparable s bound :
  comparable s = false -> le_scalar s bound = Raise TypeError.
Proof.
  unfold comparable, le_scalar. destruct (is_category (dt s)); simpl; auto.
  apply map_result_le_cell_str.
Qed.

Lemma le_scalar_comparable s bound :
  comparable s = true -> le_scalar s bound = Ok (map (at_most bound) (values s)).
Proof.
  intro H. apply andb_prop in H. destruct H as [Hcat Hstr].
  apply negb_true_iff in Hcat. unfold le_scalar. rewrite Hcat.
  now apply map_result_le_cell.
Qed.

Lemma getitem_missing df name : has_column df name = false -> getitem df name = Raise KeyError.
Proof.
  unfold has_column, getitem. destruct (lookup name (columns df)); [discriminate|auto].
Qed.

Lemma getitem_present df name :
  has_column df name = true -> exists s, getitem df name = Ok s.
Proof. apply has_column_getitem. Qed.

(** The outcomes of [clean], by the columns it reads. *)
Lemma clean_cases df :
  match clean df with
  | Ok _ =>
      has_column df "Exterior2nd" = true /\ has_column df "YearBuilt" = true /\
      exists g, getitem df "GarageYrBlt" = Ok g /\ comparable g = true
  | Raise KeyError =>
      has_column df "Exterior2nd" = false \/ has_column df "GarageYrBlt" = false \/
      has_column df "YearBuilt" = false
  | Raise TypeError =>
      exists g, getitem df "GarageYrBlt" = Ok g /\ comparable g = false
  | Raise _ => False
  end.
Proof.
  unfold clean.
  destruct (has_column df "Exterior2nd") eqn:Hext.
  2:{ rewrite (getitem_missing _ _ Hext). simpl. auto. }
  destruct (getitem_present _ _ Hext) as [ext Eext]. rewrite Eext. simpl bind.
  rewrite !getitem_setitem_other by discriminate.
  destruct (has_column df "GarageYrBlt") eqn:Hg.
  2:{ rewrite (getitem_missing _ _ Hg). simpl. auto. }
  destruct (getitem_present _ _ Hg) as [g Eg]. rewrite Eg. simpl bind.
  destruct (comparable g) eqn:Hcmp.
  2:{ rewrite (le_scalar_not_comparable _ _ Hcmp). simpl. eauto. }
  rewrite (le_scalar_comparable _ _ Hcmp). simpl bind.
  destruct (has_column df "YearBuilt") eqn:Hyb.
  2:{ rewrite (getitem_missing _ _ Hyb). simpl. auto. }
  destruct (getitem_present _ _ Hyb) as [yb Eyb]. rewrite Eyb. simpl bind.
  repeat split; eauto.
Qed.

Lemma comparable_no_str s : is_category (dt s) = false -> comparable s = no_str s.
Proof. unfold comparable, no_str. now intros ->. Qed.

(** When [GarageYrBlt] is not categorical, [clean] returns exactly when the
    frame has [Exterior2nd], [GarageYrBlt] and [YearBuilt] and no cell of
    [GarageYrBlt] is a string; it raises [KeyError] when [Exterior2nd] or
    [GarageYrBlt] is missing, and [TypeError] when [GarageYrBlt] holds a
    string, which [<=] cannot compare with 2010. *)
Theorem clean_outcome df :
  (forall g, getitem df "GarageYrBlt" = Ok g -> is_category (dt g) = false) ->
  ((exists df', clean df = Ok df') <->
   has_column df "Exterior2nd" = true /\ has_column df "YearBuilt" = true /\
   exists g, getitem df "GarageYrBlt" = Ok g /\ no_str g = true) /\
  (has_column df "Exterior2nd" = false \/ has_column df "GarageYrBlt" = false ->
   clean df = Raise KeyError) /\
  (has_column df "Exterior2nd" = true ->
   forall g, getitem df "GarageYrBlt" = Ok g -> no_str g = false ->
   clean df = Raise TypeError).
Proof.
  intro Hcat. pose proof (clean_cases df) as H.
  destruct (clean df) as [df'|e] eqn:E.
  - destruct H as [Hext [Hyb [g [Hg Hcmp]]]].
    rewrite (comparable_no_str g (Hcat g Hg)) in Hcmp.
    split; [|split].
    + split; [intros _; eauto|intros _; eauto].
    + intros [Hno|Hno]; [congruence|].
      rewrite (getitem_missing _ _ Hno) in Hg. discriminate.
    + intros _ g0 Hg0 Hstr. congruence.
  - split; [|split].
    + split; [intros [df' Hdf']; discriminate|].
      intros [Hext [Hyb [g [Hg Hstr]]]]. exfalso.
      rewrite <- (comparable_no_str g (Hcat g Hg)) in Hstr.
      destruct e.
      * destruct H as [H|[H|H]]; try congruence.
        rewrite (getitem_missing _ _ H) in Hg. discriminate.
      * exact H.
      * destruct H as [g0 [Hg0 Hcmp]]. congruence.
      * exact H.
      * exact H.
    + intros Hno. destruct e; try reflexivity; exfalso; try exact H.
      destruct H as [g [Hg Hcmp]].
      unfold clean in E. destruct Hno as [Hno|Hno].
      * rewrite (getitem_missing _ _ Hno) in E. simpl in E. discriminate.
      * rewrite (getitem_missing _ _ Hno) in Hg. discriminate.
    + intros Hext g Hg Hstr.
      rewrite <- (comparable_no_str g (Hcat g Hg)) in Hstr.
      unfold clean in E. destruct (getitem_present _ _ Hext) as [ext Eext].
      rewrite Eext in E. simpl bind in E.
      rewrite !getitem_setitem_other in E by discriminate.
      rewrite Hg in E. simpl bind in E.
      rewrite (le_scalar_not_comparable _ _ Hstr) in E. simpl in E. congruence.
Qed.

Lemma clean_outcome_witness :
  (exists df', clean garage_frame = Ok df') /\
  clean (mkFrame [1%Z] [("Exterior2nd", mkSeries object [Str "VinylSd"]);
                        ("GarageYrBlt", mkSeries object [Str "unknown"])])
  = Raise TypeError.
Proof.
  split.
  - apply (clean_outcome garage_frame).
    + intros g Hg. injection Hg as <-. reflexivity.
    + split; [reflexivity|]. split; [reflexivity|]. eexists. split; reflexivity.
  - apply (clean_outcome
             (mkFrame [1%Z] [("Exterior2nd", mkSeries object [Str "VinylSd"]);
                             ("GarageYrBlt", mkSeries object [Str "unknown"])]))
      with (g := mkSeries object [Str "unknown"]).
    + intros g Hg. injection Hg as <-. reflexivity.
    + reflexivity.
    + reflexivity.
    + reflexivity.
Defined.

Lemma clean_form df df' :
  clean df = Ok df' ->
  exists ext g yb,
    getitem df "Exterior2nd" = Ok ext /\ getitem df "GarageYrBlt" = Ok g /\
    getitem df "YearBuilt" = Ok yb /\ comparable g = true /\
    df' = rename [("1stFlrSF", "FirstFlrSF"); ("2ndFlrSF", "SecondFlrSF");
                  ("3SsnPorch", "Threeseasonporch")]
            (setitem
               (setitem df "Exterior2nd"
                  (replace [(Str "Brk Cmn", Str "BrkComm");
                            (Str "Wd Shng", Str "Wd Sdng");
                            (Str "CmentBd", Str "CemntBd")] ext))
               "GarageYrBlt" (where_ g (map (at_most (2010 # 1)) (values g)) yb)).
Proof.
  unfold clean. intro H.
  bind_as H ext Hext. cbv zeta in H.
  rewrite !getitem_setitem_other in H by discriminate.
  bind_as H g Hg. bind_as H cond Hcond. bind_as H yb Hyb.
  exists ext, g, yb.
  destruct (comparable g) eqn:Hcmp.
  - rewrite (le_scalar_comparable _ _ Hcmp) in Hcond. inversion Hcond; subst cond.
    inversion H. auto.
  - rewrite (le_scalar_not_comparable _ _ Hcmp) in Hcond. discriminate.
Qed.

Lemma in_clean_names name :
  existsb (String.eqb name) clean_names = false ->
  String.eqb name "Exterior2nd" = false /\ String.eqb name "GarageYrBlt" = false /\
  String.eqb name "1stFlrSF" = false /\ String.eqb name "2ndFlrSF" = false /\
  String.eqb name "3SsnPorch" = false /\ String.eqb name "FirstFlrSF" = false /\
  String.eqb name "SecondFlrSF" = false /\ String.eqb name "Threeseasonporch" = false.
Proof.
  unfold clean_names. simpl existsb. intro H.
  repeat (apply orb_false_elim in H; destruct H as [? H]).
  repeat split; assumption.
Qed.

Lemma clean_column_kept df df' name :
  clean df = Ok df' -> existsb (String.eqb name) clean_names = false ->
  getitem df' name = getitem df name.
Proof.
  intros H Hname.
  destruct (clean_form df df' H) as [ext [g [yb [Hext [Hg [Hyb [Hcmp ->]]]]]]].
  destruct (in_clean_names name Hname) as [H1 [H2 [H3 [H4 [H5 [H6 [H7 H8]]]]]]].
  unfold getitem, rename, setitem; simpl columns.
  rewrite clean_keeps by assumption.
  rewrite !lookup_assign_other; auto.
  - intros <-. rewrite String.eqb_refl in H1. discriminate.
  - intros <-. rewrite String.eqb_refl in H2. discriminate.
Qed.

(** [clean] leaves the row index, the number of columns and every column it
    does not name as they are. *)
Theorem clean_other_columns df df' :
  clean df = Ok df' ->
  index df' = index df /\
  length (columns df') = length (columns df) /\
  forall name, existsb (String.eqb name) clean_names = false ->
               getitem df' name = getitem df name.
Proof.
  intro H. destruct (clean_form df df' H) as [ext [g [yb [Hext [Hg [Hyb [Hcmp ->]]]]]]].
  split; [reflexivity|]. split.
  - unfold rename, setitem; simpl columns. rewrite length_map.
    apply getitem_Ok in Hext, Hg.
    rewrite <- (length_map fst), (assign_names _ _ g), (assign_names _ _ ext),
      length_map; auto.
    now rewrite lookup_assign_other by discriminate.
  - intros name Hname. now apply clean_column_kept.
Qed.

Lemma clean_other_columns_witness :
  exists df', clean houses = Ok df' /\
    getitem df' "LotFrontage" = Ok (mkSeries number [Num (65 # 1); NaN; Num (68 # 1)]).
Proof.
  destruct (clean houses) as [df'|e] eqn:E; [|vm_compute in E; discriminate].
  exists df'. split; [reflexivity|].
  destruct (clean_other_columns houses df' E) as [_ [_ H]].
  rewrite (H "LotFrontage" eq_refl). reflexivity.
Defined.

Lemma lookup_rename_gone mapping old cols :
  (forall n, renamed mapping n <> old) ->
  lookup old (map (fun c => (renamed mapping (fst c), snd c)) cols) = None.
Proof.
  intro H. induction cols as [|[n s] rest IH]; simpl; auto.
  destruct (String.eqb (renamed mapping n) old) eqn:E; auto.
  apply String.eqb_eq in E. now apply H in E.
Qed.

Lemma lookup_rename_moved mapping old new cols :
  renamed mapping old = new ->
  (forall n, renamed mapping n = new -> n = old \/ n = new) ->
  lookup new cols = None ->
  lookup new (map (fun c => (renamed mapping (fst c), snd c)) cols) = lookup old cols.
Proof.
  intros Hold Hinv. induction cols as [|[n s] rest IH]; simpl; auto.
  destruct (String.eqb n new) eqn:En; [discriminate|]. intro Hnone.
  destruct (String.eqb n old) eqn:Eo.
  - apply String.eqb_eq in Eo; subst n. now rewrite Hold, String.eqb_refl.
  - destruct (String.eqb (renamed mapping n) new) eqn:E; auto.
    apply String.eqb_eq in E. destruct (Hinv n E) as [->| ->].
    + rewrite String.eqb_refl in Eo. discriminate.
    + rewrite String.eqb_refl in En. discriminate.
Qed.

Ltac renamed_cases n :=
  unfold clean_renaming, renamed;
  destruct (String.eqb "1stFlrSF" n) eqn:?E1;
  [|destruct (String.eqb "2ndFlrSF" n) eqn:?E2;
    [|destruct (String.eqb "3SsnPorch" n) eqn:?E3]];
  repeat match goal with
         | H : String.eqb _ _ = true |- _ => apply String.eqb_eq in H
         | H : String.eqb _ _ = false |- _ => apply String.eqb_neq in H
         end.

Lemma clean_porch_renamed df df' :
  clean df = Ok df' -> has_column df "Threeseasonporch" = false ->
  getitem df' "Threeseasonporch" = getitem df "3SsnPorch".
Proof.
  intro H. destruct (clean_form df df' H) as [ext [g [yb [Hext [Hg [Hyb [Hcmp ->]]]]]]].
  unfold has_column, getitem, rename, setitem; simpl columns. intro Hnew.
  rewrite (lookup_rename_moved clean_renaming "3SsnPorch").
  - now rewrite !lookup_assign_other by discriminate.
  - reflexivity.
  - intros n; renamed_cases n; subst; intro Hn; auto; discriminate.
  - rewrite !lookup_assign_other by discriminate.
    destruct (lookup "Threeseasonporch" (columns df)); [discriminate|reflexivity].
Qed.

(** After [clean] no column is named [1stFlrSF], [2ndFlrSF] or [3SsnPorch];
    the columns that had these names are [FirstFlrSF], [SecondFlrSF] and
    [Threeseasonporch], unless the frame already had a column of the new
    name. *)
Theorem clean_renames df df' :
  clean df = Ok df' ->
  (has_column df' "1stFlrSF" = false /\ has_column df' "2ndFlrSF" = false /\
   has_column df' "3SsnPorch" = false) /\
  (has_column df "FirstFlrSF" = false ->
   getitem df' "FirstFlrSF" = getitem df "1stFlrSF") /\
  (has_column df "SecondFlrSF" = false ->
   getitem df' "SecondFlrSF" = getitem df "2ndFlrSF") /\
  (has_column df "Threeseasonporch" = false ->
   getitem df' "Threeseasonporch" = getitem df "3SsnPorch").
Proof.
  intro H. destruct (clean_form df df' H) as [ext [g [yb [Hext [Hg [Hyb [Hcmp ->]]]]]]].
  split; [|split; [|split]].
  - unfold has_column, rename; simpl columns.
    rewrite !(lookup_rename_gone clean_renaming); auto;
      intros n; renamed_cases n; subst; congruence.
  - unfold has_column, getitem, rename, setitem; simpl columns. intro Hnew.
    rewrite (lookup_rename_moved clean_renaming "1stFlrSF").
    + now rewrite !lookup_assign_other by discriminate.
    + reflexivity.
    + intros n; renamed_cases n; subst; intro Hn; auto; discriminate.
    + rewrite !lookup_assign_other by discriminate.
      destruct (lookup "FirstFlrSF" (columns df)); [discriminate|reflexivity].
  - unfold has_column, getitem, rename, setitem; simpl columns. intro Hnew.
    rewrite (lookup_rename_moved clean_renaming "2ndFlrSF").
    + now rewrite !lookup_assign_other by discriminate.
    + reflexivity.
    + intros n; renamed_cases n; subst; intro Hn; auto; discriminate.
    + rewrite !lookup_assign_other by discriminate.
      destruct (lookup "SecondFlrSF" (columns df)); [discriminate|reflexivity].
  - now apply clean_porch_renamed.
Qed.

Lemma clean_renames_witness :
  exists df', clean houses = Ok df' /\
    has_column df' "3SsnPorch" = false /\
    getitem df' "Threeseasonporch" = Ok (mkSeries number [Num 0; NaN; Num 0]).
Proof.
  destruct (clean houses) as [df'|e] eqn:E; [|vm_compute in E; discriminate].
  exists df'. split; [reflexivity|].
  destruct (clean_renames houses df' E) as [[_ [_ Hgone]] [_ [_ Hmoved]]].
  split; [exact Hgone|]. rewrite (Hmoved eq_refl). reflexivity.
Defined.

Lemma replaced_exterior c :
  isin (replaced exterior_corrections c) exterior_typos = false /\
  (isin c exterior_typos = false -> replaced exterior_corrections c = c).
Proof.
  destruct c as [|q|s]; try (split; reflexivity).
  unfold exterior_corrections, exterior_typos, replaced, isin, existsb, cell_eqb.
  destruct (String.eqb "Brk Cmn" s) eqn:E1.
  { apply String.eqb_eq in E1; subst s. split; [reflexivity|discriminate]. }
  destruct (String.eqb "Wd Shng" s) eqn:E2.
  { apply String.eqb_eq in E2; subst s. split; [reflexivity|discriminate]. }
  destruct (String.eqb "CmentBd" s) eqn:E3.
  { apply String.eqb_eq in E3; subst s. split; [reflexivity|discriminate]. }
  rewrite String.eqb_sym in E1, E2, E3. rewrite E1, E2, E3. auto.
Qed.

(** When [Exterior2nd] is not categorical, after [clean] the column holds
    none of the spellings ["Brk Cmn"], ["Wd Shng"], ["CmentBd"]: they have
    become ["BrkComm"], ["Wd Sdng"] and ["CemntBd"], and every other cell of
    the column, its dtype and its length are as they were. *)
Theorem clean_Exterior2nd df df' ext :
  clean df = Ok df' -> getitem df "Exterior2nd" = Ok ext ->
  is_category (dt ext) = false ->
  exists ext',
    getitem df' "Exterior2nd" = Ok ext' /\
    dt ext' = dt ext /\ length (values ext') = length (values ext) /\
    forall i,
      isin (at_row ext' i) exterior_typos = false /\
      (isin (at_row ext i) exterior_typos = false -> at_row ext' i = at_row ext i) /\
      (at_row ext i = Str "Brk Cmn" -> at_row ext' i = Str "BrkComm") /\
      (at_row ext i = Str "Wd Shng" -> at_row ext' i = Str "Wd Sdng") /\
      (at_row ext i = Str "CmentBd" -> at_row ext' i = Str "CemntBd").
Proof.
  intros H Hext _.
  destruct (clean_form df df' H) as [ext0 [g [yb [Hext0 [Hg [Hyb [Hcmp ->]]]]]]].
  rewrite Hext in Hext0. inversion Hext0; subst ext0. clear Hext0.
  exists (replace exterior_corrections ext).
  split.
  { unfold getitem, rename, setitem; simpl columns.
    rewrite clean_keeps by reflexivity.
    rewrite lookup_assign_other by discriminate.
    now rewrite lookup_assign_same. }
  split; [reflexivity|]. split; [apply length_map|].
  intro i.
  assert (Hat : at_row (replace exterior_corrections ext) i
                = replaced exterior_corrections (at_row ext i)).
  { unfold at_row, replace; simpl values.
    change NaN with (replaced exterior_corrections NaN) at 1. apply map_nth. }
  rewrite Hat. destruct (replaced_exterior (at_row ext i)) as [H1 H2].
  repeat split; auto; intros ->; reflexivity.
Qed.

Lemma clean_Exterior2nd_witness :
  exists df' ext',
    clean garage_frame = Ok df' /\ getitem df' "Exterior2nd" = Ok ext' /\
    at_row ext' 0 = Str "BrkComm" /\ at_row ext' 1 = Str "VinylSd".
Proof.
  destruct (clean garage_frame) as [df'|e] eqn:E; [|vm_compute in E; discriminate].
  destruct (clean_Exterior2nd garage_frame df'
              (mkSeries object [Str "Brk Cmn"; Str "VinylSd"; NaN]) E eq_refl eq_refl)
    as [ext' [Hget [_ [_ Hcells]]]].
  exists df', ext'. split; [reflexivity|]. split; [exact Hget|]. split.
  - destruct (Hcells 0%nat) as [_ [_ [H _]]]. now apply H.
  - destruct (Hcells 1%nat) as [_ [H _]]. now rewrite H.
Defined.

(** ** Running [clean] twice *)

Lemma assign_id name s cols : lookup name cols = Some s -> assign name s cols = cols.
Proof.
  induction cols as [|[n old] rest IH]; simpl; [discriminate|].
  destruct (String.eqb n name) eqn:E.
  - intro H. inversion H. reflexivity.
  - intro H. now rewrite IH.
Qed.

Lemma where_cells_again (f : cell -> bool) vs :
  forall other,
    where_cells (where_cells vs (map f vs) other)
                (map f (where_cells vs (map f vs) other)) other
    = where_cells vs (map f vs) other.
Proof.
  induction vs as [|v vs IH]; intros [|o other]; simpl; auto.
  rewrite IH. destruct (f v) eqn:Ev.
  - now rewrite Ev.
  - now destruct (f o).
Qed.

Lemma where_cells_no_str vs cond :
  forall other,
    forallb (fun c => negb (is_str c)) vs = true ->
    forallb (fun c => negb (is_str c)) other = true ->
    forallb (fun c => negb (is_str c)) (where_cells vs cond other) = true.
Proof.
  revert cond. induction vs as [|v vs IH]; intros [|c cond] [|o other]; simpl; auto.
  intros Hv Ho. apply andb_prop in Hv, Ho. destruct Hv as [Hv Hvs], Ho as [Ho Hos].
  rewrite (IH cond other Hvs Hos). destruct c; [now rewrite Hv | now rewrite Ho].
Qed.

Lemma common_dtype_again a b : common_dtype (common_dtype a b) b = common_dtype a b.
Proof.
  unfold common_dtype. destruct (is_number a), (is_number b); reflexivity.
Qed.

Lemma renamed_again n :
  renamed clean_renaming (renamed clean_renaming n) = renamed clean_renaming n.
Proof.
  renamed_cases n; subst; try reflexivity.
  unfold renamed.
  destruct (String.eqb "1stFlrSF" n) eqn:F1; [apply String.eqb_eq in F1; congruence|].
  destruct (String.eqb "2ndFlrSF" n) eqn:F2; [apply String.eqb_eq in F2; congruence|].
  destruct (String.eqb "3SsnPorch" n) eqn:F3; [apply String.eqb_eq in F3; congruence|].
  reflexivity.
Qed.

(** Running [clean] on the frame [clean] returned changes nothing: when
    [Exterior2nd] is not categorical and [YearBuilt] holds no string, the
    second run returns the same frame. *)
Theorem clean_idempotent df df' ext yb :
  clean df = Ok df' ->
  getitem df "Exterior2nd" = Ok ext -> is_category (dt ext) = false ->
  getitem df "YearBuilt" = Ok yb -> no_str yb = true ->
  clean df' = Ok df'.
Proof.
  intros H Hext0 _ Hyb Hstr.
  destruct (clean_form df df' H) as [ext1 [g [yb0 [Hext [Hg [Hyb0 [Hcmp Hdf']]]]]]].
  rewrite Hext0 in Hext. inversion Hext; subst ext1. clear Hext. rename Hext0 into Hext.
  rewrite Hyb in Hyb0. inversion Hyb0; subst yb0. clear Hyb0.
  set (ext' := replace exterior_corrections ext) in *.
  set (g' := where_ g (map (at_most (2010 # 1)) (values g)) yb) in *.
  assert (Hext' : getitem df' "Exterior2nd" = Ok ext').
  { subst df'. unfold getitem, rename, setitem; simpl columns.
    rewrite clean_keeps by reflexivity.
    rewrite lookup_assign_other by discriminate. now rewrite lookup_assign_same. }
  assert (Hg' : getitem df' "GarageYrBlt" = Ok g').
  { subst df'. unfold getitem, rename, setitem; simpl columns.
    rewrite clean_keeps by reflexivity. now rewrite lookup_assign_same. }
  assert (Hyb' : getitem df' "YearBuilt" = Ok yb).
  { subst df'. unfold getitem, rename, setitem; simpl columns.
    rewrite clean_keeps by reflexivity.
    rewrite !lookup_assign_other by discriminate.
    pose proof (proj1 (getitem_Ok _ _ _) Hyb) as Hl. now rewrite Hl. }
  assert (Hrep : replace exterior_corrections ext' = ext').
  { unfold ext', replace; simpl. f_equal. rewrite map_map. apply map_ext.
    intro c. destruct (replaced_exterior c) as [H1 _].
    now destruct (replaced_exterior (replaced exterior_corrections c)) as [_ H2]; auto. }
  assert (Hcmp' : comparable g' = true).
  { unfold comparable, g', where_; simpl.
    apply andb_prop in Hcmp. destruct Hcmp as [_ Hgs].
    rewrite where_cells_no_str; auto.
    unfold common_dtype. destruct (is_number (dt g) && is_number (dt yb)); reflexivity. }
  assert (Hwhere : where_ g' (map (at_most (2010 # 1)) (values g')) yb = g').
  { unfold g', where_; simpl. now rewrite where_cells_again, common_dtype_again. }
  unfold clean. rewrite Hext'. simpl bind.
  fold exterior_corrections. rewrite Hrep.
  assert (Hset1 : setitem df' "Exterior2nd" ext' = df').
  { unfold setitem. apply getitem_Ok in Hext'. rewrite (assign_id _ _ _ Hext').
    now destruct df'. }
  rewrite Hset1, Hg'. simpl bind.
  rewrite (le_scalar_comparable _ _ Hcmp'). simpl bind. rewrite Hyb'. simpl bind.
  change (where_cells (values g) (map (at_most (2010 # 1)) (values g)) (values yb))
    with (values g').
  rewrite Hwhere.
  assert (Hset2 : setitem df' "GarageYrBlt" g' = df').
  { unfold setitem. apply getitem_Ok in Hg'. rewrite (assign_id _ _ _ Hg').
    now destruct df'. }
  rewrite Hset2. f_equal.
  rewrite Hdf' at 2. rewrite Hdf' at 1. unfold rename; simpl. f_equal.
  rewrite map_map. apply map_ext. intros [n s]. simpl fst; simpl snd.
  f_equal. apply (renamed_again n).
Qed.

Lemma clean_idempotent_witness :
  exists df', clean houses = Ok df' /\ clean df' = Ok df'.
Proof.
  destruct (clean houses) as [df'|e] eqn:E; [|vm_compute in E; discriminate].
  exists df'. split; [reflexivity|].
  apply (clean_idempotent houses df'
           (mkSeries object [Str "TA"; NaN; Str "Gd"])
           (mkSeries number [Num (2003 # 1); Num (1976 # 1); Num (2001 # 1)]) E);
    reflexivity.
Defined.

(** ** [encode]: outcome and what it leaves alone *)

Lemma has_column_names df name :
  has_column df name = true <-> In name (map fst (columns df)).
Proof.
  unfold has_column. induction (columns df) as [|[n s] rest IH]; simpl.
  - split; [discriminate|contradiction].
  - destruct (String.eqb n name) eqn:E.
    + apply String.eqb_eq in E. split; auto.
    + apply String.eqb_neq in E. rewrite IH. split; auto.
      intros [H|H]; [contradiction|assumption].
Qed.

Lemma for_each_Ok_or {A S : Type} (body : S -> A -> result S) (e : exn) xs :
  (forall s a, (exists s', body s a = Ok s') \/ body s a = Raise e) ->
  forall s, (exists s', for_each body xs s = Ok s') \/ for_each body xs s = Raise e.
Proof.
  intro Hstep. induction xs as [|x rest IH]; simpl; intro s.
  - left. eauto.
  - destruct (Hstep s x) as [[s' Hs']|Hraise].
    + rewrite Hs'. simpl bind. apply IH.
    + rewrite Hraise. simpl. now right.
Qed.

Lemma encode_Ok_or_KeyError df :
  (exists df', encode df = Ok df') \/ encode df = Raise KeyError.
Proof.
  unfold encode.
  destruct (for_each_Ok_or encode_nominal KeyError features_nom) with (s := df)
    as [[d1 H1]|H1].
  - intros s a. destruct (has_column s a) eqn:E.
    + left. now apply encode_nominal_total.
    + right. unfold encode_nominal. now rewrite (getitem_missing _ _ E).
  - rewrite H1. simpl bind.
    apply (for_each_Ok_or encode_ordinal KeyError ordered_levels).
    intros s a. destruct (has_column s (fst a)) eqn:E.
    + left. now apply encode_ordinal_total.
    + right. unfold encode_ordinal. now rewrite (getitem_missing _ _ E).
  - rewrite H1. simpl. now right.
Qed.

(** [encode] returns exactly when the frame has every listed feature; when
    one is missing it raises [KeyError], and it raises nothing else. *)
Theorem encode_outcome df :
  match encode df with
  | Ok _ => forall name, listed name -> has_column df name = true
  | Raise KeyError => exists name, listed name /\ has_column df name = false
  | Raise _ => False
  end.
Proof.
  destruct (encode_Ok_or_KeyError df) as [[df' H]|H]; rewrite H.
  - intros name Hname.
    destruct (encode_categorical df df' H) as [Hnone _].
    destruct (Hnone name Hname) as [s [_ [_ [Hs _]]]].
    apply has_column_names. rewrite <- (encode_names df df' H).
    apply has_column_names, has_column_getitem. eauto.
  - destruct (forallb (has_column df) listed_features) eqn:E.
    + exfalso. destruct (encode_total df) as [df' Hdf']; [|congruence].
      intros name Hname. rewrite forallb_forall in E. apply E.
      unfold listed_features. apply in_or_app. exact Hname.
    + assert (Hex : existsb (fun n => negb (has_column df n)) listed_features = true).
      { clear H. induction listed_features as [|n rest IH]; simpl in *; [discriminate|].
        destruct (has_column df n); simpl in *; auto. }
      apply existsb_exists in Hex. destruct Hex as [name [Hin Hneg]].
      exists name. split.
      * unfold listed_features in Hin. apply in_app_or in Hin. exact Hin.
      * now apply negb_true_iff.
Qed.

(** [encode] keeps the row index, the column names and their order, and every
    column that is not a listed feature. *)
Theorem encode_other_columns df df' :
  encode df = Ok df' ->
  index df' = index df /\
  map fst (columns df') = map fst (columns df) /\
  forall name, listedb name = false -> getitem df' name = getitem df name.
Proof.
  intro H. split; [now apply encode_index|]. split; [now apply encode_names|].
  intros name Hname. apply (encode_other df df' name H).
  intro Hl. apply listed_listedb in Hl. congruence.
Qed.

Lemma encode_other_columns_witness :
  exists df', encode houses = Ok df' /\
    getitem df' "LotFrontage" = Ok (mkSeries number [Num (65 # 1); NaN; Num (68 # 1)]).
Proof.
  destruct (encode houses) as [df'|e] eqn:E; [|vm_compute in E; discriminate].
  exists df'. split; [reflexivity|].
  destruct (encode_other_columns houses df' E) as [_ [_ H]].
  rewrite (H "LotFrontage" eq_refl). reflexivity.
Defined.

(** ** [encode]: the values of the listed features *)

Lemma cell_eqb_refl c : isna c = false -> cell_eqb c c = true.
Proof.
  destruct c as [|q|s]; simpl; intro H; [discriminate| |apply String.eqb_refl].
  apply Qeq_bool_iff. reflexivity.
Qed.

Lemma cell_eqb_isna a b : cell_eqb a b = true -> isna a = false /\ isna b = false.
Proof. destruct a, b; simpl; intro H; try discriminate; auto. Qed.

Lemma existsb_insert_sorted p c l :
  existsb p (insert_sorted c l) = p c || existsb p l.
Proof.
  induction l as [|d rest IH]; simpl; [reflexivity|].
  destruct (cell_leb c d); simpl; [reflexivity|].
  rewrite IH. destruct (p c), (p d); reflexivity.
Qed.

Lemma existsb_sort_cells p l : existsb p (sort_cells l) = existsb p l.
Proof.
  induction l as [|c rest IH]; simpl; [reflexivity|].
  now rewrite existsb_insert_sorted, IH.
Qed.

Lemma unique_covers v vs :
  In v vs -> isna v = false ->
  forall seen, existsb (cell_eqb v) seen = true \/
               existsb (cell_eqb v) (unique seen vs) = true.
Proof.
  intros Hin Hv. induction vs as [|v0 rest IH]; [contradiction|].
  intro seen. simpl. destruct Hin as [->|Hin].
  - rewrite Hv. simpl. destruct (existsb (cell_eqb v) seen) eqn:E; [now left|].
    right. simpl. now rewrite cell_eqb_refl.
  - destruct (isna v0 || existsb (cell_eqb v0) seen).
    + apply (IH Hin).
    + destruct (IH Hin (v0 :: seen)) as [H|H].
      * simpl in H. apply orb_true_iff in H. destruct H as [H|H]; [|now left].
        right. simpl. now rewrite H.
      * right. simpl. rewrite H. apply orb_true_r.
Qed.

Lemma astype_category_in_categories s :
  in_categories s = true -> in_categories (astype_category s) = true.
Proof.
  unfold astype_category. destruct (dt s) eqn:E; intro H; try exact H.
  - unfold in_categories. simpl. apply forallb_forall. intros c Hc.
    destruct (isna c) eqn:Ec; [reflexivity|]. simpl. unfold isin.
    rewrite existsb_sort_cells.
    destruct (unique_covers c (values s) Hc Ec []) as [H'|H']; [discriminate|exact H'].
  - unfold in_categories. simpl. apply forallb_forall. intros c Hc.
    destruct (isna c) eqn:Ec; [reflexivity|]. simpl. unfold isin.
    rewrite existsb_sort_cells.
    destruct (unique_covers c (values s) Hc Ec []) as [H'|H']; [discriminate|exact H'].
Qed.

Lemma add_categories_in_categories s c s' :
  add_categories s c = Ok s' -> in_categories s = true -> in_categories s' = true.
Proof.
  unfold add_categories, in_categories. destruct (dt s) as [| |cats ord]; try discriminate.
  destruct (isin c cats); [discriminate|]. intros [= <-]. simpl.
  rewrite !forallb_forall. intros H x Hx. specialize (H x Hx).
  apply orb_true_iff in H. apply orb_true_iff. destruct H as [H|H]; [now left|right].
  unfold isin in *. rewrite existsb_app, H. reflexivity.
Qed.

(** What one step of the nominal loop makes of its column. *)
Lemma encode_nominal_form df name df' :
  encode_nominal df name = Ok df' ->
  exists s s',
    getitem df name = Ok s /\ getitem df' name = Ok s' /\
    values s' = values s /\
    (in_categories s = true -> in_categories s' = true).
Proof.
  unfold encode_nominal. intro H.
  destruct (getitem df name) as [s|e] eqn:Hs; [|discriminate]. simpl bind in H.
  rewrite getitem_setitem_same in H. simpl bind in H.
  assert (Hv : values (astype_category s) = values s).
  { unfold astype_category. destruct (dt s); reflexivity. }
  destruct (cat_categories (astype_category s)) as [cats|e] eqn:Hc; [|discriminate].
  simpl bind in H.
  destruct (negb (isin (Str "None") cats)).
  - destruct (add_categories (astype_category s) (Str "None")) as [s'|e] eqn:Ha;
      [|discriminate].
    simpl in H. injection H as <-.
    exists s, s'. split; [reflexivity|]. split; [apply getitem_setitem_same|].
    split.
    + rewrite <- Hv. unfold add_categories in Ha.
      destruct (dt (astype_category s)); try discriminate.
      destruct (isin _ _); [discriminate|]. now injection Ha as <-.
    + intro Hin. apply (add_categories_in_categories _ _ _ Ha).
      now apply astype_category_in_categories.
  - injection H as <-. exists s, (astype_category s).
    split; [reflexivity|]. split; [apply getitem_setitem_same|]. split; [exact Hv|].
    apply astype_category_in_categories.
Qed.

Lemma nominal_loop_values names df d1 name s :
  for_each encode_nominal names df = Ok d1 ->
  getitem df name = Ok s ->
  exists s1, getitem d1 name = Ok s1 /\ values s1 = values s /\
             (in_categories s = true -> in_categories s1 = true).
Proof.
  intros H Hs.
  apply (for_each_inv encode_nominal
           (fun d => exists s1, getitem d name = Ok s1 /\ values s1 = values s /\
                                (in_categories s = true -> in_categories s1 = true))
           names) with (s := df); [|eauto|exact H].
  intros d a d' _ [s1 [H1 [Hv Hc]]] Hstep.
  destruct (string_dec a name) as [->|Hne].
  - destruct (encode_nominal_form _ _ _ Hstep) as [t [t' [Ht [Ht' [Hv' Hc']]]]].
    rewrite H1 in Ht. injection Ht as <-.
    exists t'. split; [exact Ht'|]. split; [congruence|]. auto.
  - exists s1. rewrite (encode_nominal_other _ _ _ _ Hstep Hne). auto.
Qed.

Lemma ordinal_loop_values items :
  NoDup (map fst items) ->
  forall df d1, for_each encode_ordinal items df = Ok d1 ->
  (forall item s, In item items -> getitem df (fst item) = Ok s ->
                  getitem d1 (fst item) = Ok (astype_levels (snd item) s)) /\
  (forall name, ~ In name (map fst items) -> getitem d1 name = getitem df name).
Proof.
  induction items as [|x rest IH]; intros Hnd df d1 H.
  - simpl in H. injection H as <-. split; [contradiction|reflexivity].
  - simpl in H. inversion Hnd as [|? ? Hx Hrest]; subst.
    unfold encode_ordinal at 1 in H.
    destruct (getitem df (fst x)) as [sx|e] eqn:Hsx; [|discriminate].
    simpl bind in H. destruct (IH Hrest _ _ H) as [IHin IHout]. split.
    + intros item s [<-|Hin] Hs.
      * rewrite (IHout _ Hx), getitem_setitem_same. congruence.
      * apply IHin; [exact Hin|]. rewrite getitem_setitem_other; [exact Hs|].
        intro Heq. apply Hx. rewrite Heq. now apply in_map.
    + intros name Hname. rewrite IHout.
      * apply getitem_setitem_other. intro Heq. apply Hname. now left.
      * intro Hin. apply Hname. now right.
Qed.

Lemma ordered_levels_NoDup : NoDup (map fst ordered_levels).
Proof. apply distinct_NoDup. reflexivity. Qed.

Lemma encode_ordinal_column df df' item s :
  encode df = Ok df' -> In item ordered_levels -> getitem df (fst item) = Ok s ->
  getitem df' (fst item)
  = Ok (mkSeries (category (snd item) true) (map (recode (snd item)) (values s))).
Proof.
  unfold encode. intros H Hitem Hs. bind_as H d1 H1.
  destruct (nominal_loop_values _ _ _ _ _ H1 Hs) as [s1 [Hs1 [Hv _]]].
  destruct (ordinal_loop_values _ ordered_levels_NoDup _ _ H) as [Hin _].
  rewrite (Hin item s1 Hitem Hs1). unfold astype_levels. now rewrite Hv.
Qed.

Lemma recode_outside levels c : isin c levels = false -> recode levels c = NaN.
Proof.
  unfold recode, isin. intro H.
  destruct (find (cell_eqb c) levels) as [l|] eqn:E; [|reflexivity].
  apply find_some in E. destruct E as [Hin Heq].
  assert (existsb (cell_eqb c) levels = true) by (apply existsb_exists; eauto).
  congruence.
Qed.

Lemma recode_inside levels c :
  isna (recode levels c) = true \/ isin (recode levels c) levels = true.
Proof.
  unfold recode. destruct (find (cell_eqb c) levels) as [l|] eqn:E; [|now left].
  right. apply find_some in E. destruct E as [Hin Heq].
  apply existsb_exists. exists l. split; [exact Hin|].
  apply cell_eqb_refl. now apply cell_eqb_isna in Heq.
Qed.

(** After [encode], an ordinal feature holds, row by row, the level its
    value matches; a value that is none of the levels has become missing.
    The scale of [OverallQual] and [OverallCond] is [range(10)], so the top
    rating, 10, is lost. *)
Theorem encode_ordinal_values df df' item s :
  encode df = Ok df' -> In item ordered_levels -> getitem df (fst item) = Ok s ->
  exists s',
    getitem df' (fst item) = Ok s' /\
    dt s' = category (snd item) true /\
    values s' = map (recode (snd item)) (values s) /\
    (forall i, isin (at_row s i) (snd item) = false -> at_row s' i = NaN) /\
    (In (fst item) ["OverallQual"; "OverallCond"] ->
     forall i, cell_eqb (at_row s i) (Num (10 # 1)) = true -> at_row s' i = NaN).
Proof.
  intros H Hitem Hs. eexists. split; [apply (encode_ordinal_column _ _ _ _ H Hitem Hs)|].
  split; [reflexivity|]. split; [reflexivity|].
  assert (Hout : forall i, isin (at_row s i) (snd item) = false ->
            at_row (mkSeries (category (snd item) true)
                             (map (recode (snd item)) (values s))) i = NaN).
  { intros i Hi. unfold at_row in *. simpl.
    destruct (Nat.lt_ge_cases i (length (values s))) as [Hlt|Hge].
    - rewrite (nth_indep _ NaN (recode (snd item) NaN)) by (now rewrite length_map).
      rewrite map_nth. now apply recode_outside.
    - apply nth_overflow. now rewrite length_map. }
  split; [exact Hout|].
  intros Hname i Hten. apply Hout.
  assert (Hlevels : snd item = Str "None" :: ten_levels).
  { clear - Hitem Hname. unfold ordered_levels in Hitem. apply in_map_iff in Hitem.
    destruct Hitem as [[n l] [<- Hin]]. simpl in *.
    unfold ordered_levels_base in Hin. simpl in Hin.
    repeat (destruct Hin as [Hin|Hin];
            [injection Hin as <- <-;
             first [reflexivity
                   | exfalso; simpl in Hname;
                     repeat (destruct Hname as [Hname|Hname]; try discriminate);
                     contradiction]|]).
    contradiction. }
  rewrite Hlevels. destruct (at_row s i) as [|q|t]; try discriminate.
  simpl in Hten. apply Qeq_bool_iff in Hten.
  unfold isin. simpl.
  rewrite !orb_false_iff. repeat split; try reflexivity;
    apply not_true_is_false; intro Habs; apply Qeq_bool_iff in Habs;
    rewrite Hten in Habs; discriminate.
Qed.

Lemma encode_ordinal_values_witness :
  exists df' s',
    encode houses = Ok df' /\ getitem df' "OverallQual" = Ok s' /\
    at_row s' 0 = Num (7 # 1) /\ at_row s' 1 = NaN.
Proof.
  destruct (encode houses) as [df'|e] eqn:E; [|vm_compute in E; discriminate].
  destruct (encode_ordinal_values houses df' ("OverallQual", Str "None" :: ten_levels)
              (mkSeries number [Num (7 # 1); Num (10 # 1); Num (5 # 1)]) E)
    as [s' [Hs' [_ [Hv [_ Hten]]]]].
  - vm_compute. tauto.
  - reflexivity.
  - exists df', s'. split; [reflexivity|]. split; [exact Hs'|]. split.
    + unfold at_row. rewrite Hv. reflexivity.
    + apply Hten; [simpl; auto|reflexivity].
Defined.

Lemma encode_nominal_column df df' name s :
  encode df = Ok df' ->
  In name features_nom -> ~ In name (map fst ordered_levels) ->
  getitem df name = Ok s ->
  exists s',
    getitem df' name = Ok s' /\ values s' = values s /\
    (in_categories s = true -> in_categories s' = true).
Proof.
  unfold encode. intros H Hname Hnot Hs. bind_as H d1 H1.
  destruct (nominal_loop_values _ _ _ _ _ H1 Hs) as [s1 [Hs1 Hrest]].
  destruct (ordinal_loop_values _ ordered_levels_NoDup _ _ H) as [_ Hout].
  exists s1. rewrite (Hout name Hnot). auto.
Qed.

(** After [encode], a nominal feature that is not also in [ordered_levels]
    holds the values it had; its categories cover every value that is not
    missing, unless the column was a categorical that did not. *)
Theorem encode_nominal_values df df' name s :
  encode df = Ok df' ->
  In name features_nom -> ~ In name (map fst ordered_levels) ->
  getitem df name = Ok s ->
  exists s',
    getitem df' name = Ok s' /\ values s' = values s /\
    (in_categories s = true -> in_categories s' = true).
Proof.
  intros H Hname Hnot Hs.
  destruct (encode_nominal_column df df' name s H Hname Hnot Hs) as [s' [Hs' [Hv Hc]]].
  exists s'. split; [exact Hs'|]. split; [exact Hv|exact Hc].
Qed.

Lemma encode_nominal_values_witness :
  exists df' s',
    encode houses = Ok df' /\ getitem df' "MSZoning" = Ok s' /\
    values s' = [Str "TA"; NaN; Str "Gd"] /\ in_categories s' = true.
Proof.
  destruct (encode houses) as [df'|e] eqn:E; [|vm_compute in E; discriminate].
  destruct (encode_nominal_values houses df' "MSZoning"
              (mkSeries object [Str "TA"; NaN; Str "Gd"]) E)
    as [s' [Hs' [Hv Hc]]].
  - simpl. auto.
  - vm_compute. intro H. repeat (destruct H as [H|H]; [discriminate|]). exact H.
  - reflexivity.
  - exists df', s'. split; [reflexivity|]. split; [exact Hs'|]. split; [exact Hv|].
    now apply Hc.
Defined.

(** ** Category codes *)

Lemma code_of_bounds cats c :
  (-1 <= code_of cats c < Z.of_nat (length cats))%Z.
Proof.
  induction cats as [|d rest IH]; simpl length; simpl code_of; [lia|].
  destruct (cell_eqb c d); [lia|].
  destruct (code_of rest c <? 0)%Z eqn:E; [lia|]. apply Z.ltb_ge in E. lia.
Qed.

Lemma code_of_isin cats c :
  (0 <= code_of cats c)%Z <-> isin c cats = true.
Proof.
  unfold isin. induction cats as [|d rest IH]; simpl.
  - split; [lia|discriminate].
  - destruct (cell_eqb c d); simpl; [split; [reflexivity|lia]|].
    rewrite <- IH. destruct (code_of rest c <? 0)%Z eqn:E.
    + apply Z.ltb_lt in E. lia.
    + apply Z.ltb_ge in E. lia.
Qed.

Lemma fillna_in_categories s v s' :
  fillna s v = Ok s' -> in_categories s = true -> in_categories s' = true.
Proof.
  unfold fillna, in_categories. destruct (dt s) as [| |cats ord] eqn:E.
  - intros [= <-] _. simpl. now destruct (_ || _).
  - now intros [= <-] _.
  - destruct (isin v cats) eqn:Hv; [|discriminate]. intros [= <-]. simpl.
    rewrite !forallb_forall. intros H x Hx. apply in_map_iff in Hx.
    destruct Hx as [c [<- Hc]]. unfold fill. destruct (isna c) eqn:Ec.
    + rewrite Hv. apply orb_true_r.
    + specialize (H c Hc). now rewrite Ec in *.
Qed.

Lemma fill_loop_in_categories v names df df' name s :
  isna v = false ->
  for_each (fill_column v) names df = Ok df' ->
  getitem df name = Ok s -> in_categories s = true ->
  exists s', getitem df' name = Ok s' /\ in_categories s' = true /\
             length (values s') = length (values s).
Proof.
  intros Hv H Hs Hin. destruct (fill_loop v names Hv df df' H name) as [Hyes Hno].
  destruct (in_dec string_dec name names) as [Hn|Hn].
  - destruct (Hyes Hn) as [t [Ht [Hfill Hget]]]. rewrite Hs in Ht. injection Ht as <-.
    exists (filled v s). split; [exact Hget|]. split.
    + now apply (fillna_in_categories _ _ _ Hfill).
    + unfold filled. simpl. apply length_map.
  - exists s. rewrite (Hno Hn). auto.
Qed.

Lemma impute_in_categories df df' name s :
  impute df = Ok df' -> getitem df name = Ok s -> in_categories s = true ->
  exists s', getitem df' name = Ok s' /\ in_categories s' = true /\
             length (values s') = length (values s).
Proof.
  unfold impute. intros H Hs Hin. bind_as H d1 H1.
  destruct (fill_loop_in_categories (Num 0) _ _ _ _ _ eq_refl H1 Hs Hin) as [s1 [Hs1 [Hin1 Hl1]]].
  destruct (fill_loop_in_categories (Str "None") _ _ _ _ _ eq_refl H Hs1 Hin1) as [s2 [Hs2 [Hin2 Hl2]]].
  exists s2. split; [exact Hs2|]. split; [exact Hin2|]. congruence.
Qed.

Lemma encode_in_categories df df' name s :
  encode df = Ok df' -> listed name -> getitem df name = Ok s ->
  in_categories s = true ->
  exists s', getitem df' name = Ok s' /\ in_categories s' = true /\
             is_category (dt s') = true /\
             length (values s') = length (values s).
Proof.
  intros H Hname Hs Hin.
  destruct (in_dec string_dec name (map fst ordered_levels)) as [Hord|Hnot].
  - apply in_map_iff in Hord. destruct Hord as [item [<- Hitem]].
    rewrite (encode_ordinal_column _ _ _ _ H Hitem Hs). eexists. split; [reflexivity|].
    split; [|split; [reflexivity|apply length_map]].
    unfold in_categories. simpl. apply forallb_forall. intros c Hc.
    apply in_map_iff in Hc. destruct Hc as [c0 [<- _]].
    apply orb_true_iff. apply recode_inside.
  - destruct Hname as [Hnom|Hord]; [|contradiction].
    destruct (encode_nominal_column _ _ _ _ H Hnom Hnot Hs) as [s' [Hs' [Hv Hc]]].
    exists s'. split; [exact Hs'|]. split; [auto|]. split; [|now rewrite Hv].
    destruct (encode_categorical _ _ H) as [Hnone _].
    destruct (Hnone name (or_introl Hnom)) as [t [cats [ord [Ht [Hdt _]]]]].
    rewrite Hs' in Ht. injection Ht as <-. now rewrite Hdt.
Qed.

Lemma code_of_nth cats c :
  isin c cats = true ->
  exists l, nth_error cats (Z.to_nat (code_of cats c)) = Some l /\ cell_eqb c l = true.
Proof.
  induction cats as [|d rest IH]; [discriminate|].
  unfold isin. simpl. destruct (cell_eqb c d) eqn:E; simpl.
  - intros _. exists d. auto.
  - intro H. destruct (IH H) as [l [Hl Hc]]. apply code_of_isin in H.
    destruct (code_of rest c <? 0)%Z eqn:E'; [apply Z.ltb_lt in E'; lia|].
    exists l. split; [|exact Hc].
    replace (Z.to_nat (code_of rest c + 1)) with (S (Z.to_nat (code_of rest c))) by lia.
    exact Hl.
Qed.

(** After [encode] and [impute], the category code of every row of a listed
    feature is the position of its value among the categories: no code is
    -1.  (For a column that was raw, or a categorical whose values were among
    its categories.) *)
Theorem listed_codes_in_range df d1 d2 name s :
  encode df = Ok d1 -> impute d1 = Ok d2 ->
  listed name -> getitem df name = Ok s -> in_categories s = true ->
  exists s2 cats ord codes,
    getitem d2 name = Ok s2 /\ dt s2 = category cats ord /\
    length (values s2) = length (values s) /\
    cat_codes s2 = Ok codes /\
    forall i, (i < length (values s))%nat ->
      exists k l,
        at_row codes i = Num (inject_Z k) /\
        (0 <= k < Z.of_nat (length cats))%Z /\
        nth_error cats (Z.to_nat k) = Some l /\ cell_eqb (at_row s2 i) l = true.
Proof.
  intros He Hi Hname Hs Hin.
  destruct (encode_in_categories _ _ _ _ He Hname Hs Hin) as [s1 [Hs1 [Hin1 [Hcat Hl1]]]].
  destruct (impute_in_categories _ _ _ _ Hi Hs1 Hin1) as [s2 [Hs2 [Hin2 Hl2]]].
  destruct (impute_keeps_category _ _ _ _ Hi Hs1 Hcat) as [t [Ht Hdt]].
  rewrite Hs2 in Ht. injection Ht as <-.
  assert (Hfull : no_missing s2 = true).
  { apply (impute_no_missing _ _ Hi name s2 Hs2). rewrite Hdt.
    destruct (dt s1); discriminate || (intro; discriminate). }
  destruct (dt s2) as [| |cats ord] eqn:E;
    try (rewrite <- Hdt in Hcat; discriminate).
  exists s2, cats, ord. eexists. split; [exact Hs2|]. split; [exact E|].
  split; [congruence|]. split; [unfold cat_codes; rewrite E; reflexivity|].
  intros i Hlt. rewrite <- Hl1, <- Hl2 in Hlt.
  set (c := at_row s2 i).
  assert (Hc : In c (values s2)) by (apply nth_In; exact Hlt).
  assert (Hisin : isin c cats = true).
  { unfold in_categories in Hin2. rewrite E in Hin2.
    unfold no_missing in Hfull. rewrite forallb_forall in Hin2, Hfull.
    specialize (Hin2 c Hc). specialize (Hfull c Hc).
    destruct (isna c); [discriminate|exact Hin2]. }
  destruct (code_of_nth _ _ Hisin) as [l [Hl Heq]].
  exists (code_of cats c), l. split.
  - unfold at_row. simpl.
    rewrite (nth_indep _ NaN (Num (inject_Z (code_of cats NaN)))) by (now rewrite length_map).
    rewrite (map_nth (fun c => Num (inject_Z (code_of cats c)))). reflexivity.
  - split; [|auto]. pose proof (code_of_bounds cats c). apply code_of_isin in Hisin. lia.
Qed.

Lemma listed_codes_in_range_witness :
  exists d1 d2 s2 codes,
    encode houses = Ok d1 /\ impute d1 = Ok d2 /\
    getitem d2 "MSZoning" = Ok s2 /\ cat_codes s2 = Ok codes /\
    exists k, at_row codes 1 = Num (inject_Z k) /\ (0 <= k)%Z.
Proof.
  destruct (encode houses) as [d1|e] eqn:E; [|vm_compute in E; discriminate].
  destruct (impute d1) as [d2|e] eqn:I;
    [|vm_compute in E; injection E as <-; vm_compute in I; discriminate].
  destruct (listed_codes_in_range houses d1 d2 "MSZoning"
              (mkSeries object [Str "TA"; NaN; Str "Gd"]) E I)
    as [s2 [cats [ord [codes [Hs2 [_ [_ [Hcodes Hrows]]]]]]]].
  - left. simpl. auto.
  - reflexivity.
  - reflexivity.
  - destruct (Hrows 1%nat) as [k [l [Hk [Hrange _]]]]; [simpl; lia|].
    exists d1, d2, s2, codes. repeat (split; [reflexivity || assumption|]).
    exists k. split; [exact Hk|lia].
Defined.

(** ** [impute] *)

Lemma filled_same v s : no_missing s = true -> filled v s = s.
Proof.
  unfold no_missing, filled. intro H. rewrite (fill_no_missing v _ H).
  destruct s as [d vs]. simpl in *. f_equal.
  destruct d; try reflexivity.
  assert (Hex : existsb isna vs = false).
  { clear - H. induction vs as [|c rest IH]; simpl in *; [reflexivity|].
    apply andb_true_iff in H. destruct H as [Hc Hrest].
    rewrite (IH Hrest). destruct (isna c); [discriminate|reflexivity]. }
  rewrite Hex. simpl. now rewrite orb_true_r.
Qed.

Lemma for_each_fixed {A S : Type} (body : S -> A -> result S) xs s :
  (forall a, In a xs -> body s a = Ok s) -> for_each body xs s = Ok s.
Proof.
  induction xs as [|x rest IH]; simpl; intro H; [reflexivity|].
  rewrite (H x (or_introl eq_refl)). simpl. apply IH. intros a Ha. apply H. now right.
Qed.

Lemma setitem_same df name s : getitem df name = Ok s -> setitem df name s = df.
Proof.
  intro H. apply getitem_Ok in H. unfold setitem.
  rewrite (assign_id _ _ _ H). now destruct df.
Qed.

Lemma impute_names df df' :
  impute df = Ok df' -> map fst (columns df') = map fst (columns df).
Proof.
  unfold impute. intro H. bind_as H d1 H1.
  rewrite (fill_loop_names _ _ _ _ H). apply (fill_loop_names _ _ _ _ H1).
Qed.

Lemma impute_category_None df df' name s cats ord :
  impute df = Ok df' -> getitem df' name = Ok s -> dt s = category cats ord ->
  isin (Str "None") cats = true.
Proof.
  unfold impute. intros H Hs Hdt. bind_as H d1 H1.
  destruct (fill_loop (Str "None") _ eq_refl _ _ H name) as [Hyes Hno].
  destruct (in_dec string_dec name (select_dtypes is_category d1)) as [Hn|Hn].
  - destruct (Hyes Hn) as [t [Ht [Hfill Hget]]]. rewrite Hs in Hget.
    injection Hget as ->. unfold fillna in Hfill. unfold filled in Hdt. simpl in Hdt.
    destruct (dt t) as [| |cats' ord'] eqn:E.
    + destruct (existsb isna (values t)); discriminate.
    + discriminate.
    + injection Hdt as <- <-. destruct (isin (Str "None") cats'); [reflexivity|discriminate].
  - exfalso. apply Hn. rewrite (Hno Hn) in Hs.
    apply (select_dtypes_In _ _ _ _ Hs). now rewrite Hdt.
Qed.

(** Imputing twice is imputing once: on a frame with distinct column names,
    [impute] returns its own result unchanged when it is applied again. *)
Theorem impute_idempotent df df' :
  NoDup (map fst (columns df)) -> impute df = Ok df' -> impute df' = Ok df'.
Proof.
  intros Hnd H.
  assert (Hnd' : NoDup (map fst (columns df'))) by (now rewrite (impute_names _ _ H)).
  assert (Hstep : forall v kind name,
            In name (select_dtypes kind df') ->
            (forall s, getitem df' name = Ok s -> kind (dt s) = true ->
                       fillna s v = Ok (filled v s) /\ dt s <> object) ->
            fill_column v df' name = Ok df').
  { intros v kind name Hin Hfill.
    destruct (select_dtypes_NoDup _ _ _ Hnd' Hin) as [s [Hs Hk]].
    destruct (Hfill s Hs Hk) as [Hf Hobj].
    unfold fill_column. rewrite Hs. simpl bind. rewrite Hf. simpl bind.
    rewrite (filled_same v s (impute_no_missing _ _ H _ _ Hs Hobj)).
    now rewrite (setitem_same _ _ _ Hs). }
  unfold impute. rewrite for_each_fixed.
  - simpl bind. apply for_each_fixed. intros name Hin.
    apply (Hstep _ is_category _ Hin). intros s Hs Hk.
    destruct (dt s) as [| |cats ord] eqn:E; try discriminate.
    split; [|discriminate].
    apply (fillna_category _ _ cats ord E).
    apply (impute_category_None _ _ _ _ _ _ H Hs E).
  - intros name Hin. apply (Hstep _ is_number _ Hin). intros s Hs Hk.
    destruct (dt s) eqn:E; try discriminate.
    split; [now apply fillna_number|discriminate].
Qed.

Lemma impute_idempotent_witness :
  exists df', impute mixed_frame = Ok df' /\ impute df' = Ok df'.
Proof.
  destruct (impute mixed_frame) as [df'|e] eqn:E; [|vm_compute in E; discriminate].
  exists df'. split; [reflexivity|].
  apply (impute_idempotent mixed_frame df'); [|exact E].
  apply distinct_NoDup. reflexivity.
Defined.

(** ** [label_encode] and [score_dataset] *)

Lemma select_dtypes_distinct kind df :
  NoDup (map fst (columns df)) -> NoDup (select_dtypes kind df).
Proof.
  unfold select_dtypes. generalize (columns df) as cols.
  induction cols as [|c cols IH]; simpl; intro H; [constructor|].
  inversion H as [|? ? Hc Hcols]; subst.
  destruct (kind (dt (snd c))); simpl; auto.
  constructor; auto. intro Hin. apply Hc.
  apply in_map_iff in Hin. destruct Hin as [c0 [Hc0 Hin]].
  apply filter_In in Hin. rewrite <- Hc0. apply in_map. tauto.
Qed.

Lemma label_encoded_not_category s : is_category (dt (label_encoded s)) = false.
Proof.
  unfold label_encoded. destruct (dt s) eqn:E; simpl; try rewrite E; reflexivity.
Qed.

Lemma label_encoded_again s : label_encoded (label_encoded s) = label_encoded s.
Proof. apply label_encoded_other, label_encoded_not_category. Qed.

(** The label-encoding loop on the frame at [X]. *)
Lemma label_all X h d :
  h X = Some (PyFrame d) -> NoDup (map fst (columns d)) ->
  exists h' d',
    py_for (label_column X) (select_dtypes is_category d) h = (h', Ok tt) /\
    h' X = Some (PyFrame d') /\
    (forall r, r <> X -> h' r = h r) /\
    index d' = index d /\
    map fst (columns d') = map fst (columns d) /\
    (forall n s, getitem d n = Ok s -> getitem d' n = Ok (label_encoded s)).
Proof.
  intros Hh Hnd.
  destruct (label_loop X (select_dtypes is_category d)) with (h := h) (d := d)
    as [h' [d' [Hrun [HX [Hfr [Hi [Hn [_ Hc]]]]]]]]; auto.
  { now apply select_dtypes_distinct. }
  { intros n Hin. now apply select_dtypes_NoDup. }
  exists h', d'. repeat split; auto.
  intros n s Hs. rewrite (Hc n s Hs).
  destruct (in_dec string_dec n (select_dtypes is_category d)) as [Hin|Hin]; auto.
  rewrite label_encoded_other; auto.
  destruct (is_category (dt s)) eqn:E; auto.
  exfalso; apply Hin. now apply (select_dtypes_In _ _ _ s).
Qed.

Lemma columns_ext (c1 c2 : list (string * Series)) :
  NoDup (map fst c1) -> map fst c1 = map fst c2 ->
  (forall n, lookup n c1 = lookup n c2) -> c1 = c2.
Proof.
  revert c2. induction c1 as [|[n s] c1 IH]; intros [|[n' s'] c2] Hnd Hn Hl;
    try discriminate; [reflexivity|].
  simpl in Hn. injection Hn as <- Hn. inversion Hnd as [|? ? Hnot Hnd']; subst.
  pose proof (Hl n) as Hhead. simpl in Hhead. rewrite String.eqb_refl in Hhead.
  injection Hhead as <-. f_equal. apply IH; auto.
  intro m. specialize (Hl m). simpl in Hl.
  destruct (String.eqb n m) eqn:E; [|exact Hl].
  apply String.eqb_eq in E. subst m.
  assert (Hnone : forall c, ~ In n (map fst c) -> lookup n c = None).
  { induction c as [|[k v] c IHc]; simpl; intro H; [reflexivity|].
    destruct (String.eqb k n) eqn:F.
    - apply String.eqb_eq in F. exfalso. apply H. now left.
    - apply IHc. intro Hin. apply H. now right. }
  rewrite (Hnone c1 Hnot). rewrite Hn in Hnot. now rewrite (Hnone c2 Hnot).
Qed.

Lemma frame_ext d1 d2 :
  NoDup (map fst (columns d1)) ->
  index d1 = index d2 -> map fst (columns d1) = map fst (columns d2) ->
  (forall n, getitem d1 n = getitem d2 n) -> d1 = d2.
Proof.
  intros Hnd Hi Hn Hg. destruct d1 as [i1 c1], d2 as [i2 c2]. simpl in *. subst i2.
  f_equal. apply columns_ext; auto.
  intro n. specialize (Hg n). unfold getitem in Hg. simpl in Hg.
  destruct (lookup n c1), (lookup n c2); congruence.
Qed.

Lemma getitem_names df n s : getitem df n = Ok s -> In n (map fst (columns df)).
Proof. intro H. apply has_column_names, has_column_getitem. eauto. Qed.

Lemma names_getitem df n : In n (map fst (columns df)) -> exists s, getitem df n = Ok s.
Proof. intro H. now apply has_column_getitem, has_column_names. Qed.

(** The frame the loop of [label_encode] and of [score_dataset] makes of a
    frame is determined column by column. *)
Lemma label_encoded_unique d d1 d2 :
  NoDup (map fst (columns d)) ->
  index d1 = index d -> map fst (columns d1) = map fst (columns d) ->
  (forall n s, getitem d n = Ok s -> getitem d1 n = Ok (label_encoded s)) ->
  index d2 = index d -> map fst (columns d2) = map fst (columns d) ->
  (forall n s, getitem d n = Ok s -> getitem d2 n = Ok (label_encoded s)) ->
  d1 = d2.
Proof.
  intros Hnd Hi1 Hn1 Hc1 Hi2 Hn2 Hc2. apply frame_ext; try congruence.
  intro n. destruct (has_column d n) eqn:E.
  - apply has_column_getitem in E. destruct E as [s Hs].
    now rewrite (Hc1 n s Hs), (Hc2 n s Hs).
  - assert (H1 : has_column d1 n = false).
    { apply not_true_is_false. intro H. apply has_column_names in H.
      rewrite Hn1 in H. apply has_column_names in H. congruence. }
    assert (H2 : has_column d2 n = false).
    { apply not_true_is_false. intro H. apply has_column_names in H.
      rewrite Hn2 in H. apply has_column_names in H. congruence. }
    now rewrite (getitem_missing _ _ H1), (getitem_missing _ _ H2).
Qed.

(** What [label_encode] does, step by step. *)
Lemma label_encode_steps df new h d :
  h df = Some (PyFrame d) -> new <> df -> NoDup (map fst (columns d)) ->
  exists h' d',
    label_encode df new h = (h', Ok new) /\
    h' new = Some (PyFrame d') /\
    h' df = Some (PyFrame d) /\
    (forall r, r <> new -> h' r = h r) /\
    index d' = index d /\
    map fst (columns d') = map fst (columns d) /\
    (forall n s, getitem d n = Ok s -> getitem d' n = Ok (label_encoded s)) /\
    (forall n s', getitem d' n = Ok s' -> is_category (dt s') = false).
Proof.
  intros Hh Hnew Hnd.
  destruct (label_all new (update h new (PyFrame d)) d) as
    [h' [d' [Hrun [HX [Hfr [Hi [Hn Hc]]]]]]]; [apply update_same|exact Hnd|].
  exists h', d'.
  assert (Hother : forall r, r <> new -> h' r = h r).
  { intros r Hr. rewrite (Hfr r Hr). now apply update_other. }
  split.
  { unfold label_encode, copy_frame.
    unfold py_bind at 1. unfold py_bind at 1. unfold read_frame at 1. rewrite Hh.
    unfold py_bind at 1. unfold write_frame at 1. unfold py_ret at 1.
    unfold py_bind at 1. unfold read_frame at 1. rewrite update_same.
    unfold py_bind at 1. rewrite Hrun. reflexivity. }
  split; [exact HX|]. split; [rewrite Hother; auto|].
  split; [exact Hother|]. split; [exact Hi|]. split; [exact Hn|]. split; [exact Hc|].
  intros n s' Hs'. destruct (names_getitem d n) as [s Hs].
  { rewrite <- Hn. now apply (getitem_names d' n s'). }
  rewrite (Hc n s Hs) in Hs'. injection Hs' as <-. apply label_encoded_not_category.
Qed.

(** [label_encode] returns a new frame and leaves the frame it is given as
    it was: the copy holds the category codes of every categorical column and
    the other columns as they are, so none of its columns is categorical,
    and every other object of the heap, [df] among them, is untouched. *)
Theorem label_encode_copy df new h d :
  h df = Some (PyFrame d) -> new <> df -> NoDup (map fst (columns d)) ->
  exists h' d',
    label_encode df new h = (h', Ok new) /\
    h' new = Some (PyFrame d') /\
    h' df = Some (PyFrame d) /\
    (forall r, r <> new -> h' r = h r) /\
    index d' = index d /\
    map fst (columns d') = map fst (columns d) /\
    (forall n s, getitem d n = Ok s -> getitem d' n = Ok (label_encoded s)) /\
    (forall n s', getitem d' n = Ok s' -> is_category (dt s') = false).
Proof.
  intros Hh Hnew Hnd.
  destruct (label_encode_steps df new h d Hh Hnew Hnd) as [h' [d' Hsteps]].
  exists h', d'. exact Hsteps.
Qed.

Lemma label_encode_copy_witness :
  exists h' d',
    label_encode 0 2 (heap_of mixed_frame (mkSeries number [])) = (h', Ok 2%nat) /\
    h' 0%nat = Some (PyFrame mixed_frame) /\
    h' 2%nat = Some (PyFrame d') /\
    getitem d' "Alley" = Ok (mkSeries number [Num 0; Num (inject_Z (-1))]).
Proof.
  destruct (label_encode_copy 0 2 (heap_of mixed_frame (mkSeries number [])) mixed_frame)
    as [h' [d' [Hrun [Hnew [Hold [_ [_ [_ [Hc _]]]]]]]]].
  - reflexivity.
  - discriminate.
  - apply distinct_NoDup. reflexivity.
  - exists h', d'. split; [exact Hrun|]. split; [exact Hold|]. split; [exact Hnew|].
    now rewrite (Hc "Alley" _ eq_refl).
Defined.

(** Scoring the copy [label_encode] returns gives what scoring the frame
    itself gives, and changes nothing: there is no categorical column left
    for [score_dataset] to overwrite. *)
Theorem score_dataset_label_encoded model df new y h d :
  h df = Some (PyFrame d) -> new <> df -> new <> y ->
  NoDup (map fst (columns d)) ->
  let h' := fst (label_encode df new h) in
  snd (score_dataset model new y h') = snd (score_dataset model df y h) /\
  forall r, fst (score_dataset model new y h') r = h' r.
Proof.
  intros Hh Hnew Hy Hnd.
  destruct (label_encode_steps df new h d Hh Hnew Hnd)
    as [h' [d' [Hrun [HX [_ [Hfr [Hi [Hn [Hc _]]]]]]]]].
  rewrite Hrun. simpl fst. intro h0. subst h0.
  assert (Hnd' : NoDup (map fst (columns d'))) by (now rewrite Hn).
  destruct (score_dataset_steps model df y h d Hh Hnd)
    as [h1 [d1 [_ [HX1 [Hfr1 [Hi1 [Hn1 [_ [Hc1 Hscore1]]]]]]]]].
  destruct (score_dataset_steps model new y h' d' HX Hnd')
    as [h2 [d2 [Hfst2 [HX2 [Hfr2 [Hi2 [Hn2 [_ [Hc2 Hscore2]]]]]]]]].
  assert (Hd1 : d1 = d').
  { apply (label_encoded_unique d); auto. }
  assert (Hd2 : d2 = d').
  { apply (label_encoded_unique d); auto; try congruence.
    intros n s Hs. rewrite (Hc2 n _ (Hc n s Hs)). now rewrite label_encoded_again. }
  subst d1 d2. split.
  - rewrite Hscore1, Hscore2. rewrite (Hfr2 y) by auto. rewrite (Hfr y) by auto.
    destruct (Nat.eq_dec y df) as [->|Hne].
    + now rewrite Hh, HX1.
    + now rewrite (Hfr1 y Hne).
  - intros r. rewrite Hfst2. destruct (Nat.eq_dec r new) as [->|Hr].
    + now rewrite HX2.
    + now apply Hfr2.
Qed.

Lemma score_dataset_label_encoded_witness :
  snd (score_dataset mean_model 2 1
         (fst (label_encode 0 2 (heap_of mixed_frame (mkSeries number [Num 1; Num 2])))))
  = snd (score_dataset mean_model 0 1 (heap_of mixed_frame (mkSeries number [Num 1; Num 2]))).
Proof.
  apply (score_dataset_label_encoded mean_model 0 2 1
           (heap_of mixed_frame (mkSeries number [Num 1; Num 2])) mixed_frame).
  - reflexivity.
  - discriminate.
  - discriminate.
  - apply distinct_NoDup. reflexivity.
Defined.

(** ** The codes of the ratings *)

Lemma cell_eqb_compat a b x : cell_eqb a b = true -> cell_eqb a x = cell_eqb b x.
Proof.
  destruct a as [|p|s], b as [|q|t]; simpl; try discriminate; intro H.
  - destruct x as [|r|u]; try reflexivity. apply Qeq_bool_iff in H.
    destruct (Qeq_bool p r) eqn:E1, (Qeq_bool q r) eqn:E2; try reflexivity.
    + apply Qeq_bool_iff in E1. apply Qeq_bool_neq in E2. exfalso. apply E2.
      now rewrite <- H.
    + apply Qeq_bool_iff in E2. apply Qeq_bool_neq in E1. exfalso. apply E1.
      now rewrite H.
  - apply String.eqb_eq in H. now subst.
Qed.

Lemma recode_compat levels a b :
  cell_eqb a b = true -> recode levels a = recode levels b.
Proof.
  intro H. unfold recode.
  assert (Hf : find (cell_eqb a) levels = find (cell_eqb b) levels).
  { induction levels as [|l rest IH]; simpl; [reflexivity|].
    rewrite (cell_eqb_compat a b l H). now rewrite IH. }
  now rewrite Hf.
Qed.

Lemma recode_cons l levels c :
  recode (l :: levels) c = if cell_eqb c l then l else recode levels c.
Proof. unfold recode. simpl. now destruct (cell_eqb c l). Qed.

Lemma impute_category_column df df' name s :
  NoDup (map fst (columns df)) -> impute df = Ok df' ->
  getitem df name = Ok s -> is_category (dt s) = true ->
  getitem df' name = Ok (filled (Str "None") s).
Proof.
  unfold impute. intros Hnd H Hs Hcat. bind_as H d1 H1.
  destruct (fill_loop (Num 0) _ eq_refl _ _ H1 name) as [_ Hno1].
  destruct (fill_loop (Str "None") _ eq_refl _ _ H name) as [Hyes2 _].
  assert (Hs1 : getitem d1 name = Ok s).
  { rewrite Hno1; [exact Hs|]. intro Hin.
    destruct (select_dtypes_NoDup _ _ _ Hnd Hin) as [t [Ht Hnum]].
    rewrite Hs in Ht. injection Ht as <-. destruct (dt s); discriminate. }
  destruct Hyes2 as [t [Ht [_ Hget]]].
  { now apply (select_dtypes_In _ _ _ s). }
  rewrite Hs1 in Ht. injection Ht as <-. exact Hget.
Qed.

(** Where the ratings end up.  After [encode], [impute] and label encoding,
    a rating [k] from 0 to 9 in [OverallQual] or [OverallCond] has the code
    [k + 1]; anything else, the top rating 10 and a missing rating among
    them, has the code 0, that of ["None"]. *)
Theorem rating_codes df d1 d2 name s :
  NoDup (map fst (columns df)) ->
  encode df = Ok d1 -> impute d1 = Ok d2 ->
  In name ["OverallQual"; "OverallCond"] -> getitem df name = Ok s ->
  exists s2,
    getitem d2 name = Ok s2 /\
    cat_codes s2 = Ok (label_encoded s2) /\
    forall i, (i < length (values s))%nat ->
      (forall k, (0 <= k <= 9)%Z ->
                 cell_eqb (at_row s i) (Num (inject_Z k)) = true ->
                 at_row (label_encoded s2) i = Num (inject_Z (k + 1))) /\
      (isin (at_row s i) ten_levels = false ->
       at_row (label_encoded s2) i = Num 0).
Proof.
  intros Hnd He Hi Hname Hs.
  set (L := Str "None" :: ten_levels).
  assert (Hitem : In (name, L) ordered_levels).
  { simpl in Hname. destruct Hname as [<-|[<-|Hf]]; [| |contradiction]; vm_compute; tauto. }
  pose proof (encode_ordinal_column _ _ (name, L) s He Hitem Hs) as Hs1.
  simpl fst in Hs1. simpl snd in Hs1.
  assert (Hnd1 : NoDup (map fst (columns d1))) by (now rewrite (encode_names _ _ He)).
  pose proof (impute_category_column _ _ _ _ Hnd1 Hi Hs1 eq_refl) as Hs2.
  eexists. split; [exact Hs2|]. split; [reflexivity|].
  intros i Hlt.
  assert (Hcell : at_row (label_encoded
                            (filled (Str "None")
                               (mkSeries (category L true) (map (recode L) (values s))))) i
                  = Num (inject_Z (code_of L (fill (Str "None") (recode L (at_row s i)))))).
  { unfold label_encoded, filled, at_row. simpl.
    rewrite !map_map.
    rewrite (nth_indep _ NaN
               (Num (inject_Z (code_of L (fill (Str "None") (recode L NaN))))))
      by (now rewrite length_map).
    now rewrite (map_nth (fun c => Num (inject_Z (code_of L (fill (Str "None") (recode L c)))))). }
  rewrite Hcell. split.
  - intros k Hk Heq. rewrite (recode_compat L _ _ Heq).
    assert (Hcases : (k = 0 \/ k = 1 \/ k = 2 \/ k = 3 \/ k = 4 \/ k = 5 \/ k = 6
                      \/ k = 7 \/ k = 8 \/ k = 9)%Z) by lia.
    repeat (destruct Hcases as [->|Hcases]; [reflexivity|]). subst k. reflexivity.
  - intro Hout.
    assert (Hrec : fill (Str "None") (recode L (at_row s i)) = Str "None").
    { unfold L. rewrite recode_cons.
      destruct (cell_eqb (at_row s i) (Str "None")); [reflexivity|].
      now rewrite recode_outside. }
    rewrite Hrec. reflexivity.
Qed.

Lemma rating_codes_witness :
  exists d1 d2 s2,
    encode houses = Ok d1 /\ impute d1 = Ok d2 /\
    getitem d2 "OverallQual" = Ok s2 /\
    at_row (label_encoded s2) 0 = Num (inject_Z 8) /\
    at_row (label_encoded s2) 1 = Num 0.
Proof.
  destruct (encode houses) as [d1|e] eqn:E; [|vm_compute in E; discriminate].
  destruct (impute d1) as [d2|e] eqn:I;
    [|vm_compute in E; injection E as <-; vm_compute in I; discriminate].
  destruct (rating_codes houses d1 d2 "OverallQual"
              (mkSeries number [Num (7 # 1); Num (10 # 1); Num (5 # 1)]))
    as [s2 [Hs2 [_ Hrows]]].
  - apply distinct_NoDup. reflexivity.
  - exact E.
  - exact I.
  - simpl. auto.
  - reflexivity.
  - exists d1, d2, s2. split; [reflexivity|]. split; [exact I|].
    split; [exact Hs2|]. split.
    + destruct (Hrows 0%nat) as [Hk _]; [simpl; lia|].
      apply (Hk 7%Z); [lia|reflexivity].
    + destruct (Hrows 1%nat) as [_ Hout]; [simpl; lia|].
      apply Hout. reflexivity.
Defined.

(** ** [counts]: outcome, and why it needs [clean] *)

Lemma map_result_outcome {A B : Type} (f : A -> result B) (e : exn) xs :
  (forall a, In a xs -> (exists b, f a = Ok b) \/ f a = Raise e) ->
  (exists bs, map_result f xs = Ok bs /\ Forall2 (fun a b => f a = Ok b) xs bs) \/
  (map_result f xs = Raise e /\ exists a, In a xs /\ f a = Raise e).
Proof.
  induction xs as [|x rest IH]; intro H.
  - left. exists []. split; [reflexivity|constructor].
  - simpl. destruct (H x (or_introl eq_refl)) as [[b Hb]|Hx].
    + rewrite Hb. simpl bind.
      destruct IH as [[bs [Hbs Hall]]|[Hraise [a [Ha Hfa]]]].
      * intros a Ha. apply H. now right.
      * left. exists (b :: bs). rewrite Hbs. split; [reflexivity|]. now constructor.
      * right. rewrite Hraise. split; [reflexivity|]. exists a. split; [now right|exact Hfa].
    + right. rewrite Hx. split; [reflexivity|]. exists x. split; [now left|exact Hx].
Qed.

Lemma Forall2_In_left {A B : Type} (R : A -> B -> Prop) xs ys x :
  Forall2 R xs ys -> In x xs -> exists y, In y ys /\ R x y.
Proof.
  induction 1 as [|a b xs ys Hab Hrest IH]; [contradiction|].
  intros [<-|Hin].
  - exists b. split; [now left|exact Hab].
  - destruct (IH Hin) as [y [Hy HR]]. exists y. split; [now right|exact HR].
Qed.

Lemma Forall2_In_right {A B : Type} (R : A -> B -> Prop) xs ys y :
  Forall2 R xs ys -> In y ys -> exists x, In x xs /\ R x y.
Proof.
  induction 1 as [|a b xs ys Hab Hrest IH]; [contradiction|].
  intros [<-|Hin].
  - exists a. split; [now left|exact Hab].
  - destruct (IH Hin) as [x [Hx HR]]. exists x. split; [now right|exact HR].
Qed.

Lemma map_result_gt_cell_str vs :
  forallb (fun c => negb (is_str c)) vs = false ->
  map_result (gt_cell 0) vs = Raise TypeError.
Proof.
  induction vs as [|c rest IH]; simpl; [discriminate|].
  destruct c as [|q|s]; simpl; auto.
  - intro H. now rewrite (IH H).
  - intro H. now rewrite (IH H).
Qed.

Lemma gt_scalar_not_comparable s :
  comparable s = false -> gt_scalar s 0 = Raise TypeError.
Proof.
  unfold comparable, gt_scalar. destruct (is_category (dt s)); simpl; auto.
  apply map_result_gt_cell_str.
Qed.

(** The columns [df[names]] selects, or the [KeyError] of a missing one. *)
Lemma select_columns_outcome df names :
  (exists B, select_columns df names = Ok B /\
             index B = index df /\
             Forall2 (fun n c => getitem df n = Ok (snd c)) names (columns B)) \/
  (select_columns df names = Raise KeyError /\
   exists n, In n names /\ has_column df n = false).
Proof.
  unfold select_columns.
  destruct (map_result_outcome (fun n => s <- getitem df n ;; Ok (n, s)) KeyError names)
    as [[cols [Hcols Hall]]|[Hraise [n [Hn Hfn]]]].
  - intros n _. destruct (has_column df n) eqn:E.
    + destruct (getitem_present _ _ E) as [s Hs]. left. rewrite Hs. simpl. eauto.
    + right. now rewrite (getitem_missing _ _ E).
  - left. rewrite Hcols. simpl bind. eexists. split; [reflexivity|].
    split; [reflexivity|]. simpl columns.
    clear Hcols. induction Hall as [|n c ns cs Hc Hrest IH]; constructor; auto.
    destruct (getitem df n) as [s|e]; [|discriminate]. simpl in Hc.
    now injection Hc as <-.
  - right. rewrite Hraise. split; [reflexivity|]. exists n. split; [exact Hn|].
    destruct (has_column df n) eqn:E; [|reflexivity].
    destruct (getitem_present _ _ E) as [s Hs]. rewrite Hs in Hfn. discriminate.
Qed.

Lemma counts_values df :
  (forall n, In n porch_columns -> exists s, getitem df n = Ok s /\ comparable s = true) ->
  exists X pt,
    counts df = Ok X /\
    columns X = [("PorchTypes", pt)] /\
    index X = index df /\
    forall i, (i < nrows df)%nat ->
      at_row pt i = Num (inject_Z (Z.of_nat (count_positive df porch_columns i))).
Proof.
  intro H.
  destruct (select_gt_flags df porch_columns H) as [cols [flags [Hsel [Hgt Hcount]]]].
  unfold counts, select_columns, frame_gt.
  rewrite Hsel; simpl bind. simpl columns. rewrite Hgt; simpl bind.
  eexists; eexists. split; [reflexivity|].
  unfold frame_of_column, sum_axis1; simpl.
  repeat split.
  intros i Hi.
  unfold at_row; simpl values. unfold nrows in *; simpl index.
  rewrite nth_indep with (d' := Num (inject_Z (Z.of_nat
            (length (filter (fun col => nth 0 col false) flags)))))
    by (rewrite length_map, length_seq; assumption).
  rewrite (map_nth (fun i => Num (inject_Z (Z.of_nat
             (length (filter (fun col => nth i col false) flags)))))
             (seq 0 (length (index df))) 0%nat i).
  rewrite seq_nth by assumption. simpl. now rewrite Hcount.
Qed.

(** The outcomes of [counts], by the porch columns. *)
Lemma counts_cases df :
  match counts df with
  | Ok _ =>
      forall n, In n porch_columns -> exists s, getitem df n = Ok s /\ comparable s = true
  | Raise KeyError => exists n, In n porch_columns /\ has_column df n = false
  | Raise TypeError =>
      (forall n, In n porch_columns -> has_column df n = true) /\
      exists n s, In n porch_columns /\ getitem df n = Ok s /\ comparable s = false
  | Raise _ => False
  end.
Proof.
  destruct (select_columns_outcome df porch_columns)
    as [[B [HB [_ Hall]]]|[Hraise Hmissing]].
  2:{ unfold counts. rewrite Hraise. simpl. exact Hmissing. }
  assert (Hpresent : forall n, In n porch_columns -> has_column df n = true).
  { intros n Hn. destruct (Forall2_In_left _ _ _ _ Hall Hn) as [c [_ Hc]].
    apply has_column_getitem. eauto. }
  unfold counts. rewrite HB. simpl bind. unfold frame_gt.
  destruct (map_result_outcome (fun c : string * Series => gt_scalar (snd c) 0)
              TypeError (columns B)) as [[flags [Hflags Hok]]|[Hraise [c [Hc Hfc]]]].
  - intros c _. destruct (comparable (snd c)) eqn:E.
    + left. rewrite (gt_scalar_comparable _ E). eauto.
    + right. now apply gt_scalar_not_comparable.
  - rewrite Hflags. simpl bind. intros n Hn.
    destruct (Forall2_In_left _ _ _ _ Hall Hn) as [c [Hc Hget]]. exists (snd c). split; [exact Hget|].
    destruct (Forall2_In_left _ _ _ _ Hok Hc) as [fl [_ Hfl]].
    destruct (comparable (snd c)) eqn:E; [reflexivity|].
    rewrite (gt_scalar_not_comparable _ E) in Hfl. discriminate.
  - rewrite Hraise. simpl bind. split; [exact Hpresent|].
    destruct (Forall2_In_right _ _ _ _ Hall Hc) as [n [Hn Hget]]. exists n, (snd c).
    split; [exact Hn|]. split; [exact Hget|].
    destruct (comparable (snd c)) eqn:E; [|reflexivity].
    rewrite (gt_scalar_comparable _ E) in Hfc. discriminate.
Qed.

(** When no porch column is categorical, [counts] returns exactly when the
    five porch columns are there and none holds a string; it raises
    [KeyError] exactly when one is missing, and [TypeError] exactly when all
    are there and one holds a string, which [gt] cannot compare with 0. *)
Theorem counts_outcome df :
  (forall n s, In n porch_columns -> getitem df n = Ok s -> is_category (dt s) = false) ->
  ((exists X, counts df = Ok X) <->
   forall n, In n porch_columns -> exists s, getitem df n = Ok s /\ no_str s = true) /\
  (counts df = Raise KeyError <->
   exists n, In n porch_columns /\ has_column df n = false) /\
  (counts df = Raise TypeError <->
   (forall n, In n porch_columns -> has_column df n = true) /\
   exists n s, In n porch_columns /\ getitem df n = Ok s /\ no_str s = false).
Proof.
  intro Hcat. pose proof (counts_cases df) as H.
  assert (Hpresent : forall n, In n porch_columns -> has_column df n = false ->
                               (forall m, In m porch_columns -> has_column df m = true) ->
                               False).
  { intros n Hn Hno Hall. rewrite (Hall n Hn) in Hno. discriminate. }
  assert (Hstr : forall n s, In n porch_columns -> getitem df n = Ok s ->
                             comparable s = no_str s).
  { intros n s Hn Hs. apply comparable_no_str. now apply (Hcat n). }
  assert (Hall : (forall n, In n porch_columns ->
                            exists s, getitem df n = Ok s /\ no_str s = true) ->
                 (forall m, In m porch_columns -> has_column df m = true) /\
                 (forall n s, In n porch_columns -> getitem df n = Ok s -> no_str s = true)).
  { intro Hok. split.
    - intros m Hm. destruct (Hok m Hm) as [s [Hs _]]. apply has_column_getitem. eauto.
    - intros n s Hn Hs. destruct (Hok n Hn) as [s' [Hs' Hno]]. congruence. }
  destruct (counts df) as [X|e] eqn:E.
  - split; [|split].
    + split; [|eauto]. intros _ n Hn. destruct (H n Hn) as [s [Hs Hcmp]].
      exists s. split; [exact Hs|]. now rewrite <- (Hstr n s Hn Hs).
    + split; [discriminate|]. intros [n [Hn Hno]]. exfalso.
      destruct (H n Hn) as [s [Hs _]]. rewrite (getitem_missing _ _ Hno) in Hs.
      discriminate.
    + split; [discriminate|]. intros [_ [n [s [Hn [Hs Hno]]]]]. exfalso.
      destruct (H n Hn) as [s' [Hs' Hcmp]]. rewrite Hs in Hs'. injection Hs' as <-.
      rewrite (Hstr n s Hn Hs) in Hcmp. congruence.
  - destruct e; try contradiction.
    + destruct H as [n [Hn Hno]]. split; [|split].
      * split; [intros [X HX]; discriminate|]. intro Hok. exfalso.
        apply (Hpresent n Hn Hno). apply (Hall Hok).
      * split; eauto.
      * split; [discriminate|]. intros [Hp _]. exfalso. now apply (Hpresent n Hn Hno).
    + destruct H as [Hp [n [s [Hn [Hs Hcmp]]]]].
      rewrite (Hstr n s Hn Hs) in Hcmp. split; [|split].
      * split; [intros [X HX]; discriminate|]. intro Hok. exfalso.
        destruct (Hall Hok) as [_ Hgood]. rewrite (Hgood n s Hn Hs) in Hcmp. discriminate.
      * split; [discriminate|]. intros [m [Hm Hno]]. exfalso. now apply (Hpresent m Hm Hno).
      * split; [|reflexivity]. intros _. split; [exact Hp|]. eauto.
Qed.

Lemma counts_outcome_witness :
  counts houses = Raise KeyError /\
  counts (mkFrame [1%Z] (map (fun n => (n, mkSeries object [Str "none"])) porch_columns))
  = Raise TypeError.
Proof.
  split.
  - apply (counts_outcome houses).
    + intros n s Hn Hs. simpl in Hn.
      repeat (destruct Hn as [<-|Hn]; [vm_compute in Hs; try discriminate;
                                       injection Hs as <-; reflexivity|]).
      contradiction.
    + exists "Threeseasonporch". split; [simpl; tauto|reflexivity].
  - apply (counts_outcome
             (mkFrame [1%Z] (map (fun n => (n, mkSeries object [Str "none"])) porch_columns))).
    + intros n s Hn Hs. simpl in Hn.
      repeat (destruct Hn as [<-|Hn]; [injection Hs as <-; reflexivity|]).
      contradiction.
    + split.
      * intros n Hn. simpl in Hn.
        repeat (destruct Hn as [<-|Hn]; [reflexivity|]). contradiction.
      * exists "WoodDeckSF", (mkSeries object [Str "none"]).
        split; [simpl; tauto|]. split; reflexivity.
Defined.

Lemma getitem_lookup d1 n1 d2 n2 :
  getitem d1 n1 = getitem d2 n2 -> lookup n1 (columns d1) = lookup n2 (columns d2).
Proof.
  unfold getitem. destruct (lookup n1 (columns d1)), (lookup n2 (columns d2));
    intro H; congruence.
Qed.

(** [counts] reads the third porch column under the name [clean] gives it:
    on a table as the CSV files have it, with [3SsnPorch], it raises
    [KeyError]; on the cleaned table it counts the porch areas of the raw
    table. *)
Theorem counts_after_clean df df' :
  clean df = Ok df' -> has_column df "Threeseasonporch" = false ->
  counts df = Raise KeyError /\
  ((forall n, In n raw_porch_columns ->
              exists s, getitem df n = Ok s /\ comparable s = true) ->
   exists X pt,
     counts df' = Ok X /\
     columns X = [("PorchTypes", pt)] /\
     index X = index df /\
     forall i, (i < nrows df)%nat ->
       at_row pt i = Num (inject_Z (Z.of_nat (count_positive df raw_porch_columns i)))).
Proof.
  intros Hclean Hnew. split.
  - destruct (select_columns_outcome df porch_columns)
      as [[B [HB [_ Hall]]]|[Hraise _]].
    + exfalso.
      destruct (Forall2_In_left _ _ _ "Threeseasonporch" Hall) as [c [_ Hc]].
      { simpl. auto. }
      rewrite (getitem_missing _ _ Hnew) in Hc. discriminate.
    + unfold counts. now rewrite Hraise.
  - intro Hraw.
    assert (Hkept : forall n, In n ["WoodDeckSF"; "OpenPorchSF"; "EnclosedPorch"; "ScreenPorch"] ->
                              getitem df' n = getitem df n).
    { intros n Hn. apply (clean_column_kept _ _ _ Hclean).
      simpl in Hn. repeat (destruct Hn as [<-|Hn]; [reflexivity|]). contradiction. }
    pose proof (clean_porch_renamed _ _ Hclean Hnew) as Hmoved.
    destruct (counts_values df') as [X [pt [Hrun [Hcols [Hidx Hrows]]]]].
    { intros n Hn. simpl in Hn.
      destruct Hn as [<-|[<-|[<-|[<-|[<-|Hn]]]]]; try contradiction;
        try (rewrite Hkept by (simpl; tauto); apply Hraw; simpl; tauto).
      rewrite Hmoved. apply Hraw. simpl. tauto. }
    assert (Hindex : index df' = index df).
    { destruct (clean_form df df' Hclean) as [ext [g [yb [_ [_ [_ [_ ->]]]]]]]. reflexivity. }
    exists X, pt. split; [exact Hrun|]. split; [exact Hcols|].
    split; [congruence|].
    intros i Hi. rewrite Hrows by (unfold nrows in *; now rewrite Hindex).
    unfold count_positive, porch_columns, raw_porch_columns. simpl filter.
    rewrite (getitem_lookup _ _ _ _ (Hkept "WoodDeckSF" ltac:(simpl; tauto))).
    rewrite (getitem_lookup _ _ _ _ (Hkept "OpenPorchSF" ltac:(simpl; tauto))).
    rewrite (getitem_lookup _ _ _ _ (Hkept "EnclosedPorch" ltac:(simpl; tauto))).
    rewrite (getitem_lookup _ _ _ _ (Hkept "ScreenPorch" ltac:(simpl; tauto))).
    rewrite (getitem_lookup _ _ _ _ Hmoved).
    destruct (lookup "WoodDeckSF" (columns df)) as [s1|];
      destruct (lookup "OpenPorchSF" (columns df)) as [s2|];
      destruct (lookup "EnclosedPorch" (columns df)) as [s3|];
      destruct (lookup "3SsnPorch" (columns df)) as [s4|];
      destruct (lookup "ScreenPorch" (columns df)) as [s5|];
      repeat match goal with
             | |- context [positive ?c] => destruct (positive c)
             end; reflexivity.
Qed.

Lemma counts_after_clean_witness :
  exists df',
    clean houses = Ok df' /\ counts houses = Raise KeyError /\
    exists X pt, counts df' = Ok X /\ columns X = [("PorchTypes", pt)] /\
                 at_row pt 2 = Num (inject_Z 2).
Proof.
  destruct (clean houses) as [df'|e] eqn:E; [|vm_compute in E; discriminate].
  destruct (counts_after_clean houses df' E eq_refl) as [Hraw Hclean].
  exists df'. split; [reflexivity|]. split; [exact Hraw|].
  destruct Hclean as [X [pt [Hrun [Hcols [_ Hrows]]]]].
  - intros n Hn. simpl in Hn.
    repeat (destruct Hn as [<-|Hn]; [eexists; split; reflexivity|]).
    contradiction.
  - exists X, pt. split; [exact Hrun|]. split; [exact Hcols|].
    rewrite (Hrows 2%nat) by (vm_compute; lia). reflexivity.
Defined.

(** ** [CrossFoldEncoder]: failures and the shape of the results *)




Lemma index_stack rest :
  forall b0, index (fold_left concat2 rest b0) = index b0 ++ List.concat (map index rest).
Proof.
  induction rest as [|b rest IH]; intro b0; simpl.
  - now rewrite app_nil_r.
  - rewrite IH. simpl. now rewrite <- app_assoc.
Qed.

Lemma map_nth_all {A : Type} (l : list A) d :
  map (fun i => nth i l d) (seq 0 (length l)) = l.
Proof.
  induction l as [|x l IH]; simpl; [reflexivity|].
  f_equal. rewrite <- seq_shift, map_map. exact IH.
Qed.

Lemma select_columns_names df names B :
  select_columns df names = Ok B -> map fst (columns B) = names /\ index B = index df.
Proof.
  intro H. destruct (select_columns_keyed _ _ _ H) as [Hk [Hi _]]. split; [|exact Hi].
  unfold keyed_by in Hk. rewrite Hk, map_map. simpl. apply map_id.
Qed.

Lemma add_suffix_names suffix df :
  map fst (columns (add_suffix suffix df))
  = map (fun name => (name ++ suffix)%string) (map fst (columns df)).
Proof. unfold add_suffix. simpl. now rewrite !map_map. Qed.

Section Shape.

Variable E : Encoder.
Hypothesis Hrows : keeps_rows E.
Hypothesis Hindex : keeps_index E.

Lemma fit_fold_index cols X y train test f B :
  fit_fold E cols X y (train, test) = Ok (f, B) ->
  index B = map (fun i => nth i (index X) 0%Z) test.
Proof.
  unfold fit_fold. intro H.
  bind_as H X_fit Hfit. bind_as H y_fit Hy. bind_as H enc Henc.
  bind_as H X_held Hheld. bind_as H T HT. bind_as H T' HT'.
  injection H as _ <-.
  destruct (select_columns_names _ _ _ HT') as [_ Hi]. rewrite Hi.
  rewrite (Hindex _ _ _ HT). now apply iloc_index.
Qed.

Lemma blocks_index cols X y splits rs :
  Forall2 (fun split r => fit_fold E cols X y split = Ok r) splits rs ->
  List.concat (map index (map snd rs))
  = map (fun i => nth i (index X) 0%Z) (List.concat (map snd splits)).
Proof.
  induction 1 as [|[train test] [f B] splits rs Hfold Hrest IH]; [reflexivity|].
  simpl. rewrite map_app, IH. f_equal. now apply (fit_fold_index cols X y train test f).
Qed.

(** What [fit_transform] returns has the columns [cols], renamed with the
    suffix, one value per row of [X] in each, under the row labels of [X] in
    their order; so [X.join] puts each encoding beside its own row.  (For an
    encoder class that returns the rows it is given.) *)
Theorem fit_transform_shape (self : CrossFoldEncoder E) X y cols out :
  snd (fit_transform E self X y cols) = Ok out ->
  map fst (columns out) = encoded_names cols /\
  index out = index X /\
  forall c, In c (columns out) -> length (values (snd c)) = nrows X.
Proof.
  intro H.
  destruct (fit_transform_Ok E self X y cols out H)
    as [splits [rs [b0 [rest [Hs [Hrs [_ [Hb ->]]]]]]]].
  pose proof (blocks_keyed E Hrows _ _ _ _ _ Hrs) as Hkeyed. rewrite Hb in Hkeyed.
  inversion Hkeyed as [|? ? Hk0 Hkrest]; subst.
  destruct (stack_keyed cols rest b0 Hk0 Hkrest) as [HkF Hvalues].
  pose proof (KFold_partition 5 (nrows X) splits ltac:(lia) Hs) as Hpart.
  split; [|split].
  - rewrite add_suffix_names. unfold keyed_by in HkF. rewrite HkF, !map_map.
    reflexivity.
  - unfold add_suffix. simpl index. rewrite index_stack.
    change (index b0 ++ List.concat (map index rest))
      with (List.concat (map index (b0 :: rest))).
    rewrite <- Hb, (blocks_index _ _ _ _ _ Hrs), Hpart. apply map_nth_all.
  - intros c Hc. unfold add_suffix in Hc. simpl in Hc.
    apply in_map_iff in Hc. destruct Hc as [c0 [<- Hc0]]. simpl.
    unfold keyed_by in HkF. rewrite HkF in Hc0. apply in_map_iff in Hc0.
    destruct Hc0 as [n [<- Hn]]. simpl. rewrite (Hvalues n Hn).
    destruct (blocks_lengths E Hrows cols X y splits rs n Hn Hrs) as [_ Hlen].
    rewrite Hb in Hlen.
    rewrite length_concat, Hlen.
    rewrite <- (map_map snd (@List.length nat)), <- length_concat, Hpart.
    apply length_seq.
Qed.

End Shape.

Lemma MEstimateEncoder_keeps_index m : keeps_index (MEstimateEncoder m).
Proof.
  unfold keeps_index. simpl. intros f Z T Hrun. unfold m_transform in Hrun.
  apply (for_each_inv _ (fun d => index d = index Z) _) with (s := Z) (s' := T) in Hrun;
    auto.
  intros d entry d' _ Hd Hstep. bind_as Hstep c Hc. now injection Hstep as <-.
Qed.

Lemma fit_transform_shape_witness :
  exists out,
    snd (fit_transform (MEstimateEncoder 1) (CrossFoldEncoder_init _) five_houses
           five_prices ["MSSubClass"]) = Ok out /\
    map fst (columns out) = ["MSSubClass_encoded"] /\
    index out = [1; 2; 3; 4; 5]%Z.
Proof.
  destruct (snd (fit_transform (MEstimateEncoder 1) (CrossFoldEncoder_init _) five_houses
                   five_prices ["MSSubClass"])) as [out|e] eqn:E;
    [|vm_compute in E; discriminate].
  exists out. split; [reflexivity|].
  destruct (fit_transform_shape (MEstimateEncoder 1) (MEstimateEncoder_keeps_rows 1)
              (MEstimateEncoder_keeps_index 1) _ _ _ _ _ E) as [Hn [Hi _]].
  split; [exact Hn|exact Hi].
Defined.

Lemma add_cells_length xs :
  forall ys zs, add_cells xs ys = Ok zs -> length zs = length xs.
Proof.
  induction xs as [|x xs IH]; intros [|y ys] zs H; simpl in H; try discriminate.
  - now injection H as <-.
  - bind_as H z Hz. bind_as H zs' Hzs. injection H as <-. simpl. f_equal.
    now apply (IH ys).
Qed.

Lemma add_columns_lengths xs :
  forall ys zs, add_columns xs ys = Ok zs ->
  map (fun c => length (values (snd c))) zs = map (fun c => length (values (snd c))) xs.
Proof.
  induction xs as [|[n s] xs IH]; intros [|[n' t] ys] zs H; simpl in H; try discriminate.
  - now injection H as <-.
  - destruct (String.eqb n n'); [|discriminate].
    bind_as H vs Hvs. bind_as H rest Hrest. injection H as <-. simpl. f_equal.
    + now apply (add_cells_length _ (values t)).
    + now apply (IH ys).
Qed.

Lemma frame_add_shape x y z :
  frame_add x y = Ok z ->
  index z = index x /\ map fst (columns z) = map fst (columns x) /\
  map (fun c => length (values (snd c))) (columns z)
  = map (fun c => length (values (snd c))) (columns x).
Proof.
  intro H. destruct (frame_add_cells _ _ _ H) as [Hn _].
  unfold frame_add in H. destruct (index_eqb (index x) (index y)); [|discriminate].
  bind_as H cols Hcols. injection H as <-. simpl. split; [reflexivity|].
  split; [exact Hn|]. now apply (add_columns_lengths _ (columns y)).
Qed.

Lemma frame_div_shape df n out :
  frame_div df n = Ok out ->
  index out = index df /\ map fst (columns out) = map fst (columns df) /\
  map (fun c => length (values (snd c))) (columns out)
  = map (fun c => length (values (snd c))) (columns df).
Proof.
  intro H. destruct (frame_div_cells _ _ _ H) as [Hn _].
  unfold frame_div in H. bind_as H cols Hcols. injection H as <-. simpl.
  split; [reflexivity|]. split; [exact Hn|]. clear Hn.
  apply map_result_Ok in Hcols. simpl in Hcols.
  induction Hcols as [|c c' cs cs' Hc Hrest IH]; [reflexivity|]. simpl. f_equal; [|exact IH].
  bind_as Hc vs Hvs. injection Hc as <-. simpl.
  apply map_result_Ok in Hvs. symmetry. now apply (Forall2_length Hvs).
Qed.

(** What [transform] returns has the columns [cols_], renamed with the
    suffix, one value per row of the frame it is given in each, under the row
    labels of that frame; and it returns only when the object holds a fitted
    encoder.  (For an encoder class that returns the rows it is given.) *)
Theorem cross_transform_shape E (self : CrossFoldEncoder E) Z cols out :
  keeps_rows E -> keeps_index E -> rectangular Z ->
  cols_ self = Some cols -> cross_transform E self Z = Ok out ->
  map fst (columns out) = encoded_names cols /\
  index out = index Z /\
  (forall c, In c (columns out) -> length (values (snd c)) = nrows Z) /\
  exists encoder encoders, fitted_encoders_ self = Some (encoder :: encoders).
Proof.
  intros Hrows Hindex HZ Hcols H. unfold cross_transform in H. rewrite Hcols in H.
  destruct (fitted_encoders_ self) as [encs|]; [|discriminate].
  bind_as H frames Hframes. bind_as H total Htotal. bind_as H avg Havg.
  injection H as <-.
  set (good := fun d : DataFrame =>
         index d = index Z /\ map fst (columns d) = cols /\
         Forall (fun c => length (values (snd c)) = nrows Z) (columns d)).
  assert (Hall : Forall good frames).
  { apply map_result_Ok in Hframes. clear Htotal Havg.
    induction Hframes as [|f T fs Ts Hf Hrest IH]; constructor; auto.
    bind_as Hf T0 HT0.
    destruct (select_columns_keyed _ _ _ Hf) as [Hk [Hi Hget]].
    destruct (select_columns_names _ _ _ Hf) as [Hn _].
    split; [rewrite Hi; now apply (Hindex f)|]. split; [exact Hn|].
    unfold keyed_by in Hk. rewrite Hk. apply Forall_forall. intros c Hc.
    apply in_map_iff in Hc. destruct Hc as [n [<- Hin]]. simpl.
    apply (Hrows f Z T0 n); auto. }
  assert (Hlen : forall d d' : DataFrame,
             map (fun c => length (values (snd c))) (columns d')
             = map (fun c => length (values (snd c))) (columns d) ->
             Forall (fun c => length (values (snd c)) = nrows Z) (columns d) ->
             Forall (fun c => length (values (snd c)) = nrows Z) (columns d')).
  { intros d d' Heq Hd.
    rewrite <- (Forall_map (fun c => length (values (snd c))) (fun k => k = nrows Z)).
    rewrite Heq.
    now rewrite (Forall_map (fun c => length (values (snd c))) (fun k => k = nrows Z)). }
  destruct frames as [|x0 rest]; [discriminate|].
  destruct encs as [|encoder encoders]; [discriminate|].
  inversion Hall as [|? ? Hx0 _]; subst.
  assert (Ht : good total).
  { simpl in Htotal.
    apply (for_each_inv frame_add good rest) with (s := x0); auto.
    intros d a d' _ [Hi [Hn Hl]] Hstep.
    destruct (frame_add_shape _ _ _ Hstep) as [Hi' [Hn' Hl']].
    split; [congruence|]. split; [congruence|]. now apply (Hlen d). }
  destruct Ht as [Hi [Hn Hl]].
  destruct (frame_div_shape _ _ _ Havg) as [Hi' [Hn' Hl']].
  split; [|split; [|split]].
  - rewrite add_suffix_names, Hn', Hn. reflexivity.
  - unfold add_suffix. simpl. congruence.
  - intros c Hc. unfold add_suffix in Hc. simpl in Hc.
    apply in_map_iff in Hc. destruct Hc as [c0 [<- Hc0]]. simpl.
    pose proof (Hlen total avg Hl' Hl) as Havgl. rewrite Forall_forall in Havgl.
    now apply Havgl.
  - eauto.
Qed.

Lemma cross_transform_shape_witness :
  exists out,
    cross_transform (MEstimateEncoder 1)
      (fst (fit_transform (MEstimateEncoder 1) (CrossFoldEncoder_init _) five_houses
              five_prices ["MSSubClass"])) five_houses = Ok out /\
    map fst (columns out) = ["MSSubClass_encoded"] /\
    index out = [1; 2; 3; 4; 5]%Z.
Proof.
  destruct (cross_transform (MEstimateEncoder 1)
              (fst (fit_transform (MEstimateEncoder 1) (CrossFoldEncoder_init _)
                      five_houses five_prices ["MSSubClass"])) five_houses)
    as [out|e] eqn:E; [|vm_compute in E; discriminate].
  exists out. split; [reflexivity|].
  destruct (cross_transform_shape (MEstimateEncoder 1)
              (fst (fit_transform (MEstimateEncoder 1) (CrossFoldEncoder_init _)
                      five_houses five_prices ["MSSubClass"]))
              five_houses ["MSSubClass"] out
              (MEstimateEncoder_keeps_rows 1) (MEstimateEncoder_keeps_index 1))
    as [Hn [Hi _]].
  - repeat constructor.
  - reflexivity.
  - exact E.
  - split; [exact Hn|exact Hi].
Defined.

(** ** [load_data]: the steps, and when the splits are the original ones *)

Lemma setitem_rectangular df name s :
  rectangular df -> length (values s) = nrows df -> rectangular (setitem df name s).
Proof.
  intros Hd Hs. unfold rectangular, setitem. simpl columns.
  unfold nrows. simpl index. now apply Forall_assign.
Qed.

Lemma concat2_rectangular a b :
  rectangular a -> rectangular b -> rectangular (concat2 a b).
Proof.
  intros Ha Hb. unfold rectangular, concat2. simpl columns.
  unfold nrows at 1. simpl index. rewrite length_app.
  apply Forall_forall. intros c Hc. apply in_map_iff in Hc.
  destruct Hc as [name [<- _]]. unfold concat_column.
  assert (Hla : forall s, lookup name (columns a) = Some s ->
                          length (values s) = length (index a)).
  { intros s Hs. apply lookup_In in Hs. unfold rectangular in Ha.
    rewrite Forall_forall in Ha. apply (Ha (name, s) Hs). }
  assert (Hlb : forall s, lookup name (columns b) = Some s ->
                          length (values s) = length (index b)).
  { intros s Hs. apply lookup_In in Hs. unfold rectangular in Hb.
    rewrite Forall_forall in Hb. apply (Hb (name, s) Hs). }
  destruct (lookup name (columns a)) as [s|], (lookup name (columns b)) as [t|];
    simpl; unfold nrows; rewrite ?length_app, ?repeat_length;
    rewrite ?(Hla s eq_refl), ?(Hlb t eq_refl); reflexivity.
Qed.

Lemma clean_rectangular df df' :
  clean df = Ok df' -> rectangular df -> rectangular df'.
Proof.
  intros H Hd.
  destruct (clean_form df df' H) as [ext [g [yb [Hext [Hg [Hyb [Hcmp ->]]]]]]].
  assert (Hrename : forall d, rectangular d -> rectangular (rename clean_renaming d)).
  { intros d Hr. unfold rectangular, rename in *. simpl columns.
    unfold nrows in *. simpl index. rewrite Forall_map. exact Hr. }
  apply (Hrename _). apply setitem_rectangular.
  - apply setitem_rectangular; [exact Hd|].
    unfold replace. simpl. rewrite length_map. now apply (rectangular_getitem df "Exterior2nd").
  - unfold where_. simpl values.
    pose proof (rectangular_getitem df _ _ Hd Hg) as Hlg.
    pose proof (rectangular_getitem df _ _ Hd Hyb) as Hlyb.
    rewrite where_cells_length; [exact Hlg|now rewrite length_map|congruence].
Qed.

Lemma encode_rectangular df df' :
  encode df = Ok df' -> rectangular df -> rectangular df'.
Proof.
  unfold encode. intros H Hd. bind_as H d1 H1.
  assert (Hd1 : rectangular d1).
  { apply (for_each_inv encode_nominal rectangular features_nom) with (s := df); auto.
    clear. intros d name d' _ Hd Hstep. unfold encode_nominal in Hstep.
    destruct (getitem d name) as [s|e] eqn:Hs; [|discriminate]. simpl bind in Hstep.
    rewrite getitem_setitem_same in Hstep. simpl bind in Hstep.
    assert (Hlen : length (values (astype_category s)) = nrows d).
    { unfold astype_category. destruct (dt s); simpl; now apply (rectangular_getitem d name). }
    pose proof (setitem_rectangular d name _ Hd Hlen) as Hd0.
    destruct (cat_categories (astype_category s)) as [cats|e]; [|discriminate].
    simpl bind in Hstep.
    destruct (negb (isin (Str "None") cats)).
    - destruct (add_categories (astype_category s) (Str "None")) as [s'|e] eqn:Ha;
        [|discriminate].
      simpl in Hstep. injection Hstep as <-.
      apply setitem_rectangular; [exact Hd0|].
      unfold add_categories in Ha. destruct (dt (astype_category s)); try discriminate.
      destruct (isin _ _); [discriminate|]. injection Ha as <-. exact Hlen.
    - now injection Hstep as <-. }
  apply (for_each_inv encode_ordinal rectangular ordered_levels) with (s := d1); auto.
  clear. intros d item d' _ Hd Hstep. unfold encode_ordinal in Hstep.
  bind_as Hstep s Hs. injection Hstep as <-.
  apply setitem_rectangular; [exact Hd|].
  unfold astype_levels. simpl. rewrite length_map.
  now apply (rectangular_getitem d (fst item)).
Qed.

Lemma impute_rectangular df df' :
  impute df = Ok df' -> rectangular df -> rectangular df'.
Proof.
  assert (Hloop : forall v names d d',
            for_each (fill_column v) names d = Ok d' -> rectangular d -> rectangular d').
  { intros v names d d' H Hd.
    apply (for_each_inv (fill_column v) rectangular names) with (s := d); auto.
    clear. intros d name d' _ Hd Hstep.
    destruct (fill_column_Ok _ _ _ _ Hstep) as [s [Hs [_ ->]]].
    apply setitem_rectangular; [exact Hd|].
    unfold filled. simpl. rewrite length_map. now apply (rectangular_getitem d name). }
  unfold impute. intros H Hd. bind_as H d1 H1.
  apply (Hloop _ _ _ _ H). apply (Hloop _ _ _ _ H1 Hd).
Qed.

Lemma positions_In idx label :
  In label idx ->
  positions idx label <> [] /\
  forall i, In i (positions idx label) -> (i < length idx)%nat.
Proof.
  intro Hin. unfold positions. split.
  - destruct (In_nth idx label 0%Z Hin) as [i [Hi Hnth]].
    intro Hnil.
    assert (Hmem : In i (filter (fun i => Z.eqb (nth i idx 0%Z) label) (seq 0 (length idx)))).
    { apply filter_In. split; [apply in_seq; lia|]. now apply Z.eqb_eq. }
    rewrite Hnil in Hmem. contradiction.
  - intros i Hi. apply filter_In in Hi. destruct Hi as [Hi _]. apply in_seq in Hi. lia.
Qed.

(** [df.loc[labels, :]] returns when every label is in the index. *)
Lemma loc_total df labels :
  rectangular df -> (forall l, In l labels -> In l (index df)) ->
  exists out, loc df labels = Ok out.
Proof.
  intros Hd Hlabels. unfold loc.
  assert (Hrows : exists rows,
            map_result (fun l => match positions (index df) l with
                                 | [] => Raise KeyError
                                 | ps => Ok ps
                                 end) labels = Ok rows /\
            forall i, In i (List.concat rows) -> (i < nrows df)%nat).
  { induction labels as [|l rest IH]; simpl.
    - exists []. split; [reflexivity|contradiction].
    - destruct IH as [rows [Hrows Hlt]]; [intros k Hk; apply Hlabels; now right|].
      destruct (positions_In (index df) l (Hlabels l (or_introl eq_refl))) as [Hne Hin].
      destruct (positions (index df) l) as [|p ps] eqn:E; [contradiction|].
      simpl bind. rewrite Hrows. simpl bind. exists ((p :: ps) :: rows).
      split; [reflexivity|]. intros i Hi. simpl in Hi. 
      change (In i ((p :: ps) ++ List.concat rows)) in Hi.
      apply in_app_or in Hi. destruct Hi as [Hi|Hi]; [now apply Hin|now apply Hlt]. }
  destruct Hrows as [rows [Hrows Hlt]]. rewrite Hrows. simpl bind.
  now apply iloc_total.
Qed.

(** C4.  [load_data] goes through these steps, in this order: the
    concatenation of the two splits, [clean], [encode], [impute], and the
    selection from the imputed frame of the rows under the labels of the
    train split and of those under the labels of the test split.  A step
    that raises makes [load_data] raise, and [load_data] returns when the
    three steps do.  When no row label occurs twice in the two splits, the
    frames returned are the first rows and the remaining rows of the imputed
    frame, and they carry the row labels of the splits they come from. *)
Theorem load_data_pipeline train test :
  (forall e, preprocessing (concat2 train test) = Raise e ->
             load_data train test = Raise e) /\
  (rectangular train -> rectangular test ->
   forall d3, preprocessing (concat2 train test) = Ok d3 ->
              exists tr te, load_data train test = Ok (tr, te)) /\
  (forall tr te, load_data train test = Ok (tr, te) ->
     exists d0 d1 d2 d3,
       pd_concat [train; test] = Ok d0 /\
       clean d0 = Ok d1 /\ encode d1 = Ok d2 /\ impute d2 = Ok d3 /\
       loc d3 (index train) = Ok tr /\ loc d3 (index test) = Ok te /\
       (NoDup (index train ++ index test) ->
        iloc d3 (seq 0 (nrows train)) = Ok tr /\
        iloc d3 (seq (nrows train) (nrows test)) = Ok te /\
        index tr = index train /\ index te = index test)).
Proof.
  split; [|split].
  - unfold load_data, preprocessing, pd_concat; simpl fold_left; simpl bind.
    intros e H.
    destruct (clean (concat2 train test)) as [d1|e1]; simpl bind in *;
      [|congruence].
    destruct (encode d1) as [d2|e2]; simpl bind in *; [|congruence].
    destruct (impute d2) as [d3|e3]; simpl bind in *; [discriminate|congruence].
  - intros Htrain Htest d3 H. unfold preprocessing in H.
    bind_as H d1 H1. bind_as H d2 H2.
    unfold load_data, pd_concat; simpl fold_left; simpl bind.
    rewrite H1. simpl bind. rewrite H2. simpl bind. rewrite H. simpl bind.
    assert (Hidx : index d3 = index train ++ index test).
    { rewrite (impute_index _ _ H), (encode_index _ _ H2), (clean_index _ _ H1).
      reflexivity. }
    assert (Hd3 : rectangular d3).
    { apply (impute_rectangular _ _ H), (encode_rectangular _ _ H2),
        (clean_rectangular _ _ H1). now apply concat2_rectangular. }
    destruct (loc_total d3 (index train) Hd3) as [tr Htr].
    { intros l Hl. rewrite Hidx. apply in_or_app. now left. }
    destruct (loc_total d3 (index test) Hd3) as [te Hte].
    { intros l Hl. rewrite Hidx. apply in_or_app. now right. }
    rewrite Htr. simpl bind. rewrite Hte. simpl bind. eauto.
  - unfold load_data, pd_concat; simpl fold_left; simpl bind.
    intros tr te H.
    bind_as H d1 H1. bind_as H d2 H2. bind_as H d3 H3.
    bind_as H tr' Htr. bind_as H te' Hte. injection H as <- <-.
    exists (concat2 train test), d1, d2, d3.
    repeat (split; [reflexivity || assumption|]).
    intro Hnd.
    assert (Hidx : index d3 = index train ++ index test).
    { rewrite (impute_index _ _ H3), (encode_index _ _ H2), (clean_index _ _ H1).
      reflexivity. }
    assert (Hloc : forall a k, (a + k <= length (index d3))%nat ->
              loc d3 (map (fun i => nth i (index d3) 0%Z) (seq a k))
              = iloc d3 (seq a k)).
    { intros a k Hk. unfold loc.
      rewrite loc_rows; [|rewrite Hidx; exact Hnd|exact Hk].
      simpl bind. now rewrite concat_singletons. }
    pose proof (Hloc 0%nat (nrows train)) as Htrain.
    pose proof (Hloc (nrows train) (nrows test)) as Htest.
    unfold nrows in *. rewrite Hidx, length_app in Htrain, Htest.
    rewrite nth_seq_app_l in Htrain. rewrite nth_seq_app_r in Htest.
    specialize (Htrain ltac:(lia)). specialize (Htest ltac:(lia)).
    rewrite Htr in Htrain. rewrite Hte in Htest.
    repeat split; auto.
    + rewrite (iloc_index _ _ _ (eq_sym Htrain)), Hidx. apply nth_seq_app_l.
    + rewrite (iloc_index _ _ _ (eq_sym Htest)), Hidx. apply nth_seq_app_r.
Qed.

Lemma load_data_pipeline_witness :
  exists tr te,
    load_data houses test_houses = Ok (tr, te) /\
    index tr = [1%Z; 2%Z; 3%Z] /\ index te = [4%Z; 5%Z].
Proof.
  destruct (load_data_pipeline houses test_houses) as [_ [Hreturns Hsteps]].
  destruct (preprocessing (concat2 houses test_houses)) as [d3|e] eqn:E;
    [|vm_compute in E; discriminate].
  destruct (Hreturns) with (d3 := d3) as [tr [te Hrun]].
  - unfold rectangular. simpl. repeat constructor.
  - unfold rectangular. simpl. repeat constructor.
  - reflexivity.
  - exists tr, te. split; [exact Hrun|].
    destruct (Hsteps tr te Hrun) as [d0 [d1 [d2 [d3' [_ [_ [_ [_ [_ [_ Hsplits]]]]]]]]]].
    destruct Hsplits as [_ [_ Hindex]]; [|exact Hindex].
    simpl. repeat (constructor; [simpl; intuition discriminate|]). constructor.
Defined.

(** C4 as the claim states it fails: with a row label that is in both splits,
    the train split [load_data] returns has the row of the test split under
    that label too, so it does not carry the row labels of the train split. *)
Lemma load_data_shared_label :
  ~ (forall train test tr te,
       load_data train test = Ok (tr, te) ->
       index tr = index train /\ index te = index test).
Proof.
  intro H.
  destruct (load_data houses shared_label_houses) as [[tr te]|e] eqn:E;
    [|vm_compute in E; discriminate].
  destruct (H _ _ _ _ E) as [Htr _].
  vm_compute in E. injection E as <- _. vm_compute in Htr. discriminate.
Qed.

(** ** [load_data]: the target of the test rows *)

Lemma load_data_splits train test tr te :
  NoDup (index train ++ index test) ->
  load_data train test = Ok (tr, te) ->
  exists d1 d2 d3,
    clean (concat2 train test) = Ok d1 /\ encode d1 = Ok d2 /\ impute d2 = Ok d3 /\
    iloc d3 (seq 0 (nrows train)) = Ok tr /\
    iloc d3 (seq (nrows train) (nrows test)) = Ok te.
Proof.
  intro Hnd. unfold load_data, pd_concat; simpl fold_left; simpl bind. intro H.
  bind_as H d1 H1. bind_as H d2 H2. bind_as H d3 H3. bind_as H tr' Htr. bind_as H te' Hte.
  injection H as <- <-.
  assert (Hidx : index d3 = index train ++ index test).
  { rewrite (impute_index _ _ H3), (encode_index _ _ H2), (clean_index _ _ H1).
    reflexivity. }
  assert (Hloc : forall a k, (a + k <= length (index d3))%nat ->
            loc d3 (map (fun i => nth i (index d3) 0%Z) (seq a k))
            = iloc d3 (seq a k)).
  { intros a k Hk. unfold loc.
    rewrite loc_rows; [|rewrite Hidx; exact Hnd|exact Hk].
    simpl bind. now rewrite concat_singletons. }
  pose proof (Hloc 0%nat (nrows train)) as Htrain.
  pose proof (Hloc (nrows train) (nrows test)) as Htest.
  unfold nrows in *. rewrite Hidx, length_app in Htrain, Htest.
  rewrite nth_seq_app_l in Htrain. rewrite nth_seq_app_r in Htest.
  specialize (Htrain ltac:(lia)). specialize (Htest ltac:(lia)).
  rewrite Htr in Htrain. rewrite Hte in Htest.
  exists d1, d2, d3. auto.
Qed.

Lemma impute_number_column df df' name s :
  impute df = Ok df' -> getitem df name = Ok s -> dt s = number ->
  getitem df' name = Ok (filled (Num 0) s).
Proof.
  unfold impute. intros H Hs Hnum. bind_as H d1 H1.
  destruct (fill_loop (Num 0) _ eq_refl _ _ H1 name) as [Hyes1 _].
  destruct (fill_loop (Str "None") _ eq_refl _ _ H name) as [Hyes2 Hno2].
  destruct Hyes1 as [t [Ht [_ Hget]]].
  { apply (select_dtypes_In _ _ _ s Hs). now rewrite Hnum. }
  rewrite Hs in Ht. injection Ht as <-.
  destruct (in_dec string_dec name (select_dtypes is_category d1)) as [Hin|Hin].
  - destruct (Hyes2 Hin) as [t [Ht [_ Hget2]]]. rewrite Hget in Ht. injection Ht as <-.
    rewrite Hget2. f_equal. apply filled_same. now apply filled_no_missing.
  - now rewrite (Hno2 Hin).
Qed.

Lemma iloc_getitem df rows df' name s :
  iloc df rows = Ok df' -> getitem df name = Ok s ->
  exists vs, take_rows (values s) rows = Ok vs /\
             getitem df' name = Ok (mkSeries (dt s) vs).
Proof.
  unfold iloc. intros H Hs. bind_as H idx Hidx. bind_as H cols Hcols.
  injection H as <-. apply getitem_Ok in Hs. unfold getitem. simpl columns.
  revert cols Hcols Hs. induction (columns df) as [|[n c] rest IH]; intros cols Hcols Hs.
  - discriminate.
  - simpl in Hcols. bind_as Hcols c' Hc'. bind_as Hcols cols' Hrest.
    injection Hcols as <-. bind_as Hc' s' Hs'. injection Hc' as <-.
    simpl in Hs |- *. destruct (String.eqb n name).
    + injection Hs as <-. unfold iloc_series in Hs'. bind_as Hs' vs Hvs.
      injection Hs' as <-. eauto.
    + now apply IH.
Qed.

Lemma concat2_left_only a b name s :
  getitem a name = Ok s -> has_column b name = false ->
  getitem (concat2 a b) name = Ok (mkSeries (dt s) (values s ++ repeat NaN (nrows b))).
Proof.
  intros Hs Hb. apply getitem_Ok. unfold concat2. simpl columns.
  assert (Hin : In name (map fst (columns a)
                         ++ filter (fun n => negb (has_column a n)) (map fst (columns b)))).
  { apply in_or_app. left. now apply (getitem_names a name s). }
  revert Hin. generalize (map fst (columns a)
                          ++ filter (fun n => negb (has_column a n)) (map fst (columns b))).
  intros names Hin. induction names as [|n names IH]; [contradiction|].
  simpl. unfold concat_column at 1.
  destruct (String.eqb_spec n name) as [->|Hne].
  - apply getitem_Ok in Hs. rewrite Hs. unfold has_column in Hb.
    destruct (lookup name (columns b)); [discriminate|].
    simpl. now rewrite String.eqb_refl.
  - assert (Hfst : forall x y,
               fst (match lookup n (columns a), lookup n (columns b) with
                    | Some s0, Some t => (n, mkSeries (concat_dtype (dt s0) (dt t))
                                                       (values s0 ++ values t))
                    | Some s0, None => (n, mkSeries (dt s0) (values s0 ++ repeat NaN x))
                    | None, Some t => (n, mkSeries (dt t) (repeat NaN y ++ values t))
                    | None, None => (n, mkSeries object (repeat NaN (y + x)))
                    end) = n).
    { intros x y. destruct (lookup n (columns a)), (lookup n (columns b)); reflexivity. }
    destruct Hin as [Heq|Hin]; [contradiction|].
    specialize (IH Hin).
    destruct (lookup n (columns a)), (lookup n (columns b)); simpl;
      (destruct (String.eqb n name) eqn:E; [apply String.eqb_eq in E; contradiction|]);
      exact IH.
Qed.

Lemma nth_seq_left {A : Type} (l1 l2 : list A) d a :
  length l1 = a -> map (fun i => nth i (l1 ++ l2) d) (seq 0 a) = l1.
Proof. intros <-. apply nth_seq_app_l. Qed.

Lemma nth_seq_right {A : Type} (l1 l2 : list A) d a k :
  length l1 = a -> length l2 = k -> map (fun i => nth i (l1 ++ l2) d) (seq a k) = l2.
Proof. intros <- <-. apply nth_seq_app_r. Qed.

Lemma map_fill_repeat v k : map (fill v) (repeat NaN k) = repeat v k.
Proof. induction k as [|k IH]; simpl; [reflexivity|]. now rewrite IH. Qed.

(** The test file has no [SalePrice]; [load_data] gives the test rows one,
    and every price in it is 0: stacking the two tables leaves the target of
    the test rows missing and [impute] fills a numeric column with 0.  The
    training rows keep their prices. *)
Theorem load_data_test_prices train test tr te s :
  NoDup (index train ++ index test) ->
  getitem train "SalePrice" = Ok s -> dt s = number ->
  length (values s) = nrows train ->
  has_column test "SalePrice" = false ->
  load_data train test = Ok (tr, te) ->
  getitem tr "SalePrice" = Ok (mkSeries number (map (fill (Num 0)) (values s))) /\
  getitem te "SalePrice" = Ok (mkSeries number (repeat (Num 0) (nrows test))).
Proof.
  intros Hnd Hs Hnum Hlen Htest H.
  destruct (load_data_splits _ _ _ _ Hnd H) as [d1 [d2 [d3 [H1 [H2 [H3 [Htr Hte]]]]]]].
  pose proof (concat2_left_only _ _ _ _ Hs Htest) as H0.
  rewrite <- (clean_column_kept _ _ "SalePrice" H1 eq_refl) in H0.
  rewrite <- (encode_other _ _ "SalePrice" H2) in H0.
  2:{ intro Hl. apply listed_listedb in Hl. discriminate. }
  apply (impute_number_column _ _ _ _ H3) in H0; [|exact Hnum].
  unfold filled in H0. simpl in H0. rewrite Hnum in H0. simpl in H0.
  rewrite map_app in H0.
  rewrite map_fill_repeat in H0.
  split.
  - destruct (iloc_getitem _ _ _ _ _ Htr H0) as [vs [Hvs Hget]]. rewrite Hget.
    simpl dt. f_equal. f_equal.
    rewrite (take_rows_Ok _ _ _ NaN Hvs). simpl values.
    apply nth_seq_left. now rewrite length_map.
  - destruct (iloc_getitem _ _ _ _ _ Hte H0) as [vs [Hvs Hget]]. rewrite Hget.
    simpl dt. f_equal. f_equal.
    rewrite (take_rows_Ok _ _ _ NaN Hvs). simpl values.
    apply nth_seq_right; [now rewrite length_map|apply repeat_length].
Qed.

Lemma load_data_test_prices_witness :
  exists tr te,
    load_data houses test_houses = Ok (tr, te) /\
    getitem te "SalePrice" = Ok (mkSeries number [Num 0; Num 0]).
Proof.
  destruct (load_data houses test_houses) as [[tr te]|e] eqn:E;
    [|vm_compute in E; discriminate].
  exists tr, te. split; [reflexivity|].
  destruct (load_data_test_prices houses test_houses tr te
              (mkSeries number [Num (208500 # 1); Num (181500 # 1); Num (223500 # 1)]))
    as [_ Hte]; try reflexivity; [|exact E|exact Hte].
  simpl. repeat (constructor; [simpl; intuition discriminate|]). constructor.
Defined.

(** ** [score_dataset]: too few rows *)

(** [score_dataset] needs five rows, one per fold, and a target for each
    row: with positive targets it raises [ValueError] when the frame has
    fewer than five rows or when the targets are not as many as the rows.
    The frame has its categorical columns overwritten all the same. *)
Theorem score_dataset_failure model X y h df ys qs :
  h X = Some (PyFrame df) -> h y = Some (PySeries ys) ->
  NoDup (map fst (columns df)) ->
  values ys = map Num qs -> Forall (fun q => 0 < q) qs ->
  (nrows df < 5)%nat \/ length qs <> nrows df ->
  snd (score_dataset model X y h) = Raise ValueError /\
  exists df',
    fst (score_dataset model X y h) X = Some (PyFrame df') /\
    forall name s, getitem df name = Ok s -> getitem df' name = Ok (label_encoded s).
Proof.
  intros HX Hy Hnd Hvalues Hpos Hbad.
  destruct (score_dataset_steps model X y h df HX Hnd)
    as [h' [df' [Hfst [HX' [Hfr [Hi [_ [_ [Hc Hsnd]]]]]]]]].
  split.
  - rewrite Hsnd. rewrite Hfr by (intros ->; rewrite HX in Hy; discriminate).
    rewrite Hy. simpl bind. rewrite (np_log_positive _ _ Hvalues Hpos). simpl bind.
    unfold cross_val_score. unfold nrows in *. rewrite Hi, length_map.
    destruct (length (index df) =? length qs)%nat eqn:E.
    + apply Nat.eqb_eq in E. unfold KFold_split.
      destruct (length (index df) <? 5)%nat eqn:El; [reflexivity|].
      apply Nat.ltb_ge in El. lia.
    + reflexivity.
  - exists df'. rewrite Hfst. split; [exact HX'|exact Hc].
Qed.

Lemma score_dataset_failure_witness :
  snd (score_dataset mean_model 0 1 (heap_of mixed_frame (mkSeries number [Num 1; Num 2])))
  = Raise ValueError.
Proof.
  apply (score_dataset_failure mean_model 0 1
           (heap_of mixed_frame (mkSeries number [Num 1; Num 2])) mixed_frame
           (mkSeries number [Num 1; Num 2]) [1; 2]).
  - reflexivity.
  - reflexivity.
  - apply distinct_NoDup. reflexivity.
  - reflexivity.
  - repeat constructor.
  - left. vm_compute. lia.
Defined.

(** ** [impute]: when it raises *)

Lemma for_each_outcome {A S : Type} (body : S -> A -> result S) (e : exn)
  (P : S -> Prop) xs :
  (forall s a, In a xs -> P s ->
               (exists s', body s a = Ok s' /\ P s') \/ body s a = Raise e) ->
  forall s, P s -> (exists s', for_each body xs s = Ok s' /\ P s')
                   \/ for_each body xs s = Raise e.
Proof.
  induction xs as [|x rest IH]; simpl; intros Hstep s Hs.
  - left. eauto.
  - destruct (Hstep s x (or_introl eq_refl) Hs) as [[s' [Hs' HP]]|Hraise].
    + rewrite Hs'. simpl bind. apply IH; [|exact HP].
      intros s0 a Ha. apply Hstep. now right.
    + rewrite Hraise. simpl. now right.
Qed.

Lemma select_dtypes_names kind df name :
  In name (select_dtypes kind df) -> In name (map fst (columns df)).
Proof.
  unfold select_dtypes. intro H. apply in_map_iff in H.
  destruct H as [c [<- Hc]]. apply filter_In in Hc. apply in_map. tauto.
Qed.

Lemma fill_column_outcome v names (df d : DataFrame) name :
  In name names ->
  (forall n, In n names -> In n (map fst (columns df))) ->
  map fst (columns d) = map fst (columns df) ->
  (exists d', fill_column v d name = Ok d' /\
              map fst (columns d') = map fst (columns df))
  \/ fill_column v d name = Raise TypeError.
Proof.
  intros Hin Hsub Hd. unfold fill_column.
  destruct (names_getitem d name) as [s Hs].
  { rewrite Hd. now apply Hsub. }
  rewrite Hs. simpl bind. unfold fillna.
  assert (Hkeep : forall s', map fst (columns (setitem d name s')) = map fst (columns df)).
  { intro s'. unfold setitem. simpl. rewrite <- Hd.
    apply (assign_names _ _ s). now apply getitem_Ok. }
  destruct (dt s) as [| |cats ord]; simpl bind; eauto.
  destruct (isin v cats); simpl bind; eauto.
Qed.

Lemma impute_Ok_or_TypeError df :
  (exists df', impute df = Ok df') \/ impute df = Raise TypeError.
Proof.
  assert (Hloop : forall v kind d0,
            (exists d', for_each (fill_column v) (select_dtypes kind d0) d0 = Ok d')
            \/ for_each (fill_column v) (select_dtypes kind d0) d0 = Raise TypeError).
  { intros v kind d0.
    destruct (for_each_outcome (fill_column v) TypeError
                (fun d => map fst (columns d) = map fst (columns d0))
                (select_dtypes kind d0)) with (s := d0) as [[d1 [H1 _]]|H1].
    - intros d a Ha Hd.
      apply (fill_column_outcome _ (select_dtypes kind d0)); auto.
      intros n Hn. now apply (select_dtypes_names kind).
    - reflexivity.
    - left. eauto.
    - now right. }
  unfold impute.
  destruct (Hloop (Num 0) is_number df) as [[d1 H1]|H1]; rewrite H1; simpl bind.
  - apply Hloop.
  - now right.
Qed.

(** On a frame with distinct column names, [impute] returns exactly when
    every categorical column has ["None"] among its categories, which is what
    [encode] sees to; otherwise it raises [TypeError], and it raises nothing
    else. *)
Theorem impute_outcome df :
  NoDup (map fst (columns df)) ->
  match impute df with
  | Ok _ => categories_have_None df
  | Raise TypeError =>
      exists name s cats ord,
        getitem df name = Ok s /\ dt s = category cats ord /\
        isin (Str "None") cats = false
  | Raise _ => False
  end.
Proof.
  intro Hnd. destruct (impute_Ok_or_TypeError df) as [[df' H]|H]; rewrite H.
  - intros name s cats ord Hin Hdt.
    assert (Hs : getitem df name = Ok s) by (now apply getitem_Ok, lookup_NoDup).
    destruct (impute_keeps_category _ _ _ _ H Hs) as [s' [Hs' Hdt']].
    { now rewrite Hdt. }
    apply (impute_category_None _ _ _ _ _ ord H Hs'). congruence.
  - set (lacks := fun c : string * Series =>
                    match dt (snd c) with
                    | category cats _ => negb (isin (Str "None") cats)
                    | _ => false
                    end).
    destruct (existsb lacks (columns df)) eqn:E.
    + apply existsb_exists in E. destruct E as [[name s] [Hin Hl]].
      unfold lacks in Hl. simpl in Hl.
      destruct (dt s) as [| |cats ord] eqn:Hdt; try discriminate.
      exists name, s, cats, ord. split; [now apply getitem_Ok, lookup_NoDup|].
      split; [exact Hdt|]. now apply negb_true_iff.
    + exfalso. destruct (impute_columns df Hnd) as [df' [Hok _]]; [|congruence].
      intros name s cats ord Hin Hdt.
      assert (Hl : lacks (name, s) = false).
      { destruct (lacks (name, s)) eqn:El; [|reflexivity].
        assert (existsb lacks (columns df) = true) by (apply existsb_exists; eauto).
        congruence. }
      unfold lacks in Hl. simpl in Hl. rewrite Hdt in Hl. now apply negb_false_iff.
Qed.

Lemma impute_outcome_witness :
  exists name s cats ord,
    getitem (mkFrame [1%Z] [("Alley", mkSeries (category [Str "Grvl"] false) [NaN])]) name
    = Ok s /\
    dt s = category cats ord /\ isin (Str "None") cats = false.
Proof.
  apply (impute_outcome
           (mkFrame [1%Z] [("Alley", mkSeries (category [Str "Grvl"] false) [NaN])])).
  repeat constructor. simpl. tauto.
Defined.
